(** * A shallow embedding of the MPI heat-equation solver

    The development follows [heat_solver_mpi.py]: the class [HeatSolverMPI]
    with its grid configuration, the two halo buffers [u] and [u_new], the
    Cartesian process topology, the halo exchange, the five-point stencil,
    the Dirichlet boundary enforcement, the gather of the distributed field,
    the max-reduction and the snapshot writer.

    Modelling conventions.
    - Python integers are [Z]; [//] and [%] are [Z.div] and [Z.modulo]
      (both round towards minus infinity, as Python does).
    - A Python float is an exact rational or the not-a-number value, see
      [cell]: infinities and the sign of zero are not modelled, and the
      arithmetic of the solver is exact; only the time that a snapshot
      prints is rounded as a float is, see [round_float].
    - A two-dimensional numpy array is a shape together with its items,
      see [ndarray]; a one-dimensional array is a list of cells.
    - Python exceptions are the [Raise] results of the [result] monad.
    - The SPMD program is modelled by the list of all processes, indexed by
      rank; a collective call is a function of that list. *)

From Stdlib Require Import Ascii String DecimalString.
From Stdlib Require DecimalPos.
From Stdlib Require Import ZArith QArith Qminmax Qabs Qround List Bool Lia Lqa.
Import ListNotations.
Local Open Scope Z_scope.

(** ** Exceptions *)

Inductive exn : Type :=
| ZeroDivisionError
| ValueError
| IndexError
| Blocked.   (* not an exception: a receive that no send ever matches *)

Inductive result (A : Type) : Type :=
| Ok (a : A)
| Raise (e : exn).

Arguments Ok {A} a.
Arguments Raise {A} e.

Definition bind {A B : Type} (m : result A) (k : A -> result B) : result B :=
  match m with
  | Ok a => k a
  | Raise e => Raise e
  end.

Notation "x <- m ;; k" := (bind m (fun x => k))
  (at level 61, m at next level, right associativity).

Fixpoint mapM {A B : Type} (f : A -> result B) (l : list A) : result (list B) :=
  match l with
  | [] => Ok []
  | a :: l' => b <- f a ;; bs <- mapM f l' ;; Ok (b :: bs)
  end.

(** ** Floating-point cells *)

Inductive cell : Type :=
| Num (q : Q)
| NaN.

Definition lift2 (f : Q -> Q -> Q) (a b : cell) : cell :=
  match a, b with
  | Num x, Num y => Num (f x y)
  | _, _ => NaN
  end.

Definition cadd : cell -> cell -> cell := lift2 Qplus.
Definition csub : cell -> cell -> cell := lift2 Qminus.
Definition cmul : cell -> cell -> cell := lift2 Qmult.

(** [np.abs] on one item. *)
Definition cabs (a : cell) : cell :=
  match a with
  | Num x => Num (Qabs x)
  | NaN => NaN
  end.

(** Python's [y > x] on floats: false as soon as one side is not a number. *)
Definition cgt (y x : cell) : bool :=
  match y, x with
  | Num b, Num a => negb (Qle_bool b a)
  | _, _ => false
  end.

(** The item-wise maximum behind [np.max]: not-a-number propagates. *)
Definition np_maximum (a b : cell) : cell :=
  match a, b with
  | Num x, Num y => if Qle_bool x y then Num y else Num x
  | _, _ => NaN
  end.

(** Physical parameters (module constants of the source). *)
Definition ALPHA : Q := 1 # 100.
Definition T_HOT : cell := Num 100.
Definition T_COLD : cell := Num 0.
Definition T_INITIAL : cell := Num 20.

(** ** numpy arrays *)

Definition zseq (n : Z) : list Z := map Z.of_nat (seq 0 (Z.to_nat n)).

Record ndarray : Type := mkArr {
  shape0 : Z;
  shape1 : Z;
  item : Z -> Z -> cell
}.

(** The largest [npy_intp] of a 64-bit platform. *)
Definition NPY_MAX_INTP : Z := 2 ^ 63 - 1.

(** numpy refuses an array of [float64] whose size in bytes, the product of
    its non-zero dimensions and of the 8 bytes of an item, exceeds
    [NPY_MAX_INTP]; a dimension above [NPY_MAX_INTP] is among them. *)
Definition too_big (a b : Z) : bool :=
  NPY_MAX_INTP <? 8 * (if a =? 0 then 1 else a) * (if b =? 0 then 1 else b).

(** [np.full((a, b), v, dtype=np.float64)]: a negative dimension and a size
    that is too big both raise [ValueError]. The memory of the machine is
    taken to suffice for an array that numpy does not refuse. *)
Definition np_full (a b : Z) (v : cell) : result ndarray :=
  if (a <? 0) || (b <? 0) || too_big a b then Raise ValueError
  else Ok (mkArr a b (fun _ _ => v)).

(** [np.zeros((a, b))]. It is called for the global field of a run, whose
    cells the local buffers of the processes already hold: the limit on
    the size is not repeated. *)
Definition np_zeros (a b : Z) : result ndarray :=
  if (a <? 0) || (b <? 0) then Raise ValueError
  else Ok (mkArr a b (fun _ _ => Num 0)).

(** An integer index [k] on an axis of length [n]. *)
Definition py_index (n k : Z) : result Z :=
  let k' := if k <? 0 then k + n else k in
  if (0 <=? k') && (k' <? n) then Ok k' else Raise IndexError.

(** A slice [start:stop] (step one) on an axis of length [n], as
    [slice.indices] resolves it: the first index and the length. *)
Definition slice : Type := (option Z * option Z)%type.

Definition py_bound (n k : Z) : Z :=
  if k <? 0 then Z.max (k + n) 0 else Z.min k n.

Definition slice_lo (n : Z) (s : slice) : Z :=
  match fst s with
  | None => 0
  | Some k => py_bound n k
  end.

Definition slice_hi (n : Z) (s : slice) : Z :=
  match snd s with
  | None => n
  | Some k => py_bound n k
  end.

Definition slice_len (n : Z) (s : slice) : Z :=
  Z.max 0 (slice_hi n s - slice_lo n s).

Definition in_slice (n : Z) (s : slice) (k : Z) : bool :=
  (slice_lo n s <=? k) && (k <? slice_lo n s + slice_len n s).

(** The slices the solver uses. *)
Definition full : slice := (None, None).                    (* [:]    *)
Definition inner : slice := (Some 1, Some (-1)).            (* [1:-1] *)
Definition upto_m2 : slice := (None, Some (-2)).            (* [:-2]  *)
Definition from_2 : slice := (Some 2, None).                (* [2:]   *)

(** [a[k, s]]: part of a row, a one-dimensional array. *)
Definition get_row (a : ndarray) (k : Z) (s : slice) : result (list cell) :=
  i <- py_index (shape0 a) k ;;
  Ok (map (fun d => item a i (slice_lo (shape1 a) s + d))
          (zseq (slice_len (shape1 a) s))).

(** [a[s, k]]: part of a column. *)
Definition get_col (a : ndarray) (s : slice) (k : Z) : result (list cell) :=
  j <- py_index (shape1 a) k ;;
  Ok (map (fun d => item a (slice_lo (shape0 a) s + d) j)
          (zseq (slice_len (shape0 a) s))).

(** [a[s0, s1]]: a block. *)
Definition get_block (a : ndarray) (s0 s1 : slice) : ndarray :=
  mkArr (slice_len (shape0 a) s0) (slice_len (shape1 a) s1)
        (fun i j => item a (slice_lo (shape0 a) s0 + i)
                           (slice_lo (shape1 a) s1 + j)).

(** The right-hand side of an assignment to a one-dimensional slice: a
    scalar, a one-dimensional array, or [None], which numpy stores in a
    float array as not-a-number. *)
Inductive rhs1 : Type :=
| Scalar (c : cell)
| Vec (l : list cell)
| PyNone.

Definition nth_cell (l : list cell) (k : Z) : cell := nth (Z.to_nat k) l NaN.

(** Broadcasting of the right-hand side to a slice of length [len]: the
    item stored at offset [d], or the shape error. *)
Definition broadcast1 (len : Z) (v : rhs1) : result (Z -> cell) :=
  match v with
  | Scalar c => Ok (fun _ => c)
  | PyNone => Ok (fun _ => NaN)
  | Vec l =>
      if Z.of_nat (length l) =? len then Ok (nth_cell l)
      else if Z.of_nat (length l) =? 1 then Ok (fun _ => nth_cell l 0)
      else Raise ValueError
  end.

(** [a[k, s] = v]. *)
Definition set_row (a : ndarray) (k : Z) (s : slice) (v : rhs1) : result ndarray :=
  r <- py_index (shape0 a) k ;;
  f <- broadcast1 (slice_len (shape1 a) s) v ;;
  Ok (mkArr (shape0 a) (shape1 a)
        (fun i j => if (i =? r) && in_slice (shape1 a) s j
                    then f (j - slice_lo (shape1 a) s)
                    else item a i j)).

(** [a[s, k] = v]. *)
Definition set_col (a : ndarray) (s : slice) (k : Z) (v : rhs1) : result ndarray :=
  c <- py_index (shape1 a) k ;;
  f <- broadcast1 (slice_len (shape0 a) s) v ;;
  Ok (mkArr (shape0 a) (shape1 a)
        (fun i j => if (j =? c) && in_slice (shape0 a) s i
                    then f (i - slice_lo (shape0 a) s)
                    else item a i j)).

(** Broadcasting of a block of shape [(a, b)] to a target of shape
    [(n, m)]. *)
Definition broadcast2 (n m : Z) (v : ndarray) : result (Z -> Z -> cell) :=
  if ((shape0 v =? n) || (shape0 v =? 1)) && ((shape1 v =? m) || (shape1 v =? 1))
  then Ok (fun i j => item v (if shape0 v =? n then i else 0)
                             (if shape1 v =? m then j else 0))
  else Raise ValueError.

(** [a[s0, s1] = v]. *)
Definition set_block (a : ndarray) (s0 s1 : slice) (v : ndarray) : result ndarray :=
  f <- broadcast2 (slice_len (shape0 a) s0) (slice_len (shape1 a) s1) v ;;
  Ok (mkArr (shape0 a) (shape1 a)
        (fun i j => if in_slice (shape0 a) s0 i && in_slice (shape1 a) s1 j
                    then f (i - slice_lo (shape0 a) s0) (j - slice_lo (shape1 a) s1)
                    else item a i j)).

(** Item-wise arithmetic on arrays of one shape (the solver only combines
    slices of equal shape, so no broadcasting between arrays is modelled). *)
Definition arr_map2 (f : cell -> cell -> cell) (a b : ndarray) : result ndarray :=
  if (shape0 a =? shape0 b) && (shape1 a =? shape1 b)
  then Ok (mkArr (shape0 a) (shape1 a) (fun i j => f (item a i j) (item b i j)))
  else Raise ValueError.

Definition arr_add : ndarray -> ndarray -> result ndarray := arr_map2 cadd.
Definition arr_sub : ndarray -> ndarray -> result ndarray := arr_map2 csub.

(** [c * a] for a scalar [c]. *)
Definition arr_scale (c : cell) (a : ndarray) : ndarray :=
  mkArr (shape0 a) (shape1 a) (fun i j => cmul c (item a i j)).

(** [np.abs(a)]. *)
Definition np_abs (a : ndarray) : ndarray :=
  mkArr (shape0 a) (shape1 a) (fun i j => cabs (item a i j)).

(** [a.flatten()]: the items in row-major order. *)
Definition flatten (a : ndarray) : list cell :=
  concat (map (fun i => map (fun j => item a i j) (zseq (shape1 a)))
              (zseq (shape0 a))).

(** [a.size]. *)
Definition np_size (a : ndarray) : Z := shape0 a * shape1 a.

(** [np.max(a)]: a zero-size array has no maximum. *)
Definition np_max (a : ndarray) : result cell :=
  match flatten a with
  | [] => Raise ValueError
  | c :: l => Ok (fold_left np_maximum l c)
  end.

(** [l[lo:lo+n]] on a one-dimensional array [l], with [0 <= lo] and
    [0 <= n], and [l.reshape(a, b)] for non-negative [a] and [b] (the
    inferred dimension [-1] is not modelled). *)
Definition slice1 (l : list cell) (lo n : Z) : list cell :=
  firstn (Z.to_nat n) (skipn (Z.to_nat lo) l).

Definition reshape (l : list cell) (a b : Z) : result ndarray :=
  if (0 <=? a) && (0 <=? b) && (Z.of_nat (length l) =? a * b)
  then Ok (mkArr a b (fun i j => nth_cell l (i * b + j)))
  else Raise ValueError.

(** ** Process topology (the MPI calls of [setup_topology]) *)

(** [MPI.Compute_dims(size, [0, 0])]: the balanced factorisation of [size]
    in two factors, in non-increasing order. The second factor is the
    largest divisor of [size] whose square does not exceed [size]. *)
Definition Compute_dims (size : Z) : Z * Z :=
  let py := fold_left
              (fun best d => if (d * d <=? size) && (size mod d =? 0)
                             then d else best)
              (map (Z.add 1) (zseq size)) 1 in
  (size / py, py).

(** [cart_comm.Get_coords(rank)]: ranks are laid out in row-major order.
    The ranks of the Cartesian communicator are taken to be those of the
    communicator it was created from. *)
Definition Get_coords (dims : Z * Z) (rank : Z) : Z * Z :=
  (rank / snd dims, rank mod snd dims).

(** The rank at given coordinates, or [None] for [MPI.PROC_NULL] when the
    coordinates leave the (non-periodic) grid. *)
Definition cart_rank (dims coords : Z * Z) : option Z :=
  let '(px, py) := dims in
  let '(cx, cy) := coords in
  if (0 <=? cx) && (cx <? px) && (0 <=? cy) && (cy <? py)
  then Some (cx * py + cy) else None.

(** [cart_comm.Shift(direction, disp)]: the pair [(source, dest)], where
    [dest] is the process [disp] steps up along [direction] and [source]
    the one [disp] steps down. *)
Definition Shift (dims coords : Z * Z) (direction disp : Z) : option Z * option Z :=
  let '(cx, cy) := coords in
  if direction =? 0
  then (cart_rank dims (cx - disp, cy), cart_rank dims (cx + disp, cy))
  else (cart_rank dims (cx, cy - disp), cart_rank dims (cx, cy + disp)).

Record Neighbors : Type := mkNeighbors {
  north : option Z;
  south : option Z;
  west : option Z;
  east : option Z
}.

(** [n == MPI.PROC_NULL]. *)
Definition proc_null (n : option Z) : bool :=
  match n with
  | None => true
  | Some _ => false
  end.

(** ** Domain partitioner *)

(** The local size along one axis, as [setup_topology] computes it. *)
Definition local_size (n_global dim coord : Z) : Z :=
  let n_local := n_global / dim in
  if coord <? n_global mod dim then n_local + 1 else n_local.

(** The local size of process [p] along one axis, as
    [gather_global_solution] recomputes it. *)
Definition p_local_size (n_global dim p_coord : Z) : Z :=
  let p_n_local := n_global / dim in
  if p_coord <? n_global mod dim then p_n_local + 1 else p_n_local.

(** The first global index of process [p] along one axis
    ([i_start], [j_start] of [gather_global_solution]). *)
Definition start_index (n_global dim p_coord : Z) : Z :=
  let i_start := p_coord * (n_global / dim) in
  i_start + Z.min p_coord (n_global mod dim).

Definition zsum (l : list Z) : Z := fold_right Z.add 0 l.

(** ** Grid configuration *)

Record GridConfig : Type := mkGridConfig {
  nx_global : Z;
  ny_global : Z;
  nx_local : Z;
  ny_local : Z;
  dx : Q;
  dy : Q;
  dt : Q;
  coords : Z * Z;
  dims : Z * Z
}.

(** Float division. *)
Definition py_div (a b : Q) : result Q :=
  if Qeq_bool b 0 then Raise ZeroDivisionError else Ok (a / b)%Q.

(** [x ** 2]. *)
Definition sq (x : Q) : Q := (x ^ 2)%Q.

(** The stable time step [0.25 * min(dx**2, dy**2) / alpha]. *)
Definition time_step (alpha dx dy : Q) : result Q :=
  py_div ((1 # 4) * Qmin (sq dx) (sq dy))%Q alpha.

(** The stencil coefficient [alpha * dt / (d ** 2)]. *)
Definition stencil_coeff (alpha dt d : Q) : result Q :=
  py_div (alpha * dt)%Q (sq d).

(** The grid spacing [1.0 / (n_global - 1)]. *)
Definition spacing (n_global : Z) : result Q :=
  py_div 1 (inject_Z (n_global - 1)).

(** ** The solver object *)

Record HeatSolverMPI : Type := mkSolver {
  rank : Z;
  size : Z;
  neighbors : Neighbors;
  config : GridConfig;
  u : ndarray;
  u_new : ndarray
}.

Definition set_bufs (s : HeatSolverMPI) (a b : ndarray) : HeatSolverMPI :=
  mkSolver (rank s) (size s) (neighbors s) (config s) a b.

Definition set_u (s : HeatSolverMPI) (a : ndarray) : HeatSolverMPI :=
  set_bufs s a (u_new s).

(** [setup_topology]: the neighbour table and the grid configuration of
    the process [rank] among [size]. *)
Definition setup_topology (size rank nx_global ny_global : Z)
  : result (Neighbors * GridConfig) :=
  let dims := Compute_dims size in
  let coords := Get_coords dims rank in
  let neighbors :=
    mkNeighbors (fst (Shift dims coords 0 1))
                (snd (Shift dims coords 0 1))
                (fst (Shift dims coords 1 (-1)))
                (snd (Shift dims coords 1 1)) in
  let nx_local := local_size nx_global (fst dims) (fst coords) in
  let ny_local := local_size ny_global (snd dims) (snd coords) in
  dx <- spacing nx_global ;;
  dy <- spacing ny_global ;;
  dt <- time_step ALPHA dx dy ;;
  Ok (neighbors,
      mkGridConfig nx_global ny_global nx_local ny_local dx dy dt coords dims).

(** [apply_boundary_conditions]. *)
Definition apply_boundary_conditions (s : HeatSolverMPI) : result HeatSolverMPI :=
  s <- (if proc_null (north (neighbors s)) then
          a <- set_row (u s) 0 full (Scalar T_HOT) ;;
          b <- set_row (u_new s) 0 full (Scalar T_HOT) ;;
          Ok (set_bufs s a b)
        else Ok s) ;;
  s <- (if proc_null (south (neighbors s)) then
          a <- set_row (u s) (-1) full (Scalar T_COLD) ;;
          b <- set_row (u_new s) (-1) full (Scalar T_COLD) ;;
          Ok (set_bufs s a b)
        else Ok s) ;;
  s <- (if proc_null (west (neighbors s)) then
          a <- set_col (u s) full 0 (Scalar T_COLD) ;;
          b <- set_col (u_new s) full 0 (Scalar T_COLD) ;;
          Ok (set_bufs s a b)
        else Ok s) ;;
  if proc_null (east (neighbors s)) then
    a <- set_col (u s) full (-1) (Scalar T_COLD) ;;
    b <- set_col (u_new s) full (-1) (Scalar T_COLD) ;;
    Ok (set_bufs s a b)
  else Ok s.

(** [initialize_grid], on a solver whose buffers are still to be made. *)
Definition initialize_grid (rank size : Z) (nb : Neighbors) (cfg : GridConfig)
  : result HeatSolverMPI :=
  a <- np_full (nx_local cfg + 2) (ny_local cfg + 2) T_INITIAL ;;
  b <- np_full (nx_local cfg + 2) (ny_local cfg + 2) T_INITIAL ;;
  apply_boundary_conditions (mkSolver rank size nb cfg a b).

(** [HeatSolverMPI.__init__] on the process [rank] of a communicator of
    [size] processes. *)
Definition init (size rank nx_global ny_global : Z) : result HeatSolverMPI :=
  tc <- setup_topology size rank nx_global ny_global ;;
  initialize_grid rank size (fst tc) (snd tc).

(** All the processes of a run, by rank. *)
Definition world : Type := list HeatSolverMPI.

Definition init_world (size nx_global ny_global : Z) : result world :=
  mapM (fun r => init size r nx_global ny_global) (zseq size).

Definition proc (w : world) (r : Z) : option HeatSolverMPI :=
  if r <? 0 then None else nth_error w (Z.to_nat r).

(** ** Halo exchange *)

(** One [cart_comm.sendrecv(sendobj, dest, source)] executed by every
    process: the object each process receives. A process whose [source] is
    [MPI.PROC_NULL] receives [None]; otherwise it receives what its source
    sends it in this call, and blocks for ever when the source addresses
    somebody else (no other message of the program can match). *)
Definition received (w : world) (sent : list (list cell))
    (dest source : HeatSolverMPI -> option Z) (p : HeatSolverMPI) : result rhs1 :=
  match source p with
  | None => Ok PyNone
  | Some s =>
      match proc w s with
      | Some q =>
          match dest q with
          | Some d => if d =? rank p
                      then Ok (Vec (nth (Z.to_nat s) sent []))
                      else Raise Blocked
          | None => Raise Blocked
          end
      | None => Raise Blocked
      end
  end.

(** One line of [exchange_ghost_cells]:
    [store(u, sendrecv(sendobj(u), dest, source))] on every process. *)
Definition exchange_phase (w : world)
    (sendobj : ndarray -> result (list cell))
    (dest source : HeatSolverMPI -> option Z)
    (store : ndarray -> rhs1 -> result ndarray) : result world :=
  sent <- mapM (fun p => sendobj (u p)) w ;;
  mapM (fun p =>
          m <- received w sent dest source p ;;
          a <- store (u p) m ;;
          Ok (set_u p a)) w.

(** [exchange_ghost_cells], executed by every process. *)
Definition exchange_ghost_cells (w : world) : result world :=
  (* North-South *)
  w <- exchange_phase w
         (fun u => get_row u 1 inner)
         (fun p => north (neighbors p)) (fun p => south (neighbors p))
         (fun u m => set_row u (-1) inner m) ;;
  w <- exchange_phase w
         (fun u => get_row u (-2) inner)
         (fun p => south (neighbors p)) (fun p => north (neighbors p))
         (fun u m => set_row u 0 inner m) ;;
  (* East-West *)
  w <- exchange_phase w
         (fun u => get_col u inner 1)
         (fun p => west (neighbors p)) (fun p => east (neighbors p))
         (fun u m => set_col u inner (-1) m) ;;
  exchange_phase w
         (fun u => get_col u inner (-2))
         (fun p => east (neighbors p)) (fun p => west (neighbors p))
         (fun u m => set_col u inner 0 m).

(** ** Stencil *)

(** [apply_stencil]. *)
Definition apply_stencil (s : HeatSolverMPI) : result HeatSolverMPI :=
  rx <- stencil_coeff ALPHA (dt (config s)) (dx (config s)) ;;
  ry <- stencil_coeff ALPHA (dt (config s)) (dy (config s)) ;;
  let c := get_block (u s) inner inner in
  ax <- arr_sub (get_block (u s) upto_m2 inner) (arr_scale (Num 2) c) ;;
  ax <- arr_add ax (get_block (u s) from_2 inner) ;;
  ay <- arr_sub (get_block (u s) inner upto_m2) (arr_scale (Num 2) c) ;;
  ay <- arr_add ay (get_block (u s) inner from_2) ;;
  v <- arr_add c (arr_scale (Num rx) ax) ;;
  v <- arr_add v (arr_scale (Num ry) ay) ;;
  b <- set_block (u_new s) inner inner v ;;
  (* swap arrays *)
  let s := set_bufs s b (u s) in
  apply_boundary_conditions s.

(** ** Gather *)

(** The collective calls a process takes part in. *)
Inductive mpi_call : Type :=
| Call_gather
| Call_Gatherv.

(** One round of the reconstruction loop of [gather_global_solution]. *)
Definition place_block (cfg : GridConfig) (gathered_data : list cell)
    (sizes : list Z) (acc : ndarray * Z) (p : Z) : result (ndarray * Z) :=
  let '(global_solution, offset) := acc in
  let p_coords := Get_coords (dims cfg) p in
  let p_nx_local := p_local_size (nx_global cfg) (fst (dims cfg)) (fst p_coords) in
  let p_ny_local := p_local_size (ny_global cfg) (snd (dims cfg)) (snd p_coords) in
  let i_start := start_index (nx_global cfg) (fst (dims cfg)) (fst p_coords) in
  let j_start := start_index (ny_global cfg) (snd (dims cfg)) (snd p_coords) in
  let sz := nth (Z.to_nat p) sizes 0 in
  data <- reshape (slice1 gathered_data offset sz) p_nx_local p_ny_local ;;
  g <- set_block global_solution
         (Some i_start, Some (i_start + p_nx_local))
         (Some j_start, Some (j_start + p_ny_local)) data ;;
  Ok (g, offset + sz).

Fixpoint foldM {A B : Type} (f : A -> B -> result A) (l : list B) (a : A) : result A :=
  match l with
  | [] => Ok a
  | b :: l' => a' <- f a b ;; foldM f l' a'
  end.

(** [gather_global_solution] on the process [me] of the run [w]: what it
    returns ([None] for Python's [None]) and the collective calls made. *)
Definition gather_global_solution (w : world) (me : HeatSolverMPI)
  : result (option ndarray * list mpi_call) :=
  let local_solution := get_block (u me) inner inner in
  if size me =? 1 then Ok (Some local_solution, [])
  else
    let sizes := map (fun p => np_size (get_block (u p) inner inner)) w in
    if rank me =? 0 then
      let gathered_data :=
        concat (map (fun p => flatten (get_block (u p) inner inner)) w) in
      g0 <- np_zeros (nx_global (config me)) (ny_global (config me)) ;;
      r <- foldM (place_block (config me) gathered_data sizes)
                 (zseq (size me)) (g0, 0) ;;
      Ok (Some (fst r), [Call_gather; Call_Gatherv])
    else Ok (None, [Call_gather; Call_Gatherv]).

(** ** Max-reduction *)

(** The local maximum of [compute_max_error]. *)
Definition local_max (s : HeatSolverMPI) : result cell :=
  d <- arr_sub (get_block (u_new s) inner inner) (get_block (u s) inner inner) ;;
  np_max (np_abs d).

(** [MPI.MAX] on Python objects. *)
Definition op_MAX (x y : cell) : cell := if cgt y x then y else x.

(** The reduction of Python objects to rank 0, along a binomial tree: in
    round [k] (mask [2 ^ k]) a process that is still collecting receives
    the partial result of the process [2 ^ k] ranks above it, if there is
    one, and combines it as [op(result, tmp)]. [reduce_p2p op vals k r] is
    the partial result of rank [r] after [k] rounds. *)
Fixpoint reduce_p2p (op : cell -> cell -> cell) (vals : list cell)
    (rounds r : nat) : cell :=
  match rounds with
  | O => nth r vals NaN
  | S k =>
      let result := reduce_p2p op vals k r in
      let target := (r + 2 ^ k)%nat in
      if (target <? length vals)%nat
      then op result (reduce_p2p op vals k target)
      else result
  end.

(** [comm.allreduce(v, op)], once every process of the communicator has
    called it with its contribution: the rounds run while the mask is below
    the number of processes, and rank 0 sends its result to every
    process. *)
Definition allreduce (op : cell -> cell -> cell) (vals : list cell) : result cell :=
  match vals with
  | [] => Raise ValueError
  | _ :: _ => Ok (reduce_p2p op vals (Nat.log2_up (length vals)) 0)
  end.

(** What a process brings to the reduction. A process whose local maximum
    raises leaves [compute_max_error] before it calls [allreduce]: the
    others wait for its contribution for ever. *)
Definition contribution (p : HeatSolverMPI) : result cell :=
  match local_max p with
  | Ok v => Ok v
  | Raise _ => Raise Blocked
  end.

(** [compute_max_error] on the process [me] of the run [w]. The local
    maximum is computed first, and an exception it raises is raised on
    [me] only; then the contributions of all processes, that of [me] among
    them, are reduced. *)
Definition compute_max_error (w : world) (me : HeatSolverMPI) : result cell :=
  own <- local_max me ;;
  vals <- mapM contribution w ;;
  allreduce op_MAX vals.

(** ** Snapshot output *)

Local Open Scope string_scope.

Definition nl : string := String (ascii_of_nat 10) EmptyString.

(** [str(z)] for an integer. *)
Definition str_of_Z (z : Z) : string := NilZero.string_of_int (Z.to_int z).

(** [k] decimal digits of [n], most significant first. *)
Definition digit (d : Z) : ascii := ascii_of_nat (48 + Z.to_nat d)%nat.

Fixpoint fixed_digits (k : nat) (n : Z) : string :=
  match k with
  | O => EmptyString
  | S k' => String (digit ((n / 10 ^ Z.of_nat k') mod 10)%Z) (fixed_digits k' n)
  end.

(** [format(z, '05d')]: zero padding to five characters, sign included. *)
Fixpoint zeros (k : nat) : string :=
  match k with
  | O => EmptyString
  | S k' => String "0" (zeros k')
  end.

Definition format_05d (z : Z) : string :=
  let d := str_of_Z (Z.abs z) in
  if (z <? 0)%Z then String "-" (zeros (4 - String.length d)%nat ++ d)
  else zeros (5 - String.length d)%nat ++ d.

(** Rounding to the nearest integer, ties to even. *)
Definition round_half_even (x : Q) : Z :=
  let f := Qfloor x in
  match Qcompare (2 * (x - inject_Z f)) 1 with
  | Lt => f
  | Gt => (f + 1)%Z
  | Eq => if Z.even f then f else (f + 1)%Z
  end.

(** [save_solution] computes one float itself, the simulated time
    [timestep * dt], and prints it to six decimals: the text depends on
    how the product is rounded, so this operation is modelled with its
    rounding. *)

(** The exponent of the largest power of two that is not above a positive
    rational. *)
Definition Qlog2 (q : Q) : Z :=
  let k := (Z.log2 (Qnum q) - Z.log2 (Z.pos (Qden q)))%Z in
  if Qle_bool (2 ^ k) q then k else (k - 1)%Z.

(** Rounding to the nearest [float]: 53 significant bits, exponents from
    -1022 (subnormal numbers below), ties to even. Overflow to infinity is
    not modelled. *)
Definition round_float (q : Q) : Q :=
  if Qeq_bool q 0 then 0%Q
  else
    let e := Z.max (Qlog2 (Qabs q)) (-1022) in
    let ulp := (2 ^ (e - 52))%Q in
    let m := inject_Z (round_half_even (Qabs q / ulp)) in
    if Qle_bool 0 q then (m * ulp)%Q else (- (m * ulp))%Q.

(** The conversion of an integer to [float] (Python raises [OverflowError]
    for an integer beyond the largest float, which is not modelled) and the
    product of two floats. *)
Definition float_of_int (z : Z) : Q := round_float (inject_Z z).

Definition float_mul (x y : Q) : Q := round_float (x * y).

(** [format(c, '.6f')]. *)
Definition format_6f (c : cell) : string :=
  match c with
  | NaN => "nan"
  | Num q =>
      let n := round_half_even (Qabs q * 1000000) in
      (if Qle_bool 0 q then "" else "-")
        ++ str_of_Z (n / 1000000)%Z ++ "." ++ fixed_digits 6 (n mod 1000000)%Z
  end.

(** [a[i, j]]. *)
Definition get_item (a : ndarray) (i j : Z) : result cell :=
  i' <- py_index (shape0 a) i ;;
  j' <- py_index (shape1 a) j ;;
  Ok (item a i' j').

Fixpoint join (l : list string) : string :=
  match l with
  | [] => EmptyString
  | s :: l' => s ++ join l'
  end.

(** The text of one data row: the inner loop over [j] and the newline. *)
Definition row_text (cfg : GridConfig) (global_solution : ndarray) (i : Z)
  : result string :=
  cells <- mapM (fun j => c <- get_item global_solution i j ;;
                          Ok (format_6f c ++ " "))
                (zseq (ny_global cfg)) ;;
  Ok (join cells ++ nl).

(** The first header write, and the second and third. The time is the
    float [timestep * self.config.dt]. *)
Definition header1 (timestep : Z) : string :=
  "# Heat equation solution at timestep " ++ str_of_Z timestep ++ nl ++ " ".

Definition header2 (cfg : GridConfig) (timestep : Z) : string :=
  "# nx=" ++ str_of_Z (nx_global cfg) ++ " ny=" ++ str_of_Z (ny_global cfg) ++ " "
    ++ "time=" ++ format_6f (Num (float_mul (float_of_int timestep) (dt cfg))) ++ nl.

(** Everything [save_solution] writes to the file. *)
Definition snapshot_text (cfg : GridConfig) (timestep : Z)
    (global_solution : ndarray) : result string :=
  rows <- mapM (row_text cfg global_solution) (zseq (nx_global cfg)) ;;
  Ok (header1 timestep ++ header2 cfg timestep ++ join rows).

(** [save_solution] on the process [me]: the file written, as its name and
    its text, if any. *)
Definition save_solution (w : world) (me : HeatSolverMPI) (timestep : Z)
    (output_dir : string) : result (option (string * string)) :=
  r <- gather_global_solution w me ;;
  match fst r with
  | Some global_solution =>
      if (rank me =? 0)%Z then
        let filename :=
          output_dir ++ "/heat_solution_" ++ format_05d timestep ++ ".dat" in
        text <- snapshot_text (config me) timestep global_solution ;;
        Ok (Some (filename, text))
      else Ok None
  | None => Ok None
  end.

(** How a reader takes the file apart: lines end at a newline, and the
    values of a line are its maximal runs of non-blank characters. *)
Definition is_newline (c : ascii) : bool := Ascii.eqb c (ascii_of_nat 10).

Definition is_blank (c : ascii) : bool :=
  let n := nat_of_ascii c in
  Nat.eqb n 32 || (Nat.leb 9 n && Nat.leb n 13).

Fixpoint split_lines (cur : string) (s : string) : list string :=
  match s with
  | EmptyString => match cur with EmptyString => [] | _ => [cur] end
  | String c s' =>
      if is_newline c then cur :: split_lines EmptyString s'
      else split_lines (cur ++ String c EmptyString) s'
  end.

Definition lines (s : string) : list string := split_lines EmptyString s.

Fixpoint split_words (cur : string) (s : string) : list string :=
  match s with
  | EmptyString => match cur with EmptyString => [] | _ => [cur] end
  | String c s' =>
      if is_blank c
      then match cur with
           | EmptyString => split_words EmptyString s'
           | _ => cur :: split_words EmptyString s'
           end
      else split_words (cur ++ String c EmptyString) s'
  end.

Definition words (s : string) : list string := split_words EmptyString s.

Local Close Scope string_scope.

(** ** Notions used to state the properties *)

(** The cell [(i, j)] of a buffer of shape [(n, m)] after the boundary
    enforcement of a process with neighbour table [nb], given its value
    [old] before: the four sides are written in the order north, south,
    west, east, whole rows and columns, so the last write wins. *)
Definition enforced (nb : Neighbors) (n m i j : Z) (old : cell) : cell :=
  if proc_null (east nb) && (j =? m - 1) then T_COLD
  else if proc_null (west nb) && (j =? 0) then T_COLD
  else if proc_null (south nb) && (i =? n - 1) then T_COLD
  else if proc_null (north nb) && (i =? 0) then T_HOT
  else old.

(** One of the two buffers of a solver: [u], or [u_new] when [next]. *)
Definition buffer (next : bool) (s : HeatSolverMPI) : ndarray :=
  if next then u_new s else u s.

(** Interior cells and corner cells of a buffer of shape [(n, m)]. *)
Definition interior (n m i j : Z) : Prop := 1 <= i <= n - 2 /\ 1 <= j <= m - 2.

Definition corner (n m i j : Z) : Prop :=
  (i = 0 \/ i = n - 1) /\ (j = 0 \/ j = m - 1).

(** Two arrays with the same shape and the same items. *)
Definition same_array (a b : ndarray) : Prop :=
  shape0 a = shape0 b /\ shape1 a = shape1 b /\
  forall i j, 0 <= i < shape0 a -> 0 <= j < shape1 a -> item a i j = item b i j.

(** Two solver objects that differ at most in the representation of their
    buffers. *)
Definition same_solver (s t : HeatSolverMPI) : Prop :=
  rank s = rank t /\ size s = size t /\ neighbors s = neighbors t /\
  config s = config t /\ same_array (u s) (u t) /\ same_array (u_new s) (u_new t).

(** The buffers of a solver have the shape its configuration announces. *)
Definition shaped (s : HeatSolverMPI) : Prop :=
  shape0 (u s) = nx_local (config s) + 2 /\
  shape1 (u s) = ny_local (config s) + 2 /\
  shape0 (u_new s) = nx_local (config s) + 2 /\
  shape1 (u_new s) = ny_local (config s) + 2.

(** The update formula of the stencil integrator at the cell [(i, j)] of
    the buffer [a], with coefficients [rx] and [ry]. *)
Definition stencil_value (rx ry : Q) (a : ndarray) (i j : Z) : cell :=
  cadd (cadd (item a i j)
             (cmul (Num rx)
                   (cadd (csub (item a (i - 1) j) (cmul (Num 2) (item a i j)))
                         (item a (i + 1) j))))
       (cmul (Num ry)
             (cadd (csub (item a i (j - 1)) (cmul (Num 2) (item a i j)))
                   (item a i (j + 1)))).

(** The four halo segments of a buffer of shape [(n, m)]: the south and
    north rows and the east and west columns, corners excluded. *)
Definition south_halo (n m i j : Z) : bool :=
  (i =? n - 1) && (1 <=? j) && (j <? m - 1).

Definition north_halo (n m i j : Z) : bool :=
  (i =? 0) && (1 <=? j) && (j <? m - 1).

Definition east_halo (n m i j : Z) : bool :=
  (j =? m - 1) && (1 <=? i) && (i <? n - 1).

Definition west_halo (n m i j : Z) : bool :=
  (j =? 0) && (1 <=? i) && (i <? n - 1).

Definition halo_segment (n m i j : Z) : bool :=
  south_halo n m i j || north_halo n m i j
  || east_halo n m i j || west_halo n m i j.

(** [a'] is [a] with the cells selected by [seg] replaced by [val]. *)
Definition wrote (seg : Z -> Z -> bool) (val : Z -> Z -> cell)
    (a a' : ndarray) : Prop :=
  shape0 a' = shape0 a /\ shape1 a' = shape1 a /\
  forall i j, 0 <= i < shape0 a -> 0 <= j < shape1 a ->
    item a' i j = if seg i j then val i j else item a i j.

(** A store operation of the exchange writes the segment [seg] with
    values that depend on the message and the shape only. *)
Definition store_spec (store : ndarray -> rhs1 -> result ndarray)
    (seg : Z -> Z -> Z -> Z -> bool) : Prop :=
  forall a m a', store a m = Ok a' ->
    exists val,
      wrote (seg (shape0 a) (shape1 a)) val a a' /\
      forall b, shape0 b = shape0 a -> shape1 b = shape1 a ->
        exists b', store b m = Ok b' /\
                   wrote (seg (shape0 a) (shape1 a)) val b b'.

(** [p'] is [p] up to the cells of its current buffer selected by [sel]. *)
Definition kept (sel : Z -> Z -> Z -> Z -> bool) (p p' : HeatSolverMPI) : Prop :=
  rank p' = rank p /\ size p' = size p /\
  neighbors p' = neighbors p /\ config p' = config p /\
  u_new p' = u_new p /\
  shape0 (u p') = shape0 (u p) /\ shape1 (u p') = shape1 (u p) /\
  forall i j, 0 <= i < shape0 (u p) -> 0 <= j < shape1 (u p) ->
    sel (shape0 (u p)) (shape1 (u p)) i j = false ->
    item (u p') i j = item (u p) i j.

(** The same, rank by rank, for two runs. *)
Definition kept_w (sel : Z -> Z -> Z -> Z -> bool) (w w' : world) : Prop :=
  length w' = length w /\
  forall r p, nth_error w r = Some p ->
    exists p', nth_error w' r = Some p' /\ kept sel p p'.

(** Two runs whose processes are the same, rank by rank. *)
Definition same_w (w w' : world) : Prop :=
  length w = length w' /\
  forall r p, nth_error w r = Some p ->
    exists p', nth_error w' r = Some p' /\ same_solver p p'.

(** The cells the phases from the [k]-th on may write. *)
Definition seg4 : Z -> Z -> Z -> Z -> bool := west_halo.
Definition seg34 (n m i j : Z) : bool := east_halo n m i j || seg4 n m i j.
Definition seg234 (n m i j : Z) : bool := north_halo n m i j || seg34 n m i j.
Definition seg1234 (n m i j : Z) : bool := south_halo n m i j || seg234 n m i j.


(** A cell that holds a number. *)
Definition is_num (c : cell) : Prop := exists q, c = Num q.

(** The absolute change of the cell [(i, j)] between the two buffers. *)
Definition abs_diff (p : HeatSolverMPI) (i j : Z) : cell :=
  cabs (csub (item (u_new p) i j) (item (u p) i j)).

(** A binary operation that returns the larger of two numbers. *)
Definition picks_larger (f : cell -> cell -> cell) : Prop :=
  forall x y, exists z,
    f (Num x) (Num y) = Num z /\ (z = x \/ z = y) /\ (x <= z)%Q /\ (y <= z)%Q.


(** The decidable form of the conditions under which the max-reduction is
    studied: buffers of one shape, a non-empty interior, numbers in all
    interior cells. *)
Definition is_numb (c : cell) : bool :=
  match c with
  | Num _ => true
  | NaN => false
  end.

Definition numeric_ready (p : HeatSolverMPI) : bool :=
  (shape0 (u_new p) =? shape0 (u p)) && (shape1 (u_new p) =? shape1 (u p))
  && (3 <=? shape0 (u p)) && (3 <=? shape1 (u p))
  && forallb (fun i =>
       forallb (fun j => is_numb (item (u p) (i + 1) (j + 1))
                         && is_numb (item (u_new p) (i + 1) (j + 1)))
               (zseq (shape1 (u p) - 2)))
       (zseq (shape0 (u p) - 2)).

(** The run [w] is laid out for a gather: [px * py] processes in rank
    order, each with the global sizes and topology in its configuration and
    a current buffer of the shape the partition gives its coordinates. *)
Definition gather_ready (nx ny px py : Z) (w : world) : Prop :=
  0 <= nx /\ 0 <= ny /\ 1 <= px /\ 1 <= py /\
  Z.of_nat (length w) = px * py /\
  forall r p, proc w r = Some p ->
    rank p = r /\ size p = px * py /\
    nx_global (config p) = nx /\ ny_global (config p) = ny /\
    dims (config p) = (px, py) /\
    shape0 (u p) = local_size nx px (fst (Get_coords (px, py) r)) + 2 /\
    shape1 (u p) = local_size ny py (snd (Get_coords (px, py) r)) + 2.

(** The decidable form of [gather_ready]. *)
Definition gather_readyb (nx ny px py : Z) (w : world) : bool :=
  (0 <=? nx) && (0 <=? ny) && (1 <=? px) && (1 <=? py)
  && (Z.of_nat (length w) =? px * py)
  && forallb (fun r =>
       match proc w r with
       | Some p =>
           (rank p =? r) && (size p =? px * py)
           && (nx_global (config p) =? nx) && (ny_global (config p) =? ny)
           && (fst (dims (config p)) =? px) && (snd (dims (config p)) =? py)
           && (shape0 (u p)
               =? local_size nx px (fst (Get_coords (px, py) r)) + 2)
           && (shape1 (u p)
               =? local_size ny py (snd (Get_coords (px, py) r)) + 2)
       | None => false
       end) (zseq (px * py)).

(** No character of [s] satisfies [bad]. *)
Fixpoint clean (bad : ascii -> bool) (s : string) : bool :=
  match s with
  | EmptyString => true
  | String c s' => negb (bad c) && clean bad s'
  end.

(** The text of the data row [i] of [g] without its newline. *)
Definition row_body (g : ndarray) (ny i : Z) : string :=
  join (map (fun j => (format_6f (item g i j) ++ " ")%string) (zseq ny)).

(** ** The time loop *)

(** [a % b] on integers. *)
Definition py_mod (a b : Z) : result Z :=
  if b =? 0 then Raise ZeroDivisionError else Ok (a mod b).

(** A file written: its name and its text. *)
Definition file : Type := (string * string)%type.

(** The default value of the parameter [output_dir] of [save_solution]. *)
Definition default_output_dir : string := "/nfs/shared".

Fixpoint somes {A : Type} (l : list (option A)) : list A :=
  match l with
  | [] => []
  | Some a :: l' => a :: somes l'
  | None :: l' => somes l'
  end.

(** [self.save_solution(timestep)] executed by every process: the files
    written, in rank order. *)
Definition save_all (w : world) (timestep : Z) : result (list file) :=
  written <- mapM (fun me => save_solution w me timestep default_output_dir) w ;;
  Ok (somes written).

(** One round of the time evolution loop of [run], executed by every
    process: the run and the files written so far. *)
Definition run_step (save_interval : Z) (acc : world * list file) (step : Z)
  : result (world * list file) :=
  let '(w, files) := acc in
  w <- exchange_ghost_cells w ;;
  w <- mapM apply_stencil w ;;
  r <- py_mod step save_interval ;;
  if r =? 0 then
    saved <- save_all w step ;;
    Ok (w, files ++ saved)
  else Ok (w, files).

(** The figures of the performance summary of [run]: updates per second,
    time per step in milliseconds and GFLOPS. They are computed from the
    wall-clock time [elapsed] between the two calls of [MPI.Wtime]. *)
Definition performance (cfg : GridConfig) (n_steps : Z) (elapsed : Q)
  : result (Q * Q * Q) :=
  let grid_points := nx_global cfg * ny_global cfg in
  updates_per_sec <- py_div (inject_Z (grid_points * n_steps)) elapsed ;;
  time_per_step <- py_div (elapsed * 1000) (inject_Z n_steps) ;;
  Ok (updates_per_sec, time_per_step, (7 * updates_per_sec / 1000000000)%Q).

(** [run(n_steps, save_interval)], executed by every process: the final
    run, the files written and the performance figures of each process
    (those of rank 0 only). Printing is not modelled, but the expressions
    printed are evaluated. The processes advance together, and the result
    is the first exception one of them raises. *)
Definition run (w : world) (n_steps save_interval : Z) (elapsed : Q)
  : result (world * list file * list (option (Q * Q * Q))) :=
  saved <- save_all w 0 ;;
  r <- foldM (run_step save_interval) (map (Z.add 1) (zseq n_steps)) (w, saved) ;;
  summary <- mapM (fun p =>
                     if rank p =? 0 then
                       s <- performance (config p) n_steps elapsed ;;
                       Ok (Some s)
                     else Ok None) (fst r) ;;
  Ok (fst r, snd r, summary).

(** ** Further notions used to state properties *)

(** The name of the snapshot of a time step in the default directory. *)
Definition snapshot_name (timestep : Z) : string :=
  (default_output_dir ++ "/heat_solution_" ++ format_05d timestep ++ ".dat")%string.

(** The time steps [1 .. n_steps] at which [run] saves a snapshot. *)
Definition saved_steps (n_steps save_interval : Z) : list Z :=
  filter (fun step => step mod save_interval =? 0) (map (Z.add 1) (zseq n_steps)).

(** No neighbour on any side. *)
Definition alone : Neighbors := mkNeighbors None None None None.

(** The run [w] consists of the [np] processes of a run on a grid of
    [nx] x [ny] points, in rank order: each process has the neighbour table
    and the configuration that [setup_topology] gives its rank, and buffers
    of the configured shape. *)
Definition laid_out (np nx ny : Z) (w : world) : Prop :=
  Z.of_nat (length w) = np /\
  forall r p, proc w r = Some p ->
    rank p = r /\ size p = np /\ shaped p /\
    setup_topology np r nx ny = Ok (neighbors p, config p).

(** The number a string of decimal digits stands for. *)
Definition digits_value (s : string) : option Z :=
  option_map Z.of_uint (NilEmpty.uint_of_string s).






(** * Properties *)

(** ** The result monad *)

Lemma bind_Ok {A B : Type} (m : result A) (k : A -> result B) (b : B) :
  bind m k = Ok b -> exists a, m = Ok a /\ k a = Ok b.
Proof.
  destruct m as [a|e]; simpl; intros H; [eauto | discriminate].
Qed.

Ltac inv_bind H :=
  let a := fresh "x" in
  let Ha := fresh "E" in
  apply bind_Ok in H; destruct H as (a & Ha & H).

Lemma mapM_length {A B : Type} (f : A -> result B) (l : list A) (r : list B) :
  mapM f l = Ok r -> length r = length l.
Proof.
  revert r; induction l as [|a l IH]; simpl; intros r H.
  - inversion H; reflexivity.
  - inv_bind H. inv_bind H. inversion H; subst; simpl.
    f_equal; auto.
Qed.

Lemma mapM_nth_error {A B : Type} (f : A -> result B) (l : list A) (r : list B) :
  mapM f l = Ok r ->
  forall k a, nth_error l k = Some a ->
  exists b, nth_error r k = Some b /\ f a = Ok b.
Proof.
  revert r; induction l as [|a0 l IH]; simpl; intros r H k a Hk.
  - destruct k; discriminate.
  - inv_bind H. inv_bind H. inversion H; subst; clear H.
    destruct k as [|k]; simpl in *.
    + inversion Hk; subst; eauto.
    + eapply IH; eauto.
Qed.

Lemma mapM_Ok {A B : Type} (f : A -> result B) (g : A -> B) (l : list A) :
  (forall a, In a l -> f a = Ok (g a)) -> mapM f l = Ok (map g l).
Proof.
  induction l as [|a l IH]; simpl; intros H; [reflexivity|].
  rewrite (H a) by auto. simpl. rewrite IH by auto. reflexivity.
Qed.

(** ** Integer ranges *)

Lemma zseq_length n : Z.of_nat (length (zseq n)) = Z.max 0 n.
Proof. unfold zseq. rewrite length_map, length_seq. lia. Qed.

Lemma zseq_In n k : In k (zseq n) <-> 0 <= k < n.
Proof.
  unfold zseq. rewrite in_map_iff. split.
  - intros (x & <- & Hx). apply in_seq in Hx. lia.
  - intros H. exists (Z.to_nat k). split; [lia|]. apply in_seq. lia.
Qed.

Lemma zseq_succ n : 0 <= n -> zseq (n + 1) = zseq n ++ [n].
Proof.
  intros H. unfold zseq.
  replace (Z.to_nat (n + 1)) with (S (Z.to_nat n)) by lia.
  rewrite seq_S, map_app. simpl. f_equal. f_equal. lia.
Qed.

Lemma zseq_nth n k d : 0 <= k < n -> nth (Z.to_nat k) (zseq n) d = k.
Proof.
  intros H. unfold zseq.
  rewrite nth_indep with (d' := Z.of_nat 0) by (rewrite length_map, length_seq; lia).
  rewrite map_nth, seq_nth by lia. lia.
Qed.

(** ** The partition of an axis *)

Lemma zsum_app l1 l2 : zsum (l1 ++ l2) = zsum l1 + zsum l2.
Proof. induction l1 as [|a l1 IH]; simpl; lia. Qed.

Lemma start_index_step N P c :
  0 <= c -> start_index N P c + local_size N P c = start_index N P (c + 1).
Proof.
  intros Hc. unfold start_index, local_size. cbv zeta.
  generalize (N / P) (N mod P). intros q r.
  destruct (Z.ltb_spec c r); lia.
Qed.

Lemma local_size_prefix_sum N P (k : nat) :
  0 < P ->
  zsum (map (local_size N P) (zseq (Z.of_nat k))) = start_index N P (Z.of_nat k).
Proof.
  intros HP. induction k as [|k IH].
  - simpl. unfold start_index. cbv zeta.
    pose proof (Z.mod_pos_bound N P HP). lia.
  - replace (Z.of_nat (S k)) with (Z.of_nat k + 1) by lia.
    rewrite zseq_succ, map_app, zsum_app, IH by lia. simpl.
    rewrite <- start_index_step by lia. lia.
Qed.

Lemma start_index_total N P : 0 < P -> start_index N P P = N.
Proof.
  intros HP. unfold start_index. cbv zeta.
  pose proof (Z.mod_pos_bound N P HP).
  pose proof (Z.div_mod N P). lia.
Qed.

Lemma local_size_nonneg N P c : 0 <= N -> 0 < P -> 0 <= local_size N P c.
Proof.
  intros HN HP. unfold local_size. cbv zeta.
  pose proof (Z.div_pos N P HN HP).
  destruct (Z.ltb_spec c (N mod P)); lia.
Qed.

Lemma start_index_mono N P c c' :
  0 <= N -> 0 < P -> 0 <= c <= c' -> start_index N P c <= start_index N P c'.
Proof.
  intros HN HP Hc. unfold start_index. cbv zeta.
  pose proof (Z.div_pos N P HN HP).
  pose proof (Z.mod_pos_bound N P HP). nia.
Qed.

Lemma setup_topology_config size rank nx ny nb cfg :
  setup_topology size rank nx ny = Ok (nb, cfg) ->
  nx_global cfg = nx /\ ny_global cfg = ny /\
  dims cfg = Compute_dims size /\
  coords cfg = Get_coords (Compute_dims size) rank /\
  nx_local cfg = local_size nx (fst (dims cfg)) (fst (coords cfg)) /\
  ny_local cfg = local_size ny (snd (dims cfg)) (snd (coords cfg)).
Proof.
  unfold setup_topology. intros H.
  inv_bind H. inv_bind H. inv_bind H. inversion H; subst; simpl. tauto.
Qed.

(** C1. Along an axis of [N >= 1] cells split among [P >= 1] processes,
    the local sizes of the coordinates [0 .. P-1] add up to [N]; the block
    of a coordinate ends where the block of the next one starts; and the
    size [gather_global_solution] recomputes for a process is the size
    [setup_topology] stored for it, on both axes. *)
Theorem partition_tiles_axis :
  forall N P : Z, 1 <= N -> 1 <= P ->
    zsum (map (local_size N P) (zseq P)) = N /\
    (forall coord, 0 <= coord < P - 1 ->
       start_index N P coord + local_size N P coord
       = start_index N P (coord + 1)) /\
    (forall coord, p_local_size N P coord = local_size N P coord) /\
    (forall size rank M nb cfg,
       setup_topology size rank N M = Ok (nb, cfg) ->
       nx_local cfg
       = p_local_size (nx_global cfg) (fst (dims cfg))
                      (fst (Get_coords (dims cfg) rank)) /\
       ny_local cfg
       = p_local_size (ny_global cfg) (snd (dims cfg))
                      (snd (Get_coords (dims cfg) rank))).
Proof.
  intros N P HN HP. repeat split.
  - pose proof (local_size_prefix_sum N P (Z.to_nat P)) as E.
    rewrite Z2Nat.id in E by lia. rewrite E by lia.
    apply start_index_total; lia.
  - intros c Hc. apply start_index_step; lia.
  - apply setup_topology_config in H.
    destruct H as (Hn & _ & Hd & Hc & Hx & _).
    rewrite Hx, Hn, Hc, Hd. reflexivity.
  - apply setup_topology_config in H.
    destruct H as (_ & Hm & Hd & Hc & _ & Hy).
    rewrite Hy, Hm, Hc, Hd. reflexivity.
Qed.

Lemma partition_tiles_axis_witness :
  zsum (map (local_size 10 4) (zseq 4)) = 10 /\
  start_index 10 4 1 + local_size 10 4 1 = start_index 10 4 2.
Proof.
  destruct (partition_tiles_axis 10 4) as (Hs & Hc & _); [lia | lia |].
  split; [exact Hs | apply (Hc 1); lia].
Defined.

(** ** The time step *)

Lemma py_div_Ok (a b : Q) : ~ (b == 0)%Q -> py_div a b = Ok (a / b)%Q.
Proof.
  intros H. unfold py_div.
  destruct (Qeq_bool b 0) eqn:E; [|reflexivity].
  apply Qeq_bool_iff in E. contradiction.
Qed.

Lemma sq_mult (x : Q) : (sq x == x * x)%Q.
Proof. unfold sq. simpl. reflexivity. Qed.

Lemma sq_pos (x : Q) : (0 < x)%Q -> (0 < sq x)%Q.
Proof. intros H. rewrite sq_mult. nra. Qed.

Lemma spacing_pos (n : Z) :
  2 <= n -> exists d, spacing n = Ok d /\ (0 < d)%Q.
Proof.
  intros H. unfold spacing.
  assert (Hp : (0 < inject_Z (n - 1))%Q).
  { change 0%Q with (inject_Z 0). rewrite <- Zlt_Qlt. lia. }
  rewrite py_div_Ok by (intros E; rewrite E in Hp; discriminate Hp).
  eexists; split; [reflexivity|].
  apply Qlt_shift_div_l; [assumption|]. lra.
Qed.

Lemma coeff_bound (alpha a m : Q) :
  (0 < alpha)%Q -> (0 < a)%Q -> (0 <= m)%Q -> (m <= a)%Q ->
  (alpha * ((1 # 4) * m / alpha) / a <= 1 # 4)%Q.
Proof.
  intros Hal Ha Hm Hma.
  assert (E : (alpha * ((1 # 4) * m / alpha) / a == (1 # 4) * (m / a))%Q).
  { field. split; intros E; [rewrite E in Ha | rewrite E in Hal]; discriminate. }
  rewrite E.
  assert (Hd : (m / a <= 1)%Q) by (apply Qle_shift_div_r; [assumption | lra]).
  lra.
Qed.

(** C7. For grids of at least two points per axis and a positive
    diffusivity, the spacings, the time step and the two stencil
    coefficients are all defined, and the coefficients computed from the
    time step [0.25 * min(dx**2, dy**2) / alpha] obey [rx + ry <= 1/2]
    over the rationals. *)
Theorem time_step_stable :
  forall (alpha : Q) (nx ny : Z),
    2 <= nx -> 2 <= ny -> (0 < alpha)%Q ->
    exists dx dy dt rx ry,
      spacing nx = Ok dx /\ spacing ny = Ok dy /\
      time_step alpha dx dy = Ok dt /\
      stencil_coeff alpha dt dx = Ok rx /\
      stencil_coeff alpha dt dy = Ok ry /\
      (rx + ry <= 1 # 2)%Q.
Proof.
  intros alpha nx ny Hx Hy Hal.
  destruct (spacing_pos nx Hx) as (dx & Ex & Hdx).
  destruct (spacing_pos ny Hy) as (dy & Ey & Hdy).
  pose proof (sq_pos dx Hdx) as Ha. pose proof (sq_pos dy Hdy) as Hb.
  exists dx, dy, ((1 # 4) * Qmin (sq dx) (sq dy) / alpha)%Q.
  exists (alpha * ((1 # 4) * Qmin (sq dx) (sq dy) / alpha) / sq dx)%Q.
  exists (alpha * ((1 # 4) * Qmin (sq dx) (sq dy) / alpha) / sq dy)%Q.
  assert (Hne : forall x : Q, (0 < x)%Q -> ~ (x == 0)%Q).
  { intros x Hx0 E. rewrite E in Hx0. discriminate. }
  repeat split; try assumption.
  - unfold time_step. apply py_div_Ok. auto.
  - unfold stencil_coeff. apply py_div_Ok. auto.
  - unfold stencil_coeff. apply py_div_Ok. auto.
  - pose proof (Q.le_min_l (sq dx) (sq dy)) as Hl.
    pose proof (Q.le_min_r (sq dx) (sq dy)) as Hr.
    assert (Hm : (0 <= Qmin (sq dx) (sq dy))%Q).
    { apply Q.min_glb; lra. }
    pose proof (coeff_bound alpha (sq dx) _ Hal Ha Hm Hl).
    pose proof (coeff_bound alpha (sq dy) _ Hal Hb Hm Hr).
    lra.
Qed.

Lemma time_step_stable_witness :
  exists dx dy dt rx ry,
    spacing 256 = Ok dx /\ spacing 256 = Ok dy /\
    time_step ALPHA dx dy = Ok dt /\
    stencil_coeff ALPHA dt dx = Ok rx /\
    stencil_coeff ALPHA dt dy = Ok ry /\
    (rx + ry <= 1 # 2)%Q.
Proof.
  apply (time_step_stable ALPHA 256 256); [lia | lia | reflexivity].
Defined.

(** ** Indices and slices *)

Ltac zcase1 :=
  match goal with
  | |- context [Z.eqb ?a ?b] => destruct (Z.eqb_spec a b)
  | |- context [Z.leb ?a ?b] => destruct (Z.leb_spec a b)
  | |- context [Z.ltb ?a ?b] => destruct (Z.ltb_spec a b)
  | _ : context [Z.eqb ?a ?b] |- _ => destruct (Z.eqb_spec a b)
  | _ : context [Z.leb ?a ?b] |- _ => destruct (Z.leb_spec a b)
  | _ : context [Z.ltb ?a ?b] |- _ => destruct (Z.ltb_spec a b)
  end.

Ltac zcases :=
  repeat (zcase1; try (exfalso; lia); cbn [andb orb negb]);
  try reflexivity; try lia; try (exfalso; lia).

Lemma py_index_nonneg n k : 0 <= k < n -> py_index n k = Ok k.
Proof. intros H. unfold py_index. cbv zeta. zcases. Qed.

Lemma py_index_neg n k : - n <= k < 0 -> py_index n k = Ok (k + n).
Proof. intros H. unfold py_index. cbv zeta. zcases. Qed.

Lemma slice_lo_full n : slice_lo n full = 0.
Proof. reflexivity. Qed.

Lemma slice_hi_full n : slice_hi n full = n.
Proof. reflexivity. Qed.

Lemma slice_lo_inner n : slice_lo n inner = Z.min 1 n.
Proof. reflexivity. Qed.

Lemma slice_hi_inner n : slice_hi n inner = Z.max (-1 + n) 0.
Proof. reflexivity. Qed.

Lemma slice_lo_upto_m2 n : slice_lo n upto_m2 = 0.
Proof. reflexivity. Qed.

Lemma slice_hi_upto_m2 n : slice_hi n upto_m2 = Z.max (-2 + n) 0.
Proof. reflexivity. Qed.

Lemma slice_lo_from_2 n : slice_lo n from_2 = Z.min 2 n.
Proof. reflexivity. Qed.

Lemma slice_hi_from_2 n : slice_hi n from_2 = n.
Proof. reflexivity. Qed.

Ltac slices :=
  unfold in_slice, slice_len;
  rewrite ?slice_lo_full, ?slice_hi_full, ?slice_lo_inner, ?slice_hi_inner,
    ?slice_lo_upto_m2, ?slice_hi_upto_m2, ?slice_lo_from_2, ?slice_hi_from_2.

Lemma slice_len_inner n : 0 <= n -> slice_len n inner = Z.max 0 (n - 2).
Proof. intros H. slices. lia. Qed.

Lemma slice_len_upto_m2 n : 0 <= n -> slice_len n upto_m2 = Z.max 0 (n - 2).
Proof. intros H. slices. lia. Qed.

Lemma slice_len_from_2 n : 0 <= n -> slice_len n from_2 = Z.max 0 (n - 2).
Proof. intros H. slices. lia. Qed.

Lemma in_slice_full n j : in_slice n full j = (0 <=? j) && (j <? n).
Proof. slices. zcases. Qed.

Lemma in_slice_inner n j :
  0 <= n -> in_slice n inner j = (1 <=? j) && (j <? n - 1).
Proof. intros H. slices. zcases. Qed.

Lemma set_row_scalar a k s c r :
  py_index (shape0 a) k = Ok r ->
  set_row a k s (Scalar c)
  = Ok (mkArr (shape0 a) (shape1 a)
          (fun i j => if (i =? r) && in_slice (shape1 a) s j then c
                      else item a i j)).
Proof. intros H. unfold set_row. rewrite H. reflexivity. Qed.

Lemma set_col_scalar a k s c r :
  py_index (shape1 a) k = Ok r ->
  set_col a s k (Scalar c)
  = Ok (mkArr (shape0 a) (shape1 a)
          (fun i j => if (j =? r) && in_slice (shape0 a) s i then c
                      else item a i j)).
Proof. intros H. unfold set_col. rewrite H. reflexivity. Qed.

(** ** Boundary enforcement *)

Ltac index_ok :=
  solve [ apply py_index_nonneg; cbn [shape0 shape1]; lia
        | apply py_index_neg; cbn [shape0 shape1]; lia ].

Ltac run_writes :=
  repeat first
    [ erewrite set_row_scalar by index_ok
    | erewrite set_col_scalar by index_ok
    | progress cbn [bind set_bufs set_u u u_new neighbors config rank size
                    north south west east proc_null shape0 shape1] ].

(** What boundary enforcement does to every cell of both buffers. *)
Lemma enforcement_cells :
  forall s : HeatSolverMPI,
    1 <= shape0 (u s) -> 1 <= shape1 (u s) ->
    1 <= shape0 (u_new s) -> 1 <= shape1 (u_new s) ->
    exists s',
      apply_boundary_conditions s = Ok s' /\
      rank s' = rank s /\ size s' = size s /\
      neighbors s' = neighbors s /\ config s' = config s /\
      shape0 (u s') = shape0 (u s) /\ shape1 (u s') = shape1 (u s) /\
      shape0 (u_new s') = shape0 (u_new s) /\
      shape1 (u_new s') = shape1 (u_new s) /\
      (forall i j, 0 <= i < shape0 (u s) -> 0 <= j < shape1 (u s) ->
         item (u s') i j
         = enforced (neighbors s) (shape0 (u s)) (shape1 (u s)) i j
                    (item (u s) i j)) /\
      (forall i j, 0 <= i < shape0 (u_new s) -> 0 <= j < shape1 (u_new s) ->
         item (u_new s') i j
         = enforced (neighbors s) (shape0 (u_new s)) (shape1 (u_new s)) i j
                    (item (u_new s) i j)).
Proof.
  intros [rk sz [n so w e] cfg a b]; cbn [u u_new]; intros Ha0 Ha1 Hb0 Hb1.
  unfold apply_boundary_conditions.
  destruct n, so, w, e; run_writes;
    (eexists; split; [reflexivity|]);
    cbn [set_bufs rank size neighbors config u u_new shape0 shape1 item];
    repeat split; intros i j Hi Hj; unfold enforced;
    cbn [north south west east proc_null andb];
    rewrite ?in_slice_full; zcases.
Qed.

(** C4 (amended). On buffers that have their two halo rows and two halo
    columns, boundary enforcement succeeds, keeps everything but the two
    buffers and keeps their shapes. In either buffer, every cell holds the
    value given by the table [enforced]: on each side whose neighbour entry
    is [MPI.PROC_NULL] the whole halo row or column, corners included, is
    written with that side's value, the later side of north (hot), south,
    west, east (cold) winning at a shared corner. In particular every
    non-corner halo cell of such a side holds the side's value afterwards,
    every non-corner halo cell of a side with a neighbour is unchanged, and
    so is every interior cell. *)
Theorem boundary_conditions_cells :
  forall s : HeatSolverMPI,
    2 <= shape0 (u s) -> 2 <= shape1 (u s) ->
    2 <= shape0 (u_new s) -> 2 <= shape1 (u_new s) ->
    exists s',
      apply_boundary_conditions s = Ok s' /\
      rank s' = rank s /\ size s' = size s /\
      neighbors s' = neighbors s /\ config s' = config s /\
      forall next : bool,
        let a := buffer next s in
        let a' := buffer next s' in
        let n := shape0 a in
        let m := shape1 a in
        let nb := neighbors s in
        shape0 a' = n /\ shape1 a' = m /\
        (forall i j, 0 <= i < n -> 0 <= j < m ->
           item a' i j = enforced nb n m i j (item a i j)) /\
        (forall j, 1 <= j <= m - 2 ->
           item a' 0 j
           = if proc_null (north nb) then T_HOT else item a 0 j) /\
        (forall j, 1 <= j <= m - 2 ->
           item a' (n - 1) j
           = if proc_null (south nb) then T_COLD else item a (n - 1) j) /\
        (forall i, 1 <= i <= n - 2 ->
           item a' i 0
           = if proc_null (west nb) then T_COLD else item a i 0) /\
        (forall i, 1 <= i <= n - 2 ->
           item a' i (m - 1)
           = if proc_null (east nb) then T_COLD else item a i (m - 1)) /\
        (forall i j, interior n m i j -> item a' i j = item a i j).
Proof.
  intros s Ha0 Ha1 Hb0 Hb1.
  destruct (enforcement_cells s) as
    (s' & Hr & Hrk & Hsz & Hnb & Hcf & Sa0 & Sa1 & Sb0 & Sb1 & Ta & Tb);
    try lia.
  exists s'. do 5 (split; [assumption|]).
  intros next a a' n m nb.
  assert (Hn : 2 <= n) by (subst n a; destruct next; assumption).
  assert (Hm : 2 <= m) by (subst m a; destruct next; assumption).
  assert (S0 : shape0 a' = n) by (subst a' n a; destruct next; assumption).
  assert (S1 : shape1 a' = m) by (subst a' m a; destruct next; assumption).
  assert (T : forall i j, 0 <= i < n -> 0 <= j < m ->
            item a' i j = enforced nb n m i j (item a i j)).
  { subst a' n m a nb. destruct next; cbn [buffer]; assumption. }
  clearbody a a' n m nb. clear - Hn Hm S0 S1 T.
  split; [exact S0|]. split; [exact S1|]. split; [exact T|].
  unfold interior.
  repeat split; intros; rewrite T by lia; unfold enforced;
    destruct (proc_null (east nb)), (proc_null (west nb)),
             (proc_null (south nb)), (proc_null (north nb));
    cbn [andb]; zcases.
Qed.

Lemma boundary_conditions_cells_witness :
  exists s s',
    init 1 0 2 2 = Ok s /\ apply_boundary_conditions s = Ok s' /\
    item (u s') 0 1 = T_HOT /\ item (u s') 1 1 = item (u s) 1 1.
Proof.
  assert (Hs : exists s, init 1 0 2 2 = Ok s /\
               shape0 (u s) = 4 /\ shape1 (u s) = 4 /\
               shape0 (u_new s) = 4 /\ shape1 (u_new s) = 4 /\
               neighbors s = mkNeighbors None None None None).
  { eexists. split; [vm_compute; reflexivity|]. cbn. repeat split. }
  destruct Hs as (s & E & Hs).
  destruct Hs as (H0 & H1 & H2 & H3 & Hn).
  destruct (boundary_conditions_cells s) as (s' & Hr & _ & _ & _ & _ & Hb);
    try lia.
  destruct (Hb false) as (_ & _ & _ & Hnorth & _ & _ & _ & Hin).
  cbn [buffer] in Hnorth, Hin.
  exists s, s'. repeat split; try assumption.
  - rewrite Hnorth by lia. rewrite Hn. reflexivity.
  - apply Hin. unfold interior. lia.
Defined.

(** C4, as stated, fails at the corners. On the single process of a
    2 x 2 run the north side is a global edge whose value is [T_HOT], yet
    after enforcement its corner cell [(0, 0)] holds [T_COLD]. *)
Lemma boundary_corner_counterexample :
  exists s s',
    init 1 0 2 2 = Ok s /\ apply_boundary_conditions s = Ok s' /\
    proc_null (north (neighbors s')) = true /\
    item (u s') 0 0 = T_COLD /\ item (u s') 0 0 <> T_HOT.
Proof.
  eexists. eexists. split; [vm_compute; reflexivity|].
  split; [vm_compute; reflexivity|].
  repeat split. cbn. discriminate.
Qed.

(** ** The stencil update *)

Lemma arr_map2_Ok f a b :
  shape0 a = shape0 b -> shape1 a = shape1 b ->
  arr_map2 f a b
  = Ok (mkArr (shape0 a) (shape1 a) (fun i j => f (item a i j) (item b i j))).
Proof.
  intros H0 H1. unfold arr_map2. rewrite H0, H1, !Z.eqb_refl. reflexivity.
Qed.

Lemma set_block_Ok a s0 s1 v :
  shape0 v = slice_len (shape0 a) s0 ->
  shape1 v = slice_len (shape1 a) s1 ->
  set_block a s0 s1 v
  = Ok (mkArr (shape0 a) (shape1 a)
          (fun i j => if in_slice (shape0 a) s0 i && in_slice (shape1 a) s1 j
                      then item v (i - slice_lo (shape0 a) s0)
                                  (j - slice_lo (shape1 a) s1)
                      else item a i j)).
Proof.
  intros H0 H1. unfold set_block, broadcast2.
  rewrite H0, H1, !Z.eqb_refl. reflexivity.
Qed.


Lemma sq_nonzero (x : Q) : ~ (x == 0)%Q -> ~ (sq x == 0)%Q.
Proof.
  intros H E. rewrite sq_mult in E.
  apply Qmult_integral in E. tauto.
Qed.

Lemma enforced_interior nb n m i j c :
  1 <= i <= n - 2 -> 1 <= j <= m - 2 -> enforced nb n m i j c = c.
Proof.
  intros Hi Hj. unfold enforced.
  destruct (proc_null (east nb)), (proc_null (west nb)),
    (proc_null (south nb)), (proc_null (north nb)); cbn [andb]; zcases.
Qed.

Ltac shape_tac :=
  cbn [shape0 shape1 get_block arr_scale];
  rewrite ?slice_len_inner, ?slice_len_upto_m2, ?slice_len_from_2 by lia;
  lia.

Ltac cell_eq :=
  repeat match goal with
  | |- cadd _ _ = cadd _ _ => apply f_equal2
  | |- csub _ _ = csub _ _ => apply f_equal2
  | |- cmul _ _ = cmul _ _ => apply f_equal2
  | |- item ?a _ _ = item ?a _ _ => apply f_equal2; lia
  | |- Num _ = Num _ => reflexivity
  end.

(** What one call of [apply_stencil] does to the two buffers. *)
(** C3. On buffers of the configured shape, with non-zero spacings, the
    stencil update returns; every interior cell [(i, j)] of the new
    current buffer holds [cur[i,j] + rx*(cur[i-1,j] - 2*cur[i,j] +
    cur[i+1,j]) + ry*(cur[i,j-1] - 2*cur[i,j] + cur[i,j+1])] over the old
    current buffer, with [rx = ALPHA*dt/dx**2] and [ry = ALPHA*dt/dy**2];
    and the two buffers have changed roles without a copy: outside the
    interior the new current buffer is the old next buffer, and the new
    next buffer is the old current buffer, both up to the boundary
    enforcement that ends the step. *)
Theorem apply_stencil_interior :
  forall s : HeatSolverMPI,
    shaped s -> 0 <= nx_local (config s) -> 0 <= ny_local (config s) ->
    ~ (dx (config s) == 0)%Q -> ~ (dy (config s) == 0)%Q ->
    exists rx ry s',
      stencil_coeff ALPHA (dt (config s)) (dx (config s)) = Ok rx /\
      stencil_coeff ALPHA (dt (config s)) (dy (config s)) = Ok ry /\
      apply_stencil s = Ok s' /\
      rank s' = rank s /\ size s' = size s /\
      neighbors s' = neighbors s /\ config s' = config s /\ shaped s' /\
      (forall i j,
         1 <= i <= nx_local (config s) -> 1 <= j <= ny_local (config s) ->
         item (u s') i j = stencil_value rx ry (u s) i j) /\
      (forall i j,
         0 <= i < shape0 (u s) -> 0 <= j < shape1 (u s) ->
         ~ interior (shape0 (u s)) (shape1 (u s)) i j ->
         item (u s') i j
         = enforced (neighbors s) (shape0 (u s)) (shape1 (u s)) i j
                    (item (u_new s) i j)) /\
      (forall i j,
         0 <= i < shape0 (u s) -> 0 <= j < shape1 (u s) ->
         item (u_new s') i j
         = enforced (neighbors s) (shape0 (u s)) (shape1 (u s)) i j
                    (item (u s) i j)).
Proof.
  intros s (Hu0 & Hu1 & Hn0 & Hn1) Hx Hy Hdx Hdy.
  unfold apply_stencil, stencil_coeff.
  rewrite !py_div_Ok by (apply sq_nonzero; assumption).
  cbn [bind]. unfold arr_add, arr_sub.
  repeat (rewrite arr_map2_Ok by shape_tac; cbn [bind]).
  rewrite set_block_Ok by shape_tac. cbn [bind].
  match goal with |- context [apply_boundary_conditions ?t] =>
    destruct (enforcement_cells t) as
      (s' & Hr & Hrk & Hsz & Hnb & Hcf & Hs0 & Hs1 & Hs2 & Hs3 & Hcu & Hcn);
      [cbn; lia | cbn; lia | cbn; lia | cbn; lia |]
  end.
  cbn [set_bufs rank size neighbors config u u_new shape0 shape1] in *.
  do 2 eexists. exists s'.
  split; [reflexivity|]. split; [reflexivity|]. split; [exact Hr|].
  repeat split; try assumption; try (unfold shaped; rewrite Hcf; lia).
  - intros i j Hi Hj. rewrite Hcu by lia.
    rewrite enforced_interior by lia.
    cbn [item]. rewrite !in_slice_inner by lia.
    replace ((1 <=? i) && (i <? shape0 (u_new s) - 1)) with true by zcases.
    replace ((1 <=? j) && (j <? shape1 (u_new s) - 1)) with true by zcases.
    cbn [andb get_block arr_scale item shape0 shape1].
    slices. unfold stencil_value.
    cell_eq.
  - intros i j Hi Hj Hint. rewrite Hcu by lia.
    rewrite Hn0, Hn1, <- Hu0, <- Hu1. f_equal.
    cbn [item]. rewrite !in_slice_inner by lia.
    unfold interior in Hint. zcases.
Qed.


Lemma apply_stencil_interior_witness :
  exists s rx ry s',
    init 1 0 3 3 = Ok s /\
    stencil_coeff ALPHA (dt (config s)) (dx (config s)) = Ok rx /\
    stencil_coeff ALPHA (dt (config s)) (dy (config s)) = Ok ry /\
    apply_stencil s = Ok s' /\
    item (u s') 1 1 = stencil_value rx ry (u s) 1 1.
Proof.
  assert (Hs : exists s, init 1 0 3 3 = Ok s /\ shaped s /\
               nx_local (config s) = 3 /\ ny_local (config s) = 3 /\
               ~ (dx (config s) == 0)%Q /\ ~ (dy (config s) == 0)%Q).
  { eexists. split; [vm_compute; reflexivity|].
    cbn. repeat split; discriminate. }
  destruct Hs as (s & E & Hsh & Hx & Hy & Hdx & Hdy).
  destruct (apply_stencil_interior s) as
    (rx & ry & s' & Hrx & Hry & Hr & _ & _ & _ & _ & _ & Hi & _);
    try assumption; try lia.
  exists s, rx, ry, s'. repeat split; try assumption.
  apply Hi; lia.
Defined.

(** ** The halo exchange: one phase *)

Lemma mapM_exists {A B : Type} (f : A -> result B) (l : list A) :
  (forall a, In a l -> exists b, f a = Ok b) -> exists r, mapM f l = Ok r.
Proof.
  induction l as [|a l IH]; simpl; intros H; [eauto|].
  destruct (H a) as (b & Hb); auto. rewrite Hb. simpl.
  destruct IH as (r & Hr); auto. rewrite Hr. simpl. eauto.
Qed.

Lemma mapM_ext_nth {A B C : Type} (f : A -> result C) (g : B -> result C)
    (l : list A) (l' : list B) :
  length l = length l' ->
  (forall k a b, nth_error l k = Some a -> nth_error l' k = Some b -> f a = g b) ->
  mapM f l = mapM g l'.
Proof.
  revert l'; induction l as [|a l IH]; intros [|b l'] Hl H; simpl in *;
    try discriminate; [reflexivity|].
  rewrite (H O a b) by reflexivity.
  rewrite (IH l') by (auto; intros k; apply (H (S k))). reflexivity.
Qed.

Section Phase.

Variable sendobj : ndarray -> result (list cell).
Variables dest source : HeatSolverMPI -> option Z.
Variable store : ndarray -> rhs1 -> result ndarray.

Lemma phase_nth (w w' : world) :
  exchange_phase w sendobj dest source store = Ok w' ->
  exists sent,
    mapM (fun p => sendobj (u p)) w = Ok sent /\
    length w' = length w /\
    forall r p, nth_error w r = Some p ->
      exists m a,
        received w sent dest source p = Ok m /\
        store (u p) m = Ok a /\
        nth_error w' r = Some (set_u p a).
Proof.
  unfold exchange_phase. intros H. inv_bind H.
  exists x. split; [assumption|]. split; [eapply mapM_length; eauto|].
  intros r p Hp.
  destruct (mapM_nth_error _ _ _ H r p Hp) as (p' & Hp' & Hf).
  inv_bind Hf. inv_bind Hf. inversion Hf; subst. eauto.
Qed.

Lemma phase_build (v : world) (sent : list (list cell)) :
  mapM (fun p => sendobj (u p)) v = Ok sent ->
  (forall q, In q v ->
     exists m a, received v sent dest source q = Ok m /\ store (u q) m = Ok a) ->
  exists v', exchange_phase v sendobj dest source store = Ok v'.
Proof.
  intros Hs H. unfold exchange_phase. rewrite Hs. simpl.
  apply mapM_exists. intros q Hq.
  destruct (H q Hq) as (m & a & Hm & Ha). rewrite Hm. simpl.
  rewrite Ha. simpl. eauto.
Qed.

End Phase.

(** ** The halo exchange: the four stores *)

Lemma set_row_inv a k s v a' :
  set_row a k s v = Ok a' ->
  exists r f,
    py_index (shape0 a) k = Ok r /\
    broadcast1 (slice_len (shape1 a) s) v = Ok f /\
    a' = mkArr (shape0 a) (shape1 a)
           (fun i j => if (i =? r) && in_slice (shape1 a) s j
                       then f (j - slice_lo (shape1 a) s) else item a i j).
Proof.
  unfold set_row. intros H. inv_bind H. inv_bind H. inversion H. eauto.
Qed.

Lemma set_col_inv a k s v a' :
  set_col a s k v = Ok a' ->
  exists c f,
    py_index (shape1 a) k = Ok c /\
    broadcast1 (slice_len (shape0 a) s) v = Ok f /\
    a' = mkArr (shape0 a) (shape1 a)
           (fun i j => if (j =? c) && in_slice (shape0 a) s i
                       then f (i - slice_lo (shape0 a) s) else item a i j).
Proof.
  unfold set_col. intros H. inv_bind H. inv_bind H. inversion H. eauto.
Qed.

Lemma py_index_val n k r :
  py_index n k = Ok r -> r = (if k <? 0 then k + n else k).
Proof.
  unfold py_index. cbv zeta.
  generalize (if k <? 0 then k + n else k). intros z.
  destruct ((0 <=? z) && (z <? n)); intros H; [congruence | discriminate].
Qed.

Lemma py_index_m1 n r : py_index n (-1) = Ok r -> r = n - 1.
Proof.
  intros H. apply py_index_val in H. change (-1 <? 0) with true in H. cbv iota in H. lia.
Qed.

Lemma py_index_0 n r : py_index n 0 = Ok r -> r = 0.
Proof.
  intros H. apply py_index_val in H. change (0 <? 0) with false in H. cbv iota in H. lia.
Qed.

Lemma store_south : store_spec (fun u m => set_row u (-1) inner m) south_halo.
Proof.
  unfold store_spec.
  intros a m a' H.
  apply set_row_inv in H. destruct H as (r & f & Hr & Hf & ->).
  pose proof (py_index_m1 _ _ Hr) as ->.
  exists (fun i j => f (j - slice_lo (shape1 a) inner)).
  unfold wrote. split.
  - repeat split; cbn [shape0 shape1 item]; try reflexivity.
    intros i j Hi Hj.
    unfold south_halo. rewrite in_slice_inner by lia. zcases.
  - intros b Hb0 Hb1. eexists. split.
    + unfold set_row. rewrite Hb0, Hb1, Hr, Hf. reflexivity.
    + repeat split; cbn [shape0 shape1 item]; try congruence.
      intros i j Hi Hj. unfold south_halo. rewrite Hb0, Hb1 in *.
      rewrite in_slice_inner by lia. zcases.
Qed.

Lemma store_north : store_spec (fun u m => set_row u 0 inner m) north_halo.
Proof.
  unfold store_spec.
  intros a m a' H.
  apply set_row_inv in H. destruct H as (r & f & Hr & Hf & ->).
  pose proof (py_index_0 _ _ Hr) as ->.
  exists (fun i j => f (j - slice_lo (shape1 a) inner)).
  unfold wrote. split.
  - repeat split; cbn [shape0 shape1 item]; try reflexivity.
    intros i j Hi Hj.
    unfold north_halo. rewrite in_slice_inner by lia. zcases.
  - intros b Hb0 Hb1. eexists. split.
    + unfold set_row. rewrite Hb0, Hb1, Hr, Hf. reflexivity.
    + repeat split; cbn [shape0 shape1 item]; try congruence.
      intros i j Hi Hj. unfold north_halo. rewrite Hb0, Hb1 in *.
      rewrite in_slice_inner by lia. zcases.
Qed.

Lemma store_east : store_spec (fun u m => set_col u inner (-1) m) east_halo.
Proof.
  unfold store_spec.
  intros a m a' H.
  apply set_col_inv in H. destruct H as (r & f & Hr & Hf & ->).
  pose proof (py_index_m1 _ _ Hr) as ->.
  exists (fun i j => f (i - slice_lo (shape0 a) inner)).
  unfold wrote. split.
  - repeat split; cbn [shape0 shape1 item]; try reflexivity.
    intros i j Hi Hj.
    unfold east_halo. rewrite in_slice_inner by lia. zcases.
  - intros b Hb0 Hb1. eexists. split.
    + unfold set_col. rewrite Hb0, Hb1, Hr, Hf. reflexivity.
    + repeat split; cbn [shape0 shape1 item]; try congruence.
      intros i j Hi Hj. unfold east_halo. rewrite Hb0, Hb1 in *.
      rewrite in_slice_inner by lia. zcases.
Qed.

Lemma store_west : store_spec (fun u m => set_col u inner 0 m) west_halo.
Proof.
  unfold store_spec.
  intros a m a' H.
  apply set_col_inv in H. destruct H as (r & f & Hr & Hf & ->).
  pose proof (py_index_0 _ _ Hr) as ->.
  exists (fun i j => f (i - slice_lo (shape0 a) inner)).
  unfold wrote. split.
  - repeat split; cbn [shape0 shape1 item]; try reflexivity.
    intros i j Hi Hj.
    unfold west_halo. rewrite in_slice_inner by lia. zcases.
  - intros b Hb0 Hb1. eexists. split.
    + unfold set_col. rewrite Hb0, Hb1, Hr, Hf. reflexivity.
    + repeat split; cbn [shape0 shape1 item]; try congruence.
      intros i j Hi Hj. unfold west_halo. rewrite Hb0, Hb1 in *.
      rewrite in_slice_inner by lia. zcases.
Qed.


(** ** The halo exchange: what it leaves alone *)

Lemma kept_refl sel p : kept sel p p.
Proof. unfold kept. repeat split; reflexivity. Qed.

Lemma kept_trans s1 s2 p q r :
  kept s1 p q -> kept s2 q r ->
  kept (fun n m i j => s1 n m i j || s2 n m i j) p r.
Proof.
  unfold kept.
  intros (A1 & A2 & A3 & A4 & A5 & A6 & A7 & A8)
         (B1 & B2 & B3 & B4 & B5 & B6 & B7 & B8).
  repeat split; try congruence.
  intros i j Hi Hj Hh. apply orb_false_elim in Hh. destruct Hh as (H1 & H2).
  rewrite B8, A8; try assumption; try congruence.
  all: rewrite ?A6, ?A7; assumption.
Qed.

Lemma kept_weaken (s1 s2 : Z -> Z -> Z -> Z -> bool) p q :
  (forall n m i j, s1 n m i j = true -> s2 n m i j = true) ->
  kept s1 p q -> kept s2 p q.
Proof.
  unfold kept. intros Hs (A1 & A2 & A3 & A4 & A5 & A6 & A7 & A8).
  repeat split; try assumption.
  intros i j Hi Hj Hh. apply A8; try assumption.
  destruct (s1 (shape0 (u p)) (shape1 (u p)) i j) eqn:E; [|reflexivity].
  apply Hs in E. congruence.
Qed.

Lemma kept_w_refl sel w : kept_w sel w w.
Proof. split; [reflexivity|]. intros r p Hp. eauto using kept_refl. Qed.

Lemma kept_w_trans s1 s2 (a b c : world) :
  kept_w s1 a b -> kept_w s2 b c ->
  kept_w (fun n m i j => s1 n m i j || s2 n m i j) a c.
Proof.
  intros (L1 & H1) (L2 & H2). split; [congruence|]. intros r p Hp.
  destruct (H1 r p Hp) as (q & Hq & K1).
  destruct (H2 r q Hq) as (t & Ht & K2).
  exists t. split; [assumption|]. eapply kept_trans; eauto.
Qed.

Lemma kept_w_weaken (s1 s2 : Z -> Z -> Z -> Z -> bool) (a b : world) :
  (forall n m i j, s1 n m i j = true -> s2 n m i j = true) ->
  kept_w s1 a b -> kept_w s2 a b.
Proof.
  intros Hs (L & H). split; [assumption|]. intros r p Hp.
  destruct (H r p Hp) as (q & Hq & K). eauto using kept_weaken.
Qed.

Lemma phase_kept sendobj dest source store seg (w w' : world) :
  store_spec store seg ->
  exchange_phase w sendobj dest source store = Ok w' ->
  kept_w seg w w'.
Proof.
  intros Hst H.
  apply phase_nth in H. destruct H as (sent & _ & Hl & H).
  split; [assumption|]. intros r p Hp.
  destruct (H r p Hp) as (m & a & _ & Ha & Hp').
  exists (set_u p a). split; [assumption|].
  destruct (Hst _ _ _ Ha) as (val & (W0 & W1 & W) & _).
  unfold kept, set_u, set_bufs. cbn [rank size neighbors config u u_new].
  repeat split; try assumption.
  intros i j Hi Hj Hh. rewrite W by assumption. rewrite Hh. reflexivity.
Qed.

Lemma seg1234_halo n m i j :
  seg1234 n m i j = true -> halo_segment n m i j = true.
Proof.
  unfold seg1234, seg234, seg34, seg4, halo_segment.
  destruct (south_halo n m i j), (north_halo n m i j),
    (east_halo n m i j), (west_halo n m i j); cbn; congruence.
Qed.

(** The four phases of a completed exchange, with what is kept from each
    intermediate run to the final one. *)
Lemma exchange_phases (w w' : world) :
  exchange_ghost_cells w = Ok w' ->
  exists w1 w2 w3,
    exchange_phase w (fun u => get_row u 1 inner)
      (fun p => north (neighbors p)) (fun p => south (neighbors p))
      (fun u m => set_row u (-1) inner m) = Ok w1 /\
    exchange_phase w1 (fun u => get_row u (-2) inner)
      (fun p => south (neighbors p)) (fun p => north (neighbors p))
      (fun u m => set_row u 0 inner m) = Ok w2 /\
    exchange_phase w2 (fun u => get_col u inner 1)
      (fun p => west (neighbors p)) (fun p => east (neighbors p))
      (fun u m => set_col u inner (-1) m) = Ok w3 /\
    exchange_phase w3 (fun u => get_col u inner (-2))
      (fun p => east (neighbors p)) (fun p => west (neighbors p))
      (fun u m => set_col u inner 0 m) = Ok w' /\
    kept_w seg1234 w w' /\ kept_w seg234 w1 w' /\
    kept_w seg34 w2 w' /\ kept_w seg4 w3 w'.
Proof.
  unfold exchange_ghost_cells. intros H.
  inv_bind H. inv_bind H. inv_bind H.
  pose proof (phase_kept _ _ _ _ _ _ _ store_south E) as K1.
  pose proof (phase_kept _ _ _ _ _ _ _ store_north E0) as K2.
  pose proof (phase_kept _ _ _ _ _ _ _ store_east E1) as K3.
  pose proof (phase_kept _ _ _ _ _ _ _ store_west H) as K4.
  pose proof (kept_w_trans _ _ _ _ _ K3 K4) as K34.
  pose proof (kept_w_trans _ _ _ _ _ K2 K34) as K234.
  pose proof (kept_w_trans _ _ _ _ _ K1 K234) as K1234.
  exists x, x0, x1.
  split; [exact E|]. split; [exact E0|]. split; [exact E1|].
  split; [exact H|]. split; [exact K1234|]. split; [exact K234|].
  split; [exact K34 | exact K4].
Qed.

(** Every process comes out of the exchange changed at most in the halo
    segments of its current buffer. *)
Lemma exchange_halo_only (w w' : world) :
  exchange_ghost_cells w = Ok w' -> kept_w halo_segment w w'.
Proof.
  intros H. apply exchange_phases in H.
  destruct H as (w1 & w2 & w3 & _ & _ & _ & _ & K & _).
  eapply kept_w_weaken; [|exact K]. exact seg1234_halo.
Qed.

Lemma interior_not_halo n m i j :
  interior n m i j -> halo_segment n m i j = false.
Proof.
  unfold interior, halo_segment, south_halo, north_halo, east_halo, west_halo.
  intros H. zcases.
Qed.

Lemma corner_not_halo n m i j :
  corner n m i j -> halo_segment n m i j = false.
Proof.
  unfold corner, halo_segment, south_halo, north_halo, east_halo, west_halo.
  intros H. zcases.
Qed.

Lemma proc_nth_error (w : world) r p :
  proc w r = Some p <-> 0 <= r /\ nth_error w (Z.to_nat r) = Some p.
Proof.
  unfold proc. destruct (Z.ltb_spec r 0); split.
  - discriminate.
  - intros (Hr & _). lia.
  - intros H'. split; [lia | assumption].
  - intros (_ & H'). assumption.
Qed.

(** C10. When the exchange returns, every process keeps its rank, size,
    neighbour table and configuration, its next buffer is untouched, its
    current buffer keeps its shape, and every cell of the current buffer
    outside the four non-corner halo segments keeps its value; so do, in
    particular, all interior cells and the four corner cells. *)
Theorem exchange_writes_halo_only :
  forall w w' : world,
    exchange_ghost_cells w = Ok w' ->
    length w' = length w /\
    forall r p, proc w r = Some p ->
      exists p',
        proc w' r = Some p' /\
        rank p' = rank p /\ size p' = size p /\
        neighbors p' = neighbors p /\ config p' = config p /\
        u_new p' = u_new p /\
        shape0 (u p') = shape0 (u p) /\ shape1 (u p') = shape1 (u p) /\
        (forall i j, 0 <= i < shape0 (u p) -> 0 <= j < shape1 (u p) ->
           halo_segment (shape0 (u p)) (shape1 (u p)) i j = false ->
           item (u p') i j = item (u p) i j) /\
        (forall i j, interior (shape0 (u p)) (shape1 (u p)) i j ->
           item (u p') i j = item (u p) i j) /\
        (forall i j, 0 <= i < shape0 (u p) -> 0 <= j < shape1 (u p) ->
           corner (shape0 (u p)) (shape1 (u p)) i j ->
           item (u p') i j = item (u p) i j).
Proof.
  intros w w' H. apply exchange_halo_only in H. destruct H as (Hl & H).
  split; [assumption|]. intros r p Hp.
  apply proc_nth_error in Hp. destruct Hp as (Hr & Hp).
  destruct (H _ _ Hp) as (p' & Hp' & A1 & A2 & A3 & A4 & A5 & A6 & A7 & A8).
  exists p'. split; [apply proc_nth_error; auto|].
  repeat split; try assumption.
  - intros i j Hi. apply A8; [unfold interior in Hi; lia ..|].
    apply interior_not_halo; assumption.
  - intros i j Hi Hj Hc. apply A8; try assumption.
    apply corner_not_halo; assumption.
Qed.

Lemma exchange_writes_halo_only_witness :
  exists w w' p p',
    init_world 2 3 3 = Ok w /\ exchange_ghost_cells w = Ok w' /\
    proc w 1 = Some p /\ proc w' 1 = Some p' /\
    item (u p') 1 1 = item (u p) 1 1 /\ item (u p') 0 0 = item (u p) 0 0.
Proof.
  assert (E : exists w w' p,
             init_world 2 3 3 = Ok w /\ exchange_ghost_cells w = Ok w' /\
             proc w 1 = Some p /\ shape0 (u p) = 3 /\ shape1 (u p) = 5).
  { do 3 eexists. split; [vm_compute; reflexivity|].
    split; [vm_compute; reflexivity|].
    split; [vm_compute; reflexivity|]. split; reflexivity. }
  destruct E as (w & w' & p & Hw & Hx & Hp & H0 & H1).
  destruct (exchange_writes_halo_only w w' Hx) as (_ & H).
  destruct (H 1 p Hp) as (p' & Hp' & _ & _ & _ & _ & _ & _ & _ & _ & Hi & Hc).
  exists w, w', p, p'. repeat split; try assumption.
  - apply Hi. unfold interior. lia.
  - apply Hc; unfold corner; lia.
Defined.

(** ** The halo exchange run twice *)

Lemma same_solver_refl s : same_solver s s.
Proof. unfold same_solver. repeat split; auto. Qed.

Lemma same_w_refl w : same_w w w.
Proof. split; [reflexivity|]. intros r p Hp. eauto using same_solver_refl. Qed.

Lemma nth_error_same_length {A B : Type} (l : list A) (l' : list B) k a :
  length l = length l' -> nth_error l k = Some a ->
  exists b, nth_error l' k = Some b.
Proof.
  intros Hl Hk.
  destruct (nth_error l' k) eqn:E; [eauto|].
  apply nth_error_None in E.
  assert (k < length l)%nat by (apply nth_error_Some; congruence). lia.
Qed.

Lemma kept_w_shapes sel (a b : world) :
  kept_w sel a b ->
  (forall p, In p a -> 3 <= shape0 (u p) /\ 3 <= shape1 (u p)) ->
  forall q, In q b -> 3 <= shape0 (u q) /\ 3 <= shape1 (u q).
Proof.
  intros (Hl & H) Ha q Hq.
  apply In_nth_error in Hq. destruct Hq as (k & Hk).
  destruct (nth_error_same_length b a k q Hl Hk) as (p & Hp).
  destruct (H k p Hp) as (q' & Hq' & K).
  assert (q' = q) by congruence. subst q'.
  destruct K as (_ & _ & _ & _ & _ & S0 & S1 & _).
  destruct (Ha p (nth_error_In _ _ Hp)). lia.
Qed.

Section Rerun.

Variable sendobj : ndarray -> result (list cell).
Variables dest source : HeatSolverMPI -> option Z.
Variable store : ndarray -> rhs1 -> result ndarray.
Variable seg : Z -> Z -> Z -> Z -> bool.

Hypothesis Hstore : store_spec store seg.
Hypothesis Hdest : forall p q, neighbors q = neighbors p -> dest q = dest p.
Hypothesis Hsource : forall p q, neighbors q = neighbors p -> source q = source p.
Hypothesis Hsend :
  forall a b, 3 <= shape0 a -> 3 <= shape1 a ->
    shape0 b = shape0 a -> shape1 b = shape1 a ->
    (forall i j, interior (shape0 a) (shape1 a) i j -> item b i j = item a i j) ->
    sendobj b = sendobj a.

Lemma received_congr (W V : world) sent p q :
  length V = length W ->
  (forall r p1 q1, nth_error W r = Some p1 -> nth_error V r = Some q1 ->
     neighbors q1 = neighbors p1) ->
  neighbors q = neighbors p -> rank q = rank p ->
  received V sent dest source q = received W sent dest source p.
Proof.
  intros Hl Hn Hnq Hrq. unfold received.
  rewrite (Hsource p q Hnq). destruct (source p) as [s|]; [|reflexivity].
  unfold proc. destruct (s <? 0); [reflexivity|].
  destruct (nth_error W (Z.to_nat s)) as [p1|] eqn:EW.
  - destruct (nth_error_same_length W V _ p1 (eq_sym Hl) EW) as (q1 & EV).
    rewrite EV. rewrite (Hdest p1 q1 (Hn _ _ _ EW EV)), Hrq. reflexivity.
  - destruct (nth_error V (Z.to_nat s)) as [q1|] eqn:EV; [|reflexivity].
    destruct (nth_error_same_length V W _ q1 Hl EV) as (p1 & EW').
    congruence.
Qed.

Lemma phase_rerun (W W' V X : world) (selA selB : Z -> Z -> Z -> Z -> bool) :
  exchange_phase W sendobj dest source store = Ok W' ->
  (forall p, In p W -> 3 <= shape0 (u p) /\ 3 <= shape1 (u p)) ->
  same_w V X -> kept_w selA W X -> kept_w selB W' X ->
  (forall n m i j, selA n m i j = true -> halo_segment n m i j = true) ->
  (forall n m i j, 2 <= n -> 2 <= m -> seg n m i j = true -> selB n m i j = false) ->
  exists V', exchange_phase V sendobj dest source store = Ok V' /\ same_w V' X.
Proof.
  intros H1 Hsh (LV & HV) (LX & HA) (LX' & HB) HselA HselB.
  destruct (phase_nth _ _ _ _ _ _ H1) as (sent & Hsent & HlW' & Hstep).
  assert (LVW : length V = length W) by congruence.
  (* corresponding processes of W and V *)
  assert (T : forall r p q, nth_error W r = Some p -> nth_error V r = Some q ->
            neighbors q = neighbors p /\ rank q = rank p /\
            shape0 (u q) = shape0 (u p) /\ shape1 (u q) = shape1 (u p) /\
            forall i j, interior (shape0 (u p)) (shape1 (u p)) i j ->
              item (u q) i j = item (u p) i j).
  { intros r p q Hp Hq.
    destruct (HA r p Hp) as (x & Hx & K).
    destruct (HV r q Hq) as (x' & Hx' & S).
    assert (x' = x) by congruence. subst x'.
    destruct K as (K1 & K2 & K3 & K4 & K5 & K6 & K7 & K8).
    destruct S as (S1 & S2 & S3 & S4 & (S5 & S6 & S7) & _).
    repeat split; try congruence.
    intros i j Hi. pose proof Hi as Hi'. unfold interior in Hi'.
    rewrite S7 by lia. apply K8; try lia.
    destruct (selA (shape0 (u p)) (shape1 (u p)) i j) eqn:E; [|reflexivity].
    apply HselA in E. rewrite interior_not_halo in E by assumption.
    discriminate. }
  assert (HsV : mapM (fun p => sendobj (u p)) V = Ok sent).
  { rewrite <- Hsent. apply mapM_ext_nth; [assumption|].
    intros k q p Hq Hp.
    destruct (T k p q Hp Hq) as (_ & _ & T0 & T1 & Ti).
    destruct (Hsh p (nth_error_In _ _ Hp)). apply Hsend; assumption. }
  (* the stores of the second run *)
  assert (Hq : forall r q, nth_error V r = Some q ->
            exists p m a val b,
              nth_error W r = Some p /\
              received V sent dest source q = Ok m /\
              store (u p) m = Ok a /\ nth_error W' r = Some (set_u p a) /\
              wrote (seg (shape0 (u p)) (shape1 (u p))) val (u p) a /\
              store (u q) m = Ok b /\
              wrote (seg (shape0 (u p)) (shape1 (u p))) val (u q) b).
  { intros r q Hq.
    destruct (nth_error_same_length V W r q LVW Hq) as (p & Hp).
    destruct (Hstep r p Hp) as (m & a & Hm & Ha & Hp').
    destruct (T r p q Hp Hq) as (Tn & Tr & T0 & T1 & _).
    destruct (Hstore _ _ _ Ha) as (val & Wa & Hb).
    destruct (Hb (u q) T0 T1) as (b & Hb1 & Hb2).
    exists p, m, a, val, b.
    split; [exact Hp|]. split.
    { rewrite <- Hm. apply received_congr; try assumption.
      intros r1 p1 q1 Hp1 Hq1. apply (T r1 p1 q1 Hp1 Hq1). }
    split; [exact Ha|]. split; [exact Hp'|]. split; [exact Wa|].
    split; [exact Hb1 | exact Hb2]. }
  destruct (phase_build sendobj dest source store V sent HsV) as (V' & HV').
  { intros q Hin. apply In_nth_error in Hin. destruct Hin as (r & Hr).
    destruct (Hq r q Hr) as (p & m & a & val & b & _ & Hm & _ & _ & _ & Hb & _).
    eauto. }
  exists V'. split; [assumption|].
  destruct (phase_nth _ _ _ _ _ _ HV') as (sent' & Hsent' & HlV' & Hstep').
  assert (sent' = sent) by congruence. subst sent'.
  split; [congruence|]. intros r q' Hq'.
  destruct (nth_error_same_length V' V r q' HlV' Hq') as (q & Hqr).
  destruct (Hq r q Hqr) as
    (p & m & a & val & b & Hp & Hm & Ha & Hp' & Wa & Hb & Wb).
  destruct (Hstep' r q Hqr) as (m' & b' & Hm' & Hb' & Hq'').
  assert (m' = m) by congruence. subst m'.
  assert (b' = b) by congruence. subst b'.
  assert (q' = set_u q b) by congruence. subst q'.
  destruct (HV r q Hqr) as (x & Hx & S).
  destruct (HB r _ Hp') as (x' & Hx' & K).
  assert (x' = x) by congruence. subst x'.
  destruct (T r p q Hp Hqr) as (_ & _ & T0 & T1 & _).
  destruct (Hsh p (nth_error_In _ _ Hp)) as (Hs0 & Hs1).
  exists x. split; [assumption|].
  destruct S as (S1 & S2 & S3 & S4 & (S5 & S6 & S7) & S8).
  destruct K as (_ & _ & _ & _ & _ & K6 & K7 & K8).
  destruct Wa as (Wa0 & Wa1 & Wa).
  destruct Wb as (Wb0 & Wb1 & Wb).
  unfold set_u, set_bufs in *. cbn [rank size neighbors config u u_new] in *.
  unfold same_solver. cbn [rank size neighbors config u u_new].
  repeat split; try assumption; try congruence.
  intros i j Hi Hj. rewrite Wb0 in Hi. rewrite Wb1 in Hj.
  rewrite Wb by assumption.
  destruct (seg (shape0 (u p)) (shape1 (u p)) i j) eqn:E.
  - rewrite K8; try lia.
    + rewrite Wa by lia. rewrite E. reflexivity.
    + rewrite Wa0, Wa1. apply HselB; [lia | lia | assumption].
  - apply S7; assumption.
  - apply S8.
  - apply S8.
  - apply S8.
Qed.

End Rerun.

Lemma map_zseq_ext {A : Type} (f g : Z -> A) n :
  (forall d, 0 <= d < n -> f d = g d) -> map f (zseq n) = map g (zseq n).
Proof. intros H. apply map_ext_in. intros d Hd. apply H, zseq_In, Hd. Qed.

Ltac send_tac :=
  intros a b Ha0 Ha1 Hb0 Hb1 Hi;
  unfold get_row, get_col; rewrite Hb0, Hb1;
  first [ rewrite py_index_nonneg by lia | rewrite py_index_neg by lia ];
  cbn [bind]; f_equal;
  apply map_zseq_ext; intros d Hd;
  rewrite slice_len_inner in Hd by lia; rewrite slice_lo_inner;
  apply Hi; unfold interior; lia.

Lemma send_row_1 :
  forall a b, 3 <= shape0 a -> 3 <= shape1 a ->
    shape0 b = shape0 a -> shape1 b = shape1 a ->
    (forall i j, interior (shape0 a) (shape1 a) i j -> item b i j = item a i j) ->
    get_row b 1 inner = get_row a 1 inner.
Proof. send_tac. Qed.

Lemma send_row_m2 :
  forall a b, 3 <= shape0 a -> 3 <= shape1 a ->
    shape0 b = shape0 a -> shape1 b = shape1 a ->
    (forall i j, interior (shape0 a) (shape1 a) i j -> item b i j = item a i j) ->
    get_row b (-2) inner = get_row a (-2) inner.
Proof. send_tac. Qed.

Lemma send_col_1 :
  forall a b, 3 <= shape0 a -> 3 <= shape1 a ->
    shape0 b = shape0 a -> shape1 b = shape1 a ->
    (forall i j, interior (shape0 a) (shape1 a) i j -> item b i j = item a i j) ->
    get_col b inner 1 = get_col a inner 1.
Proof. send_tac. Qed.

Lemma send_col_m2 :
  forall a b, 3 <= shape0 a -> 3 <= shape1 a ->
    shape0 b = shape0 a -> shape1 b = shape1 a ->
    (forall i j, interior (shape0 a) (shape1 a) i j -> item b i j = item a i j) ->
    get_col b inner (-2) = get_col a inner (-2).
Proof. send_tac. Qed.

Lemma south_apart n m i j :
  2 <= n -> 2 <= m -> south_halo n m i j = true -> seg234 n m i j = false.
Proof.
  unfold seg234, seg34, seg4, south_halo, north_halo, east_halo, west_halo.
  intros Hn Hm. zcases; discriminate.
Qed.

Lemma north_apart n m i j :
  2 <= n -> 2 <= m -> north_halo n m i j = true -> seg34 n m i j = false.
Proof.
  unfold seg34, seg4, north_halo, east_halo, west_halo.
  intros Hn Hm. zcases; discriminate.
Qed.

Lemma east_apart n m i j :
  2 <= n -> 2 <= m -> east_halo n m i j = true -> seg4 n m i j = false.
Proof.
  unfold seg4, east_halo, west_halo.
  intros Hn Hm. zcases; discriminate.
Qed.

Lemma seg_sub_halo (sel : Z -> Z -> Z -> Z -> bool) :
  (forall n m i j, sel n m i j = true -> seg1234 n m i j = true) ->
  forall n m i j, sel n m i j = true -> halo_segment n m i j = true.
Proof. intros H n m i j E. apply seg1234_halo, H, E. Qed.

(** A second exchange, started where a first one ended, ends there too. *)
Lemma exchange_twice (w w1 : world) :
  (forall p, In p w -> 3 <= shape0 (u p) /\ 3 <= shape1 (u p)) ->
  exchange_ghost_cells w = Ok w1 ->
  exists w2, exchange_ghost_cells w1 = Ok w2 /\ same_w w2 w1.
Proof.
  intros Hsh H.
  destruct (exchange_phases _ _ H) as
    (a1 & a2 & a3 & P1 & P2 & P3 & P4 & K0 & K1 & K2 & K3).
  pose proof (kept_w_shapes _ _ _ (phase_kept _ _ _ _ _ _ _ store_south P1) Hsh) as Hsh1.
  pose proof (kept_w_shapes _ _ _ (phase_kept _ _ _ _ _ _ _ store_north P2) Hsh1) as Hsh2.
  pose proof (kept_w_shapes _ _ _ (phase_kept _ _ _ _ _ _ _ store_east P3) Hsh2) as Hsh3.
  destruct (phase_rerun _ _ _ _ _ store_south
              (fun p q E => f_equal north E) (fun p q E => f_equal south E)
              send_row_1 w a1 w1 w1 seg1234 seg234 P1 Hsh (same_w_refl w1) K0 K1)
    as (v1 & Q1 & S1); [exact seg1234_halo | exact south_apart |].
  destruct (phase_rerun _ _ _ _ _ store_north
              (fun p q E => f_equal south E) (fun p q E => f_equal north E)
              send_row_m2 a1 a2 v1 w1 seg234 seg34 P2 Hsh1 S1 K1 K2)
    as (v2 & Q2 & S2); [ | exact north_apart |].
  { apply seg_sub_halo. intros n m i j E. unfold seg1234. rewrite E.
    apply orb_true_r. }
  destruct (phase_rerun _ _ _ _ _ store_east
              (fun p q E => f_equal west E) (fun p q E => f_equal east E)
              send_col_1 a2 a3 v2 w1 seg34 seg4 P3 Hsh2 S2 K2 K3)
    as (v3 & Q3 & S3); [ | exact east_apart |].
  { apply seg_sub_halo. intros n m i j E. unfold seg1234, seg234. rewrite E.
    rewrite !orb_true_r. reflexivity. }
  destruct (phase_rerun _ _ _ _ _ store_west
              (fun p q E => f_equal east E) (fun p q E => f_equal west E)
              send_col_m2 a3 w1 v3 w1 seg4 (fun _ _ _ _ => false)
              P4 Hsh3 S3 K3 (kept_w_refl _ w1))
    as (v4 & Q4 & S4); [ | reflexivity |].
  { apply seg_sub_halo. intros n m i j E. unfold seg1234, seg234, seg34.
    rewrite E. rewrite !orb_true_r. reflexivity. }
  exists v4. split; [|exact S4].
  unfold exchange_ghost_cells. rewrite Q1. cbn [bind]. rewrite Q2. cbn [bind].
  rewrite Q3. cbn [bind]. exact Q4.
Qed.

(** C5 (amended). When every process has at least one interior row and
    one interior column between its halos, an exchange started in the
    state a completed exchange has produced completes too and changes no
    cell, no shape and nothing else of any process. *)
Theorem exchange_idempotent :
  forall w w1 : world,
    (forall r p, proc w r = Some p ->
       3 <= shape0 (u p) /\ 3 <= shape1 (u p)) ->
    exchange_ghost_cells w = Ok w1 ->
    exists w2,
      exchange_ghost_cells w1 = Ok w2 /\ length w2 = length w1 /\
      forall r p1, proc w1 r = Some p1 ->
        exists p2, proc w2 r = Some p2 /\ same_solver p2 p1.
Proof.
  intros w w1 Hsh H.
  destruct (exchange_twice w w1) as (w2 & H2 & (Hl & Hs)); [|assumption|].
  { intros p Hp. apply In_nth_error in Hp. destruct Hp as (k & Hk).
    apply (Hsh (Z.of_nat k)). apply proc_nth_error.
    rewrite Nat2Z.id. split; [lia | assumption]. }
  exists w2. split; [assumption|]. split; [assumption|].
  intros r p1 Hp1. apply proc_nth_error in Hp1. destruct Hp1 as (Hr & Hp1).
  destruct (nth_error_same_length w1 w2 _ p1 (eq_sym Hl) Hp1) as (p2 & Hp2).
  destruct (Hs _ _ Hp2) as (p1' & Hp1' & S).
  assert (p1' = p1) by congruence. subst p1'.
  exists p2. split; [apply proc_nth_error; auto | assumption].
Qed.

Lemma exchange_idempotent_witness :
  exists w w1 w2,
    init_world 2 3 3 = Ok w /\ exchange_ghost_cells w = Ok w1 /\
    exchange_ghost_cells w1 = Ok w2 /\ length w2 = length w1.
Proof.
  assert (E : exists w w1,
             init_world 2 3 3 = Ok w /\ exchange_ghost_cells w = Ok w1 /\
             forall r p, proc w r = Some p ->
               3 <= shape0 (u p) /\ 3 <= shape1 (u p)).
  { do 2 eexists. split; [vm_compute; reflexivity|].
    split; [vm_compute; reflexivity|].
    intros r p Hp. apply proc_nth_error in Hp. destruct Hp as (_ & Hp).
    destruct (Z.to_nat r) as [|[|k]]; cbn in Hp.
    - injection Hp as <-. cbn. lia.
    - injection Hp as <-. cbn. lia.
    - destruct k; discriminate Hp. }
  destruct E as (w & w1 & Hw & Hx & Hsh).
  destruct (exchange_idempotent w w1 Hsh Hx) as (w2 & H2 & Hl & _).
  exists w, w1, w2. repeat split; assumption.
Defined.

(** C5, as stated, fails when a process owns no interior row. Five
    processes on a 2 x 2 grid form a 5 x 1 topology in which the ranks 2, 3
    and 4 own no row; the cell [(1, 1)] of rank 2 holds the initial value
    after one exchange and the cold boundary value of rank 4 after two. *)
Lemma exchange_twice_counterexample :
  exists w w1 w2 p1 p2,
    init_world 5 2 2 = Ok w /\
    exchange_ghost_cells w = Ok w1 /\ exchange_ghost_cells w1 = Ok w2 /\
    proc w1 2 = Some p1 /\ proc w2 2 = Some p2 /\
    item (u p1) 1 1 = T_INITIAL /\ item (u p2) 1 1 = T_COLD /\
    item (u p2) 1 1 <> item (u p1) 1 1.
Proof.
  do 5 eexists.
  split; [vm_compute; reflexivity|].
  split; [vm_compute; reflexivity|].
  split; [vm_compute; reflexivity|].
  split; [vm_compute; reflexivity|].
  split; [vm_compute; reflexivity|].
  split; [vm_compute; reflexivity|].
  split; [vm_compute; reflexivity|].
  vm_compute. discriminate.
Qed.

(** ** The max-reduction *)

Lemma In_flatten a c :
  In c (flatten a) <->
  exists i j, 0 <= i < shape0 a /\ 0 <= j < shape1 a /\ c = item a i j.
Proof.
  unfold flatten. rewrite in_concat. split.
  - intros (row & Hrow & Hc). apply in_map_iff in Hrow.
    destruct Hrow as (i & <- & Hi). apply in_map_iff in Hc.
    destruct Hc as (j & <- & Hj). apply zseq_In in Hi, Hj. eauto.
  - intros (i & j & Hi & Hj & ->).
    exists (map (fun j => item a i j) (zseq (shape1 a))). split.
    + apply in_map_iff. exists i. split; [reflexivity | apply zseq_In, Hi].
    + apply in_map_iff. exists j. split; [reflexivity | apply zseq_In, Hj].
Qed.

Lemma np_maximum_larger : picks_larger np_maximum.
Proof.
  intros x y. unfold np_maximum. destruct (Qle_bool x y) eqn:E.
  - apply Qle_bool_iff in E. exists y. repeat split; auto. apply Qle_refl.
  - exists x. repeat split; auto; [apply Qle_refl|].
    destruct (Qlt_le_dec x y) as [L|L]; [|exact L].
    apply Qlt_le_weak, Qle_bool_iff in L. congruence.
Qed.

Lemma op_MAX_larger : picks_larger op_MAX.
Proof.
  intros x y. unfold op_MAX, cgt. destruct (Qle_bool y x) eqn:E; cbn [negb].
  - apply Qle_bool_iff in E. exists x. repeat split; auto. apply Qle_refl.
  - exists y. repeat split; auto; [|apply Qle_refl].
    destruct (Qlt_le_dec y x) as [L|L]; [|exact L].
    apply Qlt_le_weak, Qle_bool_iff in L. congruence.
Qed.

Lemma fold_larger f (l : list cell) (c : Q) :
  picks_larger f ->
  (forall x, In x l -> is_num x) ->
  exists M,
    fold_left f l (Num c) = Num M /\
    In (Num M) (Num c :: l) /\
    forall x, In (Num x) (Num c :: l) -> (x <= M)%Q.
Proof.
  intros Hf. revert c. induction l as [|a l IH]; intros c Hl.
  - exists c. cbn. repeat split; auto.
    intros x [E|[]]. injection E as <-. apply Qle_refl.
  - destruct (Hl a (or_introl eq_refl)) as (y & ->).
    destruct (Hf c y) as (z & Hz & Hor & Hcz & Hyz).
    destruct (IH z) as (M & HM & Hin & Hub).
    { intros x Hx. apply Hl. right. exact Hx. }
    exists M. cbn [fold_left]. rewrite Hz. split; [exact HM|]. split.
    + destruct Hin as [E|Hin]; [|right; right; exact Hin].
      injection E as E. subst M. destruct Hor as [-> | ->]; cbn; auto.
    + assert (HzM : (z <= M)%Q) by (apply Hub; left; reflexivity).
      intros x [E|[E|Hx]].
      * injection E as <-. eapply Qle_trans; eauto.
      * injection E as <-. eapply Qle_trans; eauto.
      * apply Hub. right. exact Hx.
Qed.

Lemma log2_up_covers (n : nat) : (0 < n -> n <= 2 ^ Nat.log2_up n)%nat.
Proof.
  intros H. destruct (Nat.eq_dec n 1) as [-> | Hn]; [cbn; lia|].
  apply Nat.log2_up_spec. lia.
Qed.

Lemma reduce_p2p_larger op (vals : list cell) :
  picks_larger op ->
  (forall x, In x vals -> is_num x) ->
  forall k r, (r < length vals)%nat ->
    exists M,
      reduce_p2p op vals k r = Num M /\
      In (Num M) vals /\
      forall i, (r <= i < r + 2 ^ k)%nat -> (i < length vals)%nat ->
        exists x, nth i vals NaN = Num x /\ (x <= M)%Q.
Proof.
  intros Hop Hv. induction k as [|k IH]; intros r Hr.
  - destruct (Hv (nth r vals NaN) (nth_In _ _ Hr)) as (c & Ec).
    exists c. cbn [reduce_p2p]. split; [exact Ec|]. split.
    + rewrite <- Ec. apply nth_In, Hr.
    + intros i Hi _. cbn in Hi. replace i with r by lia.
      exists c. split; [exact Ec | apply Qle_refl].
  - cbn [reduce_p2p]. destruct (IH r Hr) as (M1 & E1 & I1 & U1). rewrite E1.
    assert (E2k : (2 ^ S k = 2 ^ k + 2 ^ k)%nat) by (cbn; lia).
    destruct (Nat.ltb_spec (r + 2 ^ k) (length vals)) as [Ht|Ht].
    + destruct (IH _ Ht) as (M2 & E2 & I2 & U2). rewrite E2.
      destruct (Hop M1 M2) as (z & Ez & Hor & H1 & H2).
      exists z. split; [exact Ez|].
      split; [destruct Hor as [-> | ->]; assumption|].
      intros i Hi Hl.
      destruct (Nat.lt_ge_cases i (r + 2 ^ k)) as [Hlo|Hhi].
      * destruct (U1 i ltac:(lia) Hl) as (x & Ex & Hx).
        exists x. split; [exact Ex | eapply Qle_trans; eauto].
      * destruct (U2 i ltac:(lia) Hl) as (x & Ex & Hx).
        exists x. split; [exact Ex | eapply Qle_trans; eauto].
    + exists M1. split; [reflexivity|]. split; [exact I1|].
      intros i Hi Hl. apply U1; [lia | exact Hl].
Qed.

(** The reduction of numbers with an operation that returns the larger of
    two: the result is one of the contributions and bounds them all. *)
Lemma allreduce_larger op (vals : list cell) :
  picks_larger op -> vals <> [] ->
  (forall x, In x vals -> is_num x) ->
  exists M,
    allreduce op vals = Ok (Num M) /\
    In (Num M) vals /\
    forall x, In (Num x) vals -> (x <= M)%Q.
Proof.
  intros Hop Hne Hv.
  assert (Hlen : (0 < length vals)%nat) by (destruct vals; [congruence | cbn; lia]).
  destruct (reduce_p2p_larger op vals Hop Hv (Nat.log2_up (length vals)) 0%nat Hlen)
    as (M & HM & Hin & Hub).
  exists M. split; [|split; [exact Hin|]].
  - unfold allreduce. destruct vals; [congruence|]. rewrite HM. reflexivity.
  - intros x Hx. destruct (In_nth _ _ NaN Hx) as (i & Hi & Ei).
    pose proof (log2_up_covers _ Hlen) as Hc.
    destruct (Hub i ltac:(lia) Hi) as (y & Ey & Hy).
    assert (x = y) by congruence. subst y. exact Hy.
Qed.

Lemma contribution_Ok (p : HeatSolverMPI) (v : cell) :
  local_max p = Ok v -> contribution p = Ok v.
Proof. intros H. unfold contribution. rewrite H. reflexivity. Qed.

Lemma local_max_spec (p : HeatSolverMPI) :
  shape0 (u_new p) = shape0 (u p) -> shape1 (u_new p) = shape1 (u p) ->
  3 <= shape0 (u p) -> 3 <= shape1 (u p) ->
  (forall i j, interior (shape0 (u p)) (shape1 (u p)) i j ->
     is_num (item (u p) i j) /\ is_num (item (u_new p) i j)) ->
  exists lm,
    local_max p = Ok (Num lm) /\
    (forall i j, interior (shape0 (u p)) (shape1 (u p)) i j ->
       exists x, abs_diff p i j = Num x /\ (x <= lm)%Q) /\
    (exists i j, interior (shape0 (u p)) (shape1 (u p)) i j /\
       abs_diff p i j = Num lm).
Proof.
  intros H0 H1 Hn Hm Hnum.
  unfold local_max, arr_sub.
  rewrite arr_map2_Ok by (cbn [shape0 shape1 get_block]; congruence).
  cbn [bind]. unfold np_max.
  match goal with |- context [flatten ?A] => set (A0 := A) end.
  assert (HA : forall i j, 0 <= i < shape0 (u p) - 2 -> 0 <= j < shape1 (u p) - 2 ->
            item A0 i j = abs_diff p (i + 1) (j + 1)).
  { intros i j Hi Hj. unfold A0, abs_diff.
    cbn [np_abs get_block item shape0 shape1]. rewrite H0, H1. slices.
    f_equal. apply f_equal2; apply f_equal2; lia. }
  assert (HS : shape0 A0 = shape0 (u p) - 2 /\ shape1 A0 = shape1 (u p) - 2).
  { unfold A0. cbn [np_abs get_block shape0 shape1]. rewrite H0, H1.
    rewrite !slice_len_inner by lia. lia. }
  destruct HS as (HS0 & HS1).
  assert (HN : forall i j, interior (shape0 (u p)) (shape1 (u p)) i j ->
            is_num (abs_diff p i j)).
  { intros i j Hi. destruct (Hnum i j Hi) as ((a & Ea) & (b & Eb)).
    unfold abs_diff. rewrite Ea, Eb. cbn. eexists; reflexivity. }
  assert (HF : forall c, In c (flatten A0) <->
            exists i j, interior (shape0 (u p)) (shape1 (u p)) i j /\
                        c = abs_diff p i j).
  { intros c. rewrite In_flatten, HS0, HS1. split.
    - intros (i & j & Hi & Hj & ->). exists (i + 1), (j + 1).
      split; [unfold interior; lia | apply HA; assumption].
    - intros (i & j & Hi & ->). unfold interior in Hi.
      exists (i - 1), (j - 1). split; [lia|]. split; [lia|].
      rewrite HA by lia. f_equal; lia. }
  destruct (flatten A0) as [|c l] eqn:EF.
  { exfalso. apply (proj2 (HF (abs_diff p 1 1))).
    exists 1, 1. split; [unfold interior; lia | reflexivity]. }
  assert (Hc : is_num c).
  { destruct (proj1 (HF c) (or_introl eq_refl)) as (i & j & Hi & ->). auto. }
  destruct Hc as (c0 & ->).
  destruct (fold_larger np_maximum l c0 np_maximum_larger) as (M & HM & Hin & Hub).
  { intros x Hx. destruct (proj1 (HF x) (or_intror Hx)) as (i & j & Hi & ->).
    auto. }
  exists M. split; [rewrite HM; reflexivity|]. split.
  - intros i j Hi. destruct (HN i j Hi) as (x & Ex). exists x.
    split; [exact Ex|]. apply Hub. rewrite <- Ex. apply HF. eauto.
  - destruct (proj1 (HF (Num M)) Hin) as (i & j & Hi & E). eauto.
Qed.

(** C6 (amended). On a run in which every process has a non-empty interior, buffers
    of one shape and numbers in all interior cells, [compute_max_error]
    returns on every process the same number [M]; each process's local
    maximum is the largest absolute change [|u_new[i,j] - u[i,j]|] over
    its interior cells, [M] is at least every local maximum and is the
    local maximum of some process. *)
Theorem max_error_is_global_max :
  forall w : world,
    w <> [] ->
    (forall r p, proc w r = Some p ->
       shape0 (u_new p) = shape0 (u p) /\ shape1 (u_new p) = shape1 (u p) /\
       3 <= shape0 (u p) /\ 3 <= shape1 (u p) /\
       forall i j, interior (shape0 (u p)) (shape1 (u p)) i j ->
         is_num (item (u p) i j) /\ is_num (item (u_new p) i j)) ->
    exists M,
      (forall r me, proc w r = Some me -> compute_max_error w me = Ok (Num M)) /\
      (forall r p, proc w r = Some p ->
         exists lm,
           local_max p = Ok (Num lm) /\ (lm <= M)%Q /\
           (forall i j, interior (shape0 (u p)) (shape1 (u p)) i j ->
              exists x, abs_diff p i j = Num x /\ (x <= lm)%Q) /\
           (exists i j, interior (shape0 (u p)) (shape1 (u p)) i j /\
              abs_diff p i j = Num lm)) /\
      (exists r p, proc w r = Some p /\ local_max p = Ok (Num M)).
Proof.
  intros w Hne Hw.
  assert (Hp : forall k p, nth_error w k = Some p ->
            exists lm,
              local_max p = Ok (Num lm) /\
              (forall i j, interior (shape0 (u p)) (shape1 (u p)) i j ->
                 exists x, abs_diff p i j = Num x /\ (x <= lm)%Q) /\
              (exists i j, interior (shape0 (u p)) (shape1 (u p)) i j /\
                 abs_diff p i j = Num lm)).
  { intros k p Hk.
    destruct (Hw (Z.of_nat k) p) as (H0 & H1 & Hn & Hm & Hnum).
    { apply proc_nth_error. rewrite Nat2Z.id. split; [lia | exact Hk]. }
    apply local_max_spec; assumption. }
  destruct (mapM_exists contribution w) as (vals & Hvals).
  { intros p Hin. apply In_nth_error in Hin. destruct Hin as (k & Hk).
    destruct (Hp k p Hk) as (lm & Hlm & _).
    exists (Num lm). apply contribution_Ok, Hlm. }
  assert (Hv : forall v, In v vals ->
            exists k p lm, nth_error w k = Some p /\ v = Num lm /\
                           local_max p = Ok (Num lm)).
  { intros v Hin. apply In_nth_error in Hin. destruct Hin as (k & Hk).
    destruct (nth_error_same_length vals w k v (mapM_length _ _ _ Hvals) Hk)
      as (p & Hpk).
    destruct (mapM_nth_error _ _ _ Hvals k p Hpk) as (v' & Hv' & Hl).
    assert (v' = v) by congruence. subst v'.
    destruct (Hp k p Hpk) as (lm & Hlm & _).
    rewrite (contribution_Ok _ _ Hlm) in Hl.
    exists k, p, lm. repeat split; congruence. }
  assert (Hvne : vals <> []).
  { intros ->. apply mapM_length in Hvals. destruct w; [congruence | discriminate]. }
  destruct (allreduce_larger op_MAX vals op_MAX_larger Hvne) as (M & HM & Hin & Hub).
  { intros x Hx. destruct (Hv x Hx) as (k & p & lm & _ & -> & _).
    eexists; reflexivity. }
  exists M. split; [|split].
  - intros r me Hme. apply proc_nth_error in Hme. destruct Hme as (_ & Hme).
    destruct (Hp _ me Hme) as (lm & Hlm & _).
    unfold compute_max_error. rewrite Hlm. cbn [bind]. rewrite Hvals. cbn [bind].
    exact HM.
  - intros r p Hr. apply proc_nth_error in Hr. destruct Hr as (_ & Hr).
    destruct (Hp _ p Hr) as (lm & Hlm & Hub' & Hat).
    exists lm. split; [exact Hlm|]. split; [|split; assumption].
    apply Hub.
    destruct (mapM_nth_error _ _ _ Hvals _ p Hr) as (v & Hv' & Hl).
    rewrite (contribution_Ok _ _ Hlm) in Hl.
    assert (v = Num lm) by congruence. subst v.
    eapply nth_error_In; eauto.
  - destruct (Hv (Num M) Hin) as (k & p & lm & Hk & E & Hl).
    injection E as <-. exists (Z.of_nat k), p. split; [|exact Hl].
    apply proc_nth_error. rewrite Nat2Z.id. split; [lia | exact Hk].
Qed.

Lemma is_numb_sound c : is_numb c = true -> is_num c.
Proof. destruct c; [eexists; reflexivity | discriminate]. Qed.

Lemma numeric_ready_sound (p : HeatSolverMPI) :
  numeric_ready p = true ->
  shape0 (u_new p) = shape0 (u p) /\ shape1 (u_new p) = shape1 (u p) /\
  3 <= shape0 (u p) /\ 3 <= shape1 (u p) /\
  forall i j, interior (shape0 (u p)) (shape1 (u p)) i j ->
    is_num (item (u p) i j) /\ is_num (item (u_new p) i j).
Proof.
  unfold numeric_ready. intros H.
  apply andb_prop in H. destruct H as (H & Hc).
  apply andb_prop in H. destruct H as (H & H3).
  apply andb_prop in H. destruct H as (H & H2).
  apply andb_prop in H. destruct H as (H0 & H1).
  apply Z.eqb_eq in H0, H1. apply Z.leb_le in H2, H3.
  repeat split; try assumption.
  all: unfold interior in H; rewrite forallb_forall in Hc;
    assert (Hi : In (i - 1) (zseq (shape0 (u p) - 2))) by (apply zseq_In; lia);
    specialize (Hc _ Hi); rewrite forallb_forall in Hc;
    assert (Hj : In (j - 1) (zseq (shape1 (u p) - 2))) by (apply zseq_In; lia);
    specialize (Hc _ Hj);
    replace (i - 1 + 1) with i in Hc by lia;
    replace (j - 1 + 1) with j in Hc by lia;
    apply andb_prop in Hc; destruct Hc as (Ha & Hb);
    apply is_numb_sound; assumption.
Qed.

Lemma max_error_is_global_max_witness :
  exists w w' M,
    init_world 2 3 3 = Ok w /\ mapM apply_stencil w = Ok w' /\
    forall r me, proc w' r = Some me -> compute_max_error w' me = Ok (Num M).
Proof.
  assert (E : exists w w',
             init_world 2 3 3 = Ok w /\ mapM apply_stencil w = Ok w' /\
             w' <> [] /\ forallb numeric_ready w' = true).
  { do 2 eexists. split; [vm_compute; reflexivity|].
    split; [vm_compute; reflexivity|]. split; [discriminate|].
    vm_compute. reflexivity. }
  destruct E as (w & w' & Hw & Hs & Hne & Hrd).
  destruct (max_error_is_global_max w' Hne) as (M & HM & _).
  { intros r p Hp. apply proc_nth_error in Hp. destruct Hp as (_ & Hp).
    apply numeric_ready_sound.
    rewrite forallb_forall in Hrd. apply Hrd.
    eapply nth_error_In; eauto. }
  exists w, w', M. repeat split; assumption.
Defined.

(** C6, as stated, fails when a process owns no interior cell. Three
    processes on a 2 x 2 grid form a 3 x 1 topology in which rank 2 owns no
    row: on rank 2 the local maximum is taken over an empty array and the
    call raises [ValueError]; rank 0, whose local maximum exists, waits in
    [allreduce] for the contribution of rank 2 and never returns. No
    process gets a maximum. *)
Lemma max_error_empty_interior :
  exists w me0 me2 lm,
    init_world 3 2 2 = Ok w /\
    proc w 0 = Some me0 /\ proc w 2 = Some me2 /\
    nx_local (config me2) = 0 /\
    compute_max_error w me2 = Raise ValueError /\
    local_max me0 = Ok (Num lm) /\
    compute_max_error w me0 = Raise Blocked.
Proof.
  do 4 eexists. split; [vm_compute; reflexivity|].
  split; [vm_compute; reflexivity|]. split; [vm_compute; reflexivity|].
  split; [vm_compute; reflexivity|]. split; [vm_compute; reflexivity|].
  split; vm_compute; reflexivity.
Qed.

(** ** Flattening, slicing and reshaping *)

Lemma concat_rows_length {A : Type} (rows : list (list A)) (m : nat) :
  (forall row, In row rows -> length row = m) ->
  length (concat rows) = (length rows * m)%nat.
Proof.
  induction rows as [|row rows IH]; intros H; [reflexivity|].
  cbn [concat length]. rewrite length_app.
  rewrite IH by (intros r Hr; apply H; cbn; auto).
  rewrite (H row) by (cbn; auto). lia.
Qed.

Lemma flatten_length a :
  0 <= shape0 a -> 0 <= shape1 a ->
  Z.of_nat (length (flatten a)) = shape0 a * shape1 a.
Proof.
  intros H0 H1. unfold flatten.
  rewrite (concat_rows_length _ (Z.to_nat (shape1 a))).
  - rewrite length_map. unfold zseq. rewrite length_map, length_seq. nia.
  - intros row Hrow. apply in_map_iff in Hrow. destruct Hrow as (i & <- & _).
    unfold zseq. rewrite !length_map, length_seq. reflexivity.
Qed.

Lemma nth_concat_rows {A : Type} (rows : list (list A)) (m i j : nat) (d : A) :
  (forall row, In row rows -> length row = m) ->
  (i < length rows)%nat -> (j < m)%nat ->
  nth (i * m + j) (concat rows) d = nth j (nth i rows []) d.
Proof.
  revert i. induction rows as [|row rows IH]; intros i H Hi Hj.
  - cbn in Hi. lia.
  - cbn [concat]. destruct i as [|i].
    + cbn [nth Nat.mul Nat.add]. rewrite app_nth1; [reflexivity|].
      rewrite (H row) by (cbn; auto). exact Hj.
    + rewrite app_nth2 by (rewrite (H row) by (cbn; auto); cbn; lia).
      rewrite (H row) by (cbn; auto).
      replace (S i * m + j - m)%nat with (i * m + j)%nat by (cbn; lia).
      cbn [nth]. apply IH; [intros r Hr; apply H; cbn; auto | cbn in Hi; lia | exact Hj].
Qed.

Lemma nth_flatten a i j :
  0 <= i < shape0 a -> 0 <= j < shape1 a ->
  nth_cell (flatten a) (i * shape1 a + j) = item a i j.
Proof.
  intros Hi Hj. unfold nth_cell, flatten.
  replace (Z.to_nat (i * shape1 a + j))
    with (Z.to_nat i * Z.to_nat (shape1 a) + Z.to_nat j)%nat by nia.
  rewrite nth_concat_rows.
  - rewrite nth_indep with (d' := map (fun j0 => item a i j0) (zseq (shape1 a)))
      by (rewrite length_map; unfold zseq; rewrite length_map, length_seq; lia).
    rewrite (map_nth (fun i0 => map (fun j0 => item a i0 j0) (zseq (shape1 a)))
               (zseq (shape0 a)) i).
    rewrite zseq_nth by lia.
    rewrite nth_indep with (d' := item a i j)
      by (unfold zseq; rewrite !length_map, length_seq; lia).
    rewrite (map_nth (fun j0 => item a i j0) (zseq (shape1 a)) j).
    rewrite zseq_nth by lia. reflexivity.
  - intros row Hrow. apply in_map_iff in Hrow. destruct Hrow as (k & <- & _).
    unfold zseq. rewrite !length_map, length_seq. reflexivity.
  - unfold zseq. rewrite !length_map, length_seq. lia.
  - lia.
Qed.

(** The part of a concatenation that starts after the first [k] lists and
    is as long as the next one is that list. *)
Lemma slice_concat {A : Type} (ls : list (list A)) (k : nat) :
  (k < length ls)%nat ->
  firstn (length (nth k ls []))
         (skipn (length (concat (firstn k ls))) (concat ls))
  = nth k ls [].
Proof.
  revert k. induction ls as [|l ls IH]; intros k Hk; [cbn in Hk; lia|].
  destruct k as [|k].
  - cbn. rewrite firstn_app, Nat.sub_diag, firstn_all. cbn.
    apply app_nil_r.
  - cbn [firstn concat nth]. rewrite length_app.
    rewrite skipn_app.
    rewrite skipn_all2 by lia.
    replace (length l + length (concat (firstn k ls)) - length l)%nat
      with (length (concat (firstn k ls))) by lia.
    cbn [app]. apply IH. cbn in Hk. lia.
Qed.

(** ** The blocks of the partition *)

Lemma start_index_nonneg N P c :
  0 <= N -> 0 < P -> 0 <= c -> 0 <= start_index N P c.
Proof.
  intros HN HP Hc. unfold start_index. cbv zeta.
  pose proof (Z.div_pos N P HN HP).
  pose proof (Z.mod_pos_bound N P HP). nia.
Qed.

Lemma block_inside N P c :
  0 <= N -> 0 < P -> 0 <= c < P ->
  start_index N P c + local_size N P c <= N.
Proof.
  intros HN HP Hc. rewrite start_index_step by lia.
  rewrite <- (start_index_total N P HP) at 2.
  apply start_index_mono; lia.
Qed.

Lemma blocks_apart N P c c' i i' :
  0 <= N -> 0 < P -> 0 <= c -> 0 <= c' -> c <> c' ->
  0 <= i < local_size N P c -> 0 <= i' < local_size N P c' ->
  start_index N P c + i <> start_index N P c' + i'.
Proof.
  intros HN HP Hc Hc' Hne Hi Hi'.
  assert (c < c' \/ c' < c) as [L|L] by lia.
  - pose proof (start_index_step N P c Hc).
    pose proof (start_index_mono N P (c + 1) c' HN HP). lia.
  - pose proof (start_index_step N P c' Hc').
    pose proof (start_index_mono N P (c' + 1) c HN HP). lia.
Qed.

Lemma coords_range px py r :
  1 <= px -> 1 <= py -> 0 <= r < px * py ->
  0 <= fst (Get_coords (px, py) r) < px /\
  0 <= snd (Get_coords (px, py) r) < py.
Proof.
  intros Hx Hy Hr. unfold Get_coords. cbn [fst snd].
  pose proof (Z.mod_pos_bound r py ltac:(lia)).
  pose proof (Z.div_mod r py ltac:(lia)).
  assert (0 <= r / py) by (apply Z.div_pos; lia).
  split; [|assumption]. split; [assumption|].
  apply Z.div_lt_upper_bound; nia.
Qed.

Lemma coords_differ px py r r' :
  1 <= py -> r <> r' ->
  fst (Get_coords (px, py) r) <> fst (Get_coords (px, py) r') \/
  snd (Get_coords (px, py) r) <> snd (Get_coords (px, py) r').
Proof.
  intros Hy Hne. unfold Get_coords. cbn [fst snd].
  pose proof (Z.div_mod r py ltac:(lia)).
  pose proof (Z.div_mod r' py ltac:(lia)).
  destruct (Z.eq_dec (r / py) (r' / py)) as [E|E]; [right | left; exact E].
  intros E'. apply Hne. rewrite H, H0, E, E'. reflexivity.
Qed.

Lemma foldM_app {A B : Type} (f : A -> B -> result A) (l1 l2 : list B) (a : A) :
  foldM f (l1 ++ l2) a = (a' <- foldM f l1 a ;; foldM f l2 a').
Proof.
  revert a. induction l1 as [|b l1 IH]; intros a; [reflexivity|].
  cbn [app foldM]. destruct (f a b) as [a'|e]; cbn [bind]; [apply IH | reflexivity].
Qed.

(** ** The gather *)

Section Gather.

Variables nx ny px py : Z.
Variable w : world.
Hypothesis Hready : gather_ready nx ny px py w.

Let blk (p : HeatSolverMPI) : ndarray := get_block (u p) inner inner.
Let flats : list (list cell) := map (fun p => flatten (blk p)) w.
Let sizes : list Z := map (fun p => np_size (blk p)) w.
Let cx (r : Z) : Z := fst (Get_coords (px, py) r).
Let cy (r : Z) : Z := snd (Get_coords (px, py) r).
Let offset_of (k : nat) : Z := Z.of_nat (length (concat (firstn k flats))).

Lemma ready_rank r p : proc w r = Some p -> 0 <= r < px * py.
Proof.
  intros Hp. destruct Hready as (_ & _ & _ & _ & Hl & _).
  apply proc_nth_error in Hp. destruct Hp as (Hr & Hp).
  assert (Z.to_nat r < length w)%nat by (apply nth_error_Some; congruence).
  lia.
Qed.

Lemma block_shape r p :
  proc w r = Some p ->
  shape0 (blk p) = local_size nx px (cx r) /\
  shape1 (blk p) = local_size ny py (cy r) /\
  0 <= local_size nx px (cx r) /\ 0 <= local_size ny py (cy r).
Proof.
  intros Hp. pose proof (ready_rank r p Hp) as Hr.
  destruct Hready as (Hnx & Hny & Hpx & Hpy & Hl & H).
  destruct (H r p Hp) as (_ & _ & _ & _ & _ & S0 & S1).
  pose proof (local_size_nonneg nx px (cx r) Hnx ltac:(lia)) as L0.
  pose proof (local_size_nonneg ny py (cy r) Hny ltac:(lia)) as L1.
  unfold blk. cbn [get_block shape0 shape1]. fold (cx r) in S0. fold (cy r) in S1.
  rewrite S0, S1, !slice_len_inner by lia. lia.
Qed.

Lemma flats_nth (k : nat) p :
  nth_error w k = Some p -> nth k flats [] = flatten (blk p).
Proof.
  intros Hk. unfold flats.
  apply nth_error_nth. rewrite nth_error_map, Hk. reflexivity.
Qed.

Lemma sizes_nth (k : nat) p :
  nth_error w k = Some p -> nth k sizes 0 = np_size (blk p).
Proof.
  intros Hk. unfold sizes.
  apply nth_error_nth. rewrite nth_error_map, Hk. reflexivity.
Qed.

Lemma offset_of_succ (k : nat) p :
  nth_error w k = Some p ->
  offset_of (S k) = offset_of k + np_size (blk p).
Proof.
  intros Hk. unfold offset_of.
  assert (Hf : nth_error flats k = Some (flatten (blk p))).
  { unfold flats. rewrite nth_error_map, Hk. reflexivity. }
  assert (E : firstn (S k) flats = firstn k flats ++ [flatten (blk p)]).
  { clear - Hf. revert k Hf. induction flats as [|a l IH]; intros k Hf.
    - destruct k; discriminate.
    - destruct k as [|k]; cbn in *.
      + injection Hf as ->. reflexivity.
      + f_equal. apply IH. exact Hf. }
  rewrite E, concat_app, length_app. cbn [concat]. rewrite app_nil_r.
  destruct (block_shape (Z.of_nat k) p) as (S0 & S1 & L0 & L1).
  { apply proc_nth_error. rewrite Nat2Z.id. split; [lia | exact Hk]. }
  pose proof (flatten_length (blk p) ltac:(lia) ltac:(lia)).
  unfold np_size. lia.
Qed.

Lemma place_block_step (cfg : GridConfig) (g : ndarray) (k : nat) p :
  nx_global cfg = nx -> ny_global cfg = ny -> dims cfg = (px, py) ->
  shape0 g = nx -> shape1 g = ny ->
  nth_error w k = Some p ->
  exists g',
    place_block cfg (concat flats) sizes (g, offset_of k) (Z.of_nat k)
    = Ok (g', offset_of (S k)) /\
    shape0 g' = nx /\ shape1 g' = ny /\
    forall a b,
      item g' a b
      = if (start_index nx px (cx (Z.of_nat k)) <=? a)
           && (a <? start_index nx px (cx (Z.of_nat k))
                    + local_size nx px (cx (Z.of_nat k)))
           && ((start_index ny py (cy (Z.of_nat k)) <=? b)
               && (b <? start_index ny py (cy (Z.of_nat k))
                        + local_size ny py (cy (Z.of_nat k))))
        then item (u p) (a - start_index nx px (cx (Z.of_nat k)) + 1)
                        (b - start_index ny py (cy (Z.of_nat k)) + 1)
        else item g a b.
Proof.
  intros Cnx Cny Cd G0 G1 Hk.
  assert (Hp : proc w (Z.of_nat k) = Some p).
  { apply proc_nth_error. rewrite Nat2Z.id. split; [lia | exact Hk]. }
  pose proof (ready_rank _ _ Hp) as Hr.
  destruct (block_shape _ _ Hp) as (S0 & S1 & L0 & L1).
  destruct Hready as (Hnx & Hny & Hpx & Hpy & Hl & H).
  destruct (H _ _ Hp) as (_ & _ & _ & _ & _ & U0 & U1).
  destruct (coords_range px py (Z.of_nat k) Hpx Hpy Hr) as (Rx & Ry).
  unfold place_block. rewrite Cnx, Cny, Cd. cbn [fst snd].
  change p_local_size with local_size.
  fold (cx (Z.of_nat k)) in U0, Rx |- *. fold (cy (Z.of_nat k)) in U1, Ry |- *.
  set (X := cx (Z.of_nat k)) in *. set (Y := cy (Z.of_nat k)) in *.
  pose proof (start_index_nonneg nx px X Hnx ltac:(lia) ltac:(lia)) as Ox.
  pose proof (start_index_nonneg ny py Y Hny ltac:(lia) ltac:(lia)) as Oy.
  pose proof (block_inside nx px X Hnx ltac:(lia) Rx) as Ix.
  pose proof (block_inside ny py Y Hny ltac:(lia) Ry) as Iy.
  pose proof (flatten_length (blk p) ltac:(lia) ltac:(lia)) as FL.
  rewrite Nat2Z.id, (sizes_nth k p Hk).
  assert (Esl : slice1 (concat flats) (offset_of k) (np_size (blk p))
                = flatten (blk p)).
  { unfold slice1, offset_of. rewrite Nat2Z.id.
    replace (Z.to_nat (np_size (blk p))) with (length (nth k flats []))
      by (rewrite (flats_nth k p Hk); unfold np_size; lia).
    rewrite slice_concat; [apply (flats_nth k p Hk)|].
    unfold flats. rewrite length_map. apply nth_error_Some. congruence. }
  rewrite Esl. unfold reshape.
  replace ((0 <=? local_size nx px X) && (0 <=? local_size ny py Y)
           && (Z.of_nat (length (flatten (blk p)))
               =? local_size nx px X * local_size ny py Y)) with true
    by (symmetry; rewrite !andb_true_iff, !Z.leb_le, Z.eqb_eq; nia).
  cbn [bind]. unfold set_block, broadcast2, slice_len, slice_lo, slice_hi, py_bound.
  cbn [fst snd shape0 shape1]. rewrite G0, G1.
  replace (start_index nx px X <? 0) with false by (symmetry; apply Z.ltb_ge; lia).
  replace (start_index ny py Y <? 0) with false by (symmetry; apply Z.ltb_ge; lia).
  replace (start_index nx px X + local_size nx px X <? 0) with false
    by (symmetry; apply Z.ltb_ge; lia).
  replace (start_index ny py Y + local_size ny py Y <? 0) with false
    by (symmetry; apply Z.ltb_ge; lia).
  rewrite !Z.min_l by lia.
  replace (Z.max 0 (start_index nx px X + local_size nx px X - start_index nx px X))
    with (local_size nx px X) by lia.
  replace (Z.max 0 (start_index ny py Y + local_size ny py Y - start_index ny py Y))
    with (local_size ny py Y) by lia.
  rewrite !Z.eqb_refl. cbn [orb andb bind].
  eexists. split; [rewrite (offset_of_succ k p Hk); reflexivity|].
  cbn [shape0 shape1 item]. split; [reflexivity|]. split; [reflexivity|].
  intros a b. unfold in_slice, slice_len, slice_lo, slice_hi, py_bound.
  cbn [fst snd].
  replace (start_index nx px X <? 0) with false by (symmetry; apply Z.ltb_ge; lia).
  replace (start_index ny py Y <? 0) with false by (symmetry; apply Z.ltb_ge; lia).
  replace (start_index nx px X + local_size nx px X <? 0) with false
    by (symmetry; apply Z.ltb_ge; lia).
  replace (start_index ny py Y + local_size ny py Y <? 0) with false
    by (symmetry; apply Z.ltb_ge; lia).
  rewrite !Z.min_l by lia.
  replace (Z.max 0 (start_index nx px X + local_size nx px X - start_index nx px X))
    with (local_size nx px X) by lia.
  replace (Z.max 0 (start_index ny py Y + local_size ny py Y - start_index ny py Y))
    with (local_size ny py Y) by lia.
  destruct ((start_index nx px X <=? a)
            && (a <? start_index nx px X + local_size nx px X)) eqn:Ea;
    [|reflexivity].
  destruct ((start_index ny py Y <=? b)
            && (b <? start_index ny py Y + local_size ny py Y)) eqn:Eb;
    [|reflexivity].
  cbn [andb].
  apply andb_prop in Ea, Eb. destruct Ea as (Ea1 & Ea2), Eb as (Eb1 & Eb2).
  apply Z.leb_le in Ea1, Eb1. apply Z.ltb_lt in Ea2, Eb2.
  rewrite <- S1 at 1. rewrite nth_flatten by lia.
  unfold blk. cbn [get_block item]. rewrite U0, U1. slices.
  apply f_equal2; lia.
Qed.

Lemma gather_loop (cfg : GridConfig) (g0 : ndarray) :
  nx_global cfg = nx -> ny_global cfg = ny -> dims cfg = (px, py) ->
  shape0 g0 = nx -> shape1 g0 = ny ->
  forall k : nat, (k <= length w)%nat ->
    exists g,
      foldM (place_block cfg (concat flats) sizes) (zseq (Z.of_nat k)) (g0, 0)
      = Ok (g, offset_of k) /\
      shape0 g = nx /\ shape1 g = ny /\
      forall (r : nat) p, (r < k)%nat -> nth_error w r = Some p ->
        forall i j,
          0 <= i < local_size nx px (cx (Z.of_nat r)) ->
          0 <= j < local_size ny py (cy (Z.of_nat r)) ->
          item g (start_index nx px (cx (Z.of_nat r)) + i)
                 (start_index ny py (cy (Z.of_nat r)) + j)
          = item (u p) (i + 1) (j + 1).
Proof.
  intros Cnx Cny Cd G0 G1 k. induction k as [|k IH]; intros Hk.
  - exists g0. cbn. repeat split; try assumption. intros r p Hr. lia.
  - destruct IH as (g & Hf & S0 & S1 & Hg); [lia|].
    destruct (nth_error w k) as [p|] eqn:Hp;
      [|apply nth_error_None in Hp; lia].
    destruct (place_block_step cfg g k p Cnx Cny Cd S0 S1 Hp)
      as (g' & Hs & S0' & S1' & Hg').
    exists g'. replace (Z.of_nat (S k)) with (Z.of_nat k + 1) by lia.
    rewrite zseq_succ, foldM_app, Hf by lia. cbn [bind foldM].
    rewrite Hs. cbn [bind].
    split; [reflexivity|]. split; [assumption|]. split; [assumption|].
    intros r q Hr Hq i j Hi Hj. rewrite Hg'.
    destruct Hready as (Hnx & Hny & Hpx & Hpy & Hl & _).
    assert (Hrk : 0 <= Z.of_nat k < px * py) by lia.
    assert (Hrr : 0 <= Z.of_nat r < px * py) by lia.
    destruct (coords_range px py (Z.of_nat k) Hpx Hpy Hrk) as (Kx & Ky).
    destruct (coords_range px py (Z.of_nat r) Hpx Hpy Hrr) as (Rx & Ry).
    fold (cx (Z.of_nat k)) in Kx. fold (cy (Z.of_nat k)) in Ky.
    fold (cx (Z.of_nat r)) in Rx. fold (cy (Z.of_nat r)) in Ry.
    destruct (Nat.eq_dec r k) as [E|E].
    + subst r. assert (q = p) by congruence. subst q.
      replace ((start_index nx px (cx (Z.of_nat k)) <=?
                start_index nx px (cx (Z.of_nat k)) + i)
               && (start_index nx px (cx (Z.of_nat k)) + i <?
                   start_index nx px (cx (Z.of_nat k))
                   + local_size nx px (cx (Z.of_nat k)))
               && ((start_index ny py (cy (Z.of_nat k)) <=?
                    start_index ny py (cy (Z.of_nat k)) + j)
                   && (start_index ny py (cy (Z.of_nat k)) + j <?
                       start_index ny py (cy (Z.of_nat k))
                       + local_size ny py (cy (Z.of_nat k))))) with true
        by (symmetry; rewrite !andb_true_iff, !Z.leb_le, !Z.ltb_lt; lia).
      apply f_equal2; lia.
    + match goal with |- (if ?c then _ else _) = _ => destruct c eqn:Ec end;
        [|apply (Hg r q); [lia | assumption ..]].
      exfalso.
      rewrite !andb_true_iff, !Z.leb_le, !Z.ltb_lt in Ec.
      destruct Ec as ((A1 & A2) & (B1 & B2)).
      destruct (coords_differ px py (Z.of_nat r) (Z.of_nat k) Hpy ltac:(lia))
        as [D|D].
      * fold (cx (Z.of_nat r)) (cx (Z.of_nat k)) in D.
        apply (blocks_apart nx px (cx (Z.of_nat r)) (cx (Z.of_nat k)) i
                 (start_index nx px (cx (Z.of_nat r)) + i
                  - start_index nx px (cx (Z.of_nat k))));
          try lia; assumption.
      * fold (cy (Z.of_nat r)) (cy (Z.of_nat k)) in D.
        apply (blocks_apart ny py (cy (Z.of_nat r)) (cy (Z.of_nat k)) j
                 (start_index ny py (cy (Z.of_nat r)) + j
                  - start_index ny py (cy (Z.of_nat k))));
          try lia; assumption.
Qed.

Lemma gather_on_root (me : HeatSolverMPI) :
  proc w 0 = Some me -> 2 <= px * py ->
  exists g,
    gather_global_solution w me = Ok (Some g, [Call_gather; Call_Gatherv]) /\
    shape0 g = nx /\ shape1 g = ny /\
    forall r p, proc w r = Some p ->
      forall i j,
        0 <= i < local_size nx px (cx r) -> 0 <= j < local_size ny py (cy r) ->
        item g (start_index nx px (cx r) + i) (start_index ny py (cy r) + j)
        = item (u p) (i + 1) (j + 1).
Proof.
  intros Hme Hsz.
  pose proof Hready as (Hnx & Hny & Hpx & Hpy & Hl & H).
  destruct (H 0 me Hme) as (Hrk & Hsize & Cnx & Cny & Cd & _).
  destruct (gather_loop (config me) (mkArr nx ny (fun _ _ => Num 0))
              Cnx Cny Cd eq_refl eq_refl (length w) (le_n _))
    as (g & Hf & S0 & S1 & Hg).
  exists g. unfold gather_global_solution.
  replace (size me =? 1) with false by (symmetry; apply Z.eqb_neq; lia).
  rewrite Hrk, Z.eqb_refl. unfold np_zeros. rewrite Cnx, Cny.
  replace ((nx <? 0) || (ny <? 0)) with false
    by (symmetry; apply orb_false_iff; rewrite !Z.ltb_ge; lia).
  cbn [bind]. rewrite Hsize, <- Hl.
  unfold flats, sizes, blk in Hf. rewrite Hf. cbn [bind fst].
  split; [reflexivity|]. split; [assumption|]. split; [assumption|].
  intros r p Hp i j Hi Hj.
  apply proc_nth_error in Hp. destruct Hp as (Hr & Hp).
  assert (Hlt : (Z.to_nat r < length w)%nat) by (apply nth_error_Some; congruence).
  pose proof (Hg (Z.to_nat r) p Hlt Hp) as Hg'.
  rewrite Z2Nat.id in Hg' by lia. apply Hg'; assumption.
Qed.

End Gather.

Lemma gather_readyb_sound nx ny px py (w : world) :
  gather_readyb nx ny px py w = true -> gather_ready nx ny px py w.
Proof.
  unfold gather_readyb, gather_ready. intros H.
  rewrite !andb_true_iff, !Z.leb_le, Z.eqb_eq, forallb_forall in H.
  destruct H as (((((Hnx & Hny) & Hpx) & Hpy) & Hl) & H).
  repeat split; try assumption.
  all: assert (Hr : In r (zseq (px * py)))
    by (apply zseq_In; apply proc_nth_error in H0; destruct H0 as (? & H0);
        assert (Z.to_nat r < length w)%nat by (apply nth_error_Some; congruence);
        lia).
  all: specialize (H r Hr); rewrite H0 in H;
    rewrite !andb_true_iff, !Z.eqb_eq in H;
    destruct H as (((((((A1 & A2) & A3) & A4) & A5) & A6) & A7) & A8);
    try assumption.
  destruct (dims (config p)) as (d0, d1). cbn in A5, A6. congruence.
Qed.

(** C2. On a run laid out for a gather, with at least two processes the
    process of rank 0 gets back, after the two collective calls, an array
    of shape [(nx_global, ny_global)] in which the interior block of every
    process sits at the rows and columns the offset formula gives its
    coordinates, and every other process gets back [None]; with a single
    process the call returns the interior block of the local buffer and
    makes no collective call. *)
Theorem gather_places_blocks :
  forall (nx ny px py : Z) (w : world),
    gather_ready nx ny px py w ->
    (2 <= px * py ->
     (forall me, proc w 0 = Some me ->
        exists g,
          gather_global_solution w me
          = Ok (Some g, [Call_gather; Call_Gatherv]) /\
          shape0 g = nx /\ shape1 g = ny /\
          forall r p, proc w r = Some p ->
            forall i j,
              0 <= i < local_size nx px (fst (Get_coords (px, py) r)) ->
              0 <= j < local_size ny py (snd (Get_coords (px, py) r)) ->
              item g (start_index nx px (fst (Get_coords (px, py) r)) + i)
                     (start_index ny py (snd (Get_coords (px, py) r)) + j)
              = item (u p) (i + 1) (j + 1)) /\
     (forall r me, proc w r = Some me -> r <> 0 ->
        gather_global_solution w me = Ok (None, [Call_gather; Call_Gatherv]))) /\
    (px * py = 1 ->
     forall me, proc w 0 = Some me ->
       gather_global_solution w me
       = Ok (Some (get_block (u me) inner inner), [])).
Proof.
  intros nx ny px py w Hready. split; [intros Hsz; split|].
  - intros me Hme. apply (gather_on_root nx ny px py w Hready me Hme Hsz).
  - intros r me Hme Hr.
    destruct Hready as (_ & _ & _ & _ & _ & H).
    destruct (H r me Hme) as (Hrk & Hsize & _).
    unfold gather_global_solution.
    replace (size me =? 1) with false by (symmetry; apply Z.eqb_neq; lia).
    replace (rank me =? 0) with false by (symmetry; apply Z.eqb_neq; lia).
    reflexivity.
  - intros Hsz me Hme.
    destruct Hready as (_ & _ & _ & _ & _ & H).
    destruct (H 0 me Hme) as (_ & Hsize & _).
    unfold gather_global_solution.
    replace (size me =? 1) with true by (symmetry; apply Z.eqb_eq; lia).
    reflexivity.
Qed.

Lemma gather_places_blocks_witness :
  exists w me g,
    init_world 4 5 3 = Ok w /\ proc w 0 = Some me /\
    gather_global_solution w me = Ok (Some g, [Call_gather; Call_Gatherv]) /\
    shape0 g = 5 /\ shape1 g = 3.
Proof.
  assert (E : exists w me,
             init_world 4 5 3 = Ok w /\ proc w 0 = Some me /\
             gather_readyb 5 3 2 2 w = true).
  { do 2 eexists. split; [vm_compute; reflexivity|].
    split; [vm_compute; reflexivity|]. vm_compute. reflexivity. }
  destruct E as (w & me & Hw & Hme & Hrd).
  apply gather_readyb_sound in Hrd.
  destruct (gather_places_blocks 5 3 2 2 w Hrd) as (H2 & _).
  destruct H2 as (Hroot & _); [lia|].
  destruct (Hroot me Hme) as (g & Hg & S0 & S1 & _).
  exists w, me, g. repeat split; assumption.
Defined.

(** ** The snapshot text *)

Local Open Scope string_scope.

Lemma string_app_assoc (a b c : string) : (a ++ b) ++ c = a ++ (b ++ c).
Proof. induction a as [|x a IH]; cbn; [reflexivity | rewrite IH; reflexivity]. Qed.

Lemma string_app_nil_r (a : string) : a ++ "" = a.
Proof. induction a as [|x a IH]; cbn; [reflexivity | rewrite IH; reflexivity]. Qed.

Lemma clean_app bad (a b : string) :
  clean bad (a ++ b) = clean bad a && clean bad b.
Proof.
  induction a as [|x a IH]; cbn; [reflexivity|].
  rewrite IH. apply andb_assoc.
Qed.

Lemma blank_newline c : is_newline c = true -> is_blank c = true.
Proof.
  unfold is_newline, is_blank. intros H.
  apply Ascii.eqb_eq in H. subst c. reflexivity.
Qed.

Lemma clean_blank_newline (s : string) :
  clean is_blank s = true -> clean is_newline s = true.
Proof.
  induction s as [|c s IH]; cbn; [reflexivity|].
  intros H. apply andb_prop in H. destruct H as (Hc & Hs).
  rewrite IH by assumption.
  destruct (is_newline c) eqn:E; [|reflexivity].
  apply blank_newline in E. rewrite E in Hc. discriminate.
Qed.

Lemma clean_uint (d : Decimal.uint) :
  clean is_blank (NilEmpty.string_of_uint d) = true.
Proof. induction d; cbn; try reflexivity; assumption. Qed.

Lemma clean_str_of_Z (z : Z) : clean is_blank (str_of_Z z) = true.
Proof.
  unfold str_of_Z, NilZero.string_of_int.
  destruct (Z.to_int z) as [d|d].
  - unfold NilZero.string_of_uint. destruct d; try reflexivity; apply clean_uint.
  - cbn [clean]. change (is_blank "-") with false. cbn [negb andb].
    unfold NilZero.string_of_uint. destruct d; try reflexivity; apply clean_uint.
Qed.

Lemma digit_plain (d : Z) : 0 <= d < 10 -> is_blank (digit d) = false.
Proof.
  intros H. unfold digit.
  assert (E : (Z.to_nat d = 0 \/ Z.to_nat d = 1 \/ Z.to_nat d = 2 \/
               Z.to_nat d = 3 \/ Z.to_nat d = 4 \/ Z.to_nat d = 5 \/
               Z.to_nat d = 6 \/ Z.to_nat d = 7 \/ Z.to_nat d = 8 \/
               Z.to_nat d = 9)%nat) by lia.
  repeat (destruct E as [-> | E]; [reflexivity|]). rewrite E. reflexivity.
Qed.

Lemma clean_fixed_digits (k : nat) (n : Z) :
  clean is_blank (fixed_digits k n) = true.
Proof.
  induction k as [|k IH]; cbn [fixed_digits clean]; [reflexivity|].
  rewrite IH, digit_plain; [reflexivity|].
  apply Z.mod_pos_bound. lia.
Qed.


Lemma clean_format_6f (c : cell) : clean is_blank (format_6f c) = true.
Proof.
  destruct c as [q|]; [|reflexivity]. unfold format_6f.
  rewrite !clean_app, clean_str_of_Z, clean_fixed_digits.
  destruct (Qle_bool 0 q); reflexivity.
Qed.

Lemma format_6f_nonempty (c : cell) : format_6f c <> "".
Proof.
  destruct c as [q|]; [|discriminate]. unfold format_6f.
  destruct (Qle_bool 0 q); cbn [append]; [|discriminate].
  destruct (str_of_Z _); cbn; discriminate.
Qed.

Lemma string_length_app (a b : string) :
  String.length (a ++ b) = (String.length a + String.length b)%nat.
Proof. induction a as [|c a IH]; cbn; [reflexivity | rewrite IH; reflexivity]. Qed.

Lemma digits_value_str (t : Z) : 0 <= t -> digits_value (str_of_Z t) = Some t.
Proof.
  intros Ht. unfold digits_value, str_of_Z.
  destruct t as [|p|p]; [reflexivity| |lia].
  cbn [Z.to_int NilZero.string_of_int]. unfold NilZero.string_of_uint.
  pose proof (DecimalPos.Unsigned.to_uint_nonnil p) as Hn.
  destruct (Pos.to_uint p) eqn:E; try contradiction;
    rewrite <- E, NilEmpty.usu; cbn [option_map]; unfold Z.of_uint;
    rewrite DecimalPos.Unsigned.of_to; reflexivity.
Qed.









Lemma split_lines_clean (s t cur : string) :
  clean is_newline s = true ->
  split_lines cur (s ++ t) = split_lines (cur ++ s) t.
Proof.
  revert cur. induction s as [|c s IH]; intros cur H.
  - rewrite string_app_nil_r. reflexivity.
  - cbn in H. apply andb_prop in H. destruct H as (Hc & Hs).
    cbn [append split_lines].
    destruct (is_newline c); [discriminate|].
    rewrite IH by assumption. rewrite string_app_assoc. reflexivity.
Qed.

Lemma lines_cons (s t : string) :
  clean is_newline s = true -> lines (s ++ nl ++ t) = s :: lines t.
Proof.
  intros H. unfold lines. rewrite split_lines_clean by assumption.
  reflexivity.
Qed.

Lemma lines_join {A : Type} (body : A -> string) (l : list A) :
  (forall a, In a l -> clean is_newline (body a) = true) ->
  lines (join (map (fun a => body a ++ nl) l)) = map body l.
Proof.
  induction l as [|a l IH]; intros H; [reflexivity|].
  cbn [map join]. rewrite string_app_assoc.
  rewrite lines_cons by (apply H; left; reflexivity).
  rewrite IH by (intros b Hb; apply H; right; exact Hb). reflexivity.
Qed.

Lemma split_words_clean (s t cur : string) :
  clean is_blank s = true ->
  split_words cur (s ++ t) = split_words (cur ++ s) t.
Proof.
  revert cur. induction s as [|c s IH]; intros cur H.
  - rewrite string_app_nil_r. reflexivity.
  - cbn in H. apply andb_prop in H. destruct H as (Hc & Hs).
    cbn [append split_words].
    destruct (is_blank c); [discriminate|].
    rewrite IH by assumption. rewrite string_app_assoc. reflexivity.
Qed.

Lemma words_cons (s t : string) :
  clean is_blank s = true -> s <> "" ->
  words (s ++ " " ++ t) = s :: words t.
Proof.
  intros H Hne. unfold words. rewrite split_words_clean by assumption.
  cbn. destruct s; [congruence | reflexivity].
Qed.

Lemma words_join {A : Type} (tok : A -> string) (l : list A) :
  (forall a, In a l -> clean is_blank (tok a) = true /\ tok a <> "") ->
  words (join (map (fun a => tok a ++ " ") l)) = map tok l.
Proof.
  induction l as [|a l IH]; intros H; [reflexivity|].
  cbn [map join]. rewrite string_app_assoc.
  destruct (H a (or_introl eq_refl)) as (Hc & Hn).
  rewrite words_cons by assumption.
  rewrite IH by (intros b Hb; apply H; right; exact Hb). reflexivity.
Qed.

Lemma get_item_Ok a i j :
  0 <= i < shape0 a -> 0 <= j < shape1 a -> get_item a i j = Ok (item a i j).
Proof.
  intros Hi Hj. unfold get_item.
  rewrite !py_index_nonneg by assumption. reflexivity.
Qed.

Lemma row_text_Ok cfg g i :
  shape1 g = ny_global cfg -> 0 <= i < shape0 g ->
  row_text cfg g i = Ok (row_body g (ny_global cfg) i ++ nl).
Proof.
  intros H1 Hi. unfold row_text, row_body.
  rewrite (mapM_Ok _ (fun j => format_6f (item g i j) ++ " ")).
  - reflexivity.
  - intros j Hj. apply zseq_In in Hj.
    rewrite get_item_Ok by lia. reflexivity.
Qed.

Lemma clean_row_body g ny i : clean is_newline (row_body g ny i) = true.
Proof.
  unfold row_body. induction (zseq ny) as [|j l IH]; [reflexivity|].
  cbn [map join]. rewrite !clean_app, IH.
  rewrite (clean_blank_newline _ (clean_format_6f _)). reflexivity.
Qed.

(** The lines of the text written for a global array of the configured
    shape, and the values of its data lines. *)
Lemma snapshot_lines :
  forall (cfg : GridConfig) (timestep : Z) (g : ndarray),
    shape0 g = nx_global cfg -> shape1 g = ny_global cfg ->
    exists text rows,
      snapshot_text cfg timestep g = Ok text /\
      lines text
      = ("# Heat equation solution at timestep " ++ str_of_Z timestep)
        :: (" # nx=" ++ str_of_Z (nx_global cfg)
            ++ " ny=" ++ str_of_Z (ny_global cfg)
            ++ " time="
            ++ format_6f (Num (float_mul (float_of_int timestep) (dt cfg))))
        :: rows /\
      Z.of_nat (length rows) = Z.max 0 (nx_global cfg) /\
      (forall i, (0 <= i < nx_global cfg)%Z ->
         words (nth (Z.to_nat i) rows "")
         = map (fun j => format_6f (item g i j)) (zseq (ny_global cfg))).
Proof.
  intros cfg timestep g H0 H1.
  exists (header1 timestep ++ header2 cfg timestep
          ++ join (map (fun i => row_body g (ny_global cfg) i ++ nl)
                       (zseq (nx_global cfg)))).
  exists (map (row_body g (ny_global cfg)) (zseq (nx_global cfg))).
  split; [|split; [|split]].
  - unfold snapshot_text.
    rewrite (mapM_Ok _ (fun i => row_body g (ny_global cfg) i ++ nl)).
    + reflexivity.
    + intros i Hi. apply zseq_In in Hi. apply row_text_Ok; [assumption | lia].
  - unfold header1, header2.
    rewrite !string_app_assoc.
    rewrite <- (string_app_assoc "# Heat equation solution at timestep ").
    rewrite (lines_cons ("# Heat equation solution at timestep " ++ str_of_Z timestep)).
    2:{ rewrite clean_app, (clean_blank_newline _ (clean_str_of_Z _)).
        reflexivity. }
    f_equal.
    transitivity
      (lines ((" # nx=" ++ str_of_Z (nx_global cfg)
               ++ " ny=" ++ str_of_Z (ny_global cfg)
               ++ " time="
               ++ format_6f (Num (float_mul (float_of_int timestep) (dt cfg))))
              ++ nl
              ++ join (map (fun i => row_body g (ny_global cfg) i ++ nl)
                           (zseq (nx_global cfg))))).
    { f_equal. rewrite !string_app_assoc. reflexivity. }
    rewrite lines_cons.
    2:{ rewrite !clean_app.
        rewrite !(clean_blank_newline _ (clean_str_of_Z _)).
        rewrite (clean_blank_newline _ (clean_format_6f _)). reflexivity. }
    rewrite lines_join by (intros i _; apply clean_row_body).
    reflexivity.
  - rewrite length_map. apply zseq_length.
  - intros i Hi.
    rewrite nth_indep with (d' := row_body g (ny_global cfg) 0)
      by (rewrite length_map; unfold zseq; rewrite length_map, length_seq; lia).
    rewrite (map_nth (row_body g (ny_global cfg)) (zseq (nx_global cfg)) 0%Z).
    rewrite zseq_nth by lia.
    unfold row_body. apply words_join.
    intros j _. split; [apply clean_format_6f | apply format_6f_nonempty].
Qed.



Local Close Scope string_scope.

(** ** Construction *)

Lemma Compute_dims_spec (size : Z) :
  1 <= size ->
  1 <= snd (Compute_dims size) /\ 1 <= fst (Compute_dims size) /\
  fst (Compute_dims size) * snd (Compute_dims size) = size.
Proof.
  intros Hs. unfold Compute_dims. cbv zeta. cbn [fst snd].
  set (f := fun best d : Z =>
              if (d * d <=? size) && (size mod d =? 0) then d else best).
  assert (Inv : forall l best,
            (forall d, In d l -> 1 <= d) ->
            (1 <= best /\ best * best <= size /\ size mod best = 0) ->
            1 <= fold_left f l best /\
            fold_left f l best * fold_left f l best <= size /\
            size mod fold_left f l best = 0).
  { induction l as [|d l IH]; intros best Hl Hb; [exact Hb|].
    cbn [fold_left]. apply IH; [intros x Hx; apply Hl; right; exact Hx|].
    unfold f. destruct ((d * d <=? size) && (size mod d =? 0)) eqn:E;
      [|exact Hb].
    apply andb_prop in E. destruct E as (E1 & E2).
    apply Z.leb_le in E1. apply Z.eqb_eq in E2.
    split; [apply Hl; left; reflexivity | split; assumption]. }
  destruct (Inv (map (Z.add 1) (zseq size)) 1) as (H1 & H2 & H3).
  { intros d Hd. apply in_map_iff in Hd. destruct Hd as (x & <- & Hx).
    apply zseq_In in Hx. lia. }
  { split; [lia|]. split; [lia | apply Z.mod_1_r]. }
  set (py := fold_left f (map (Z.add 1) (zseq size)) 1) in *.
  pose proof (Z.div_mod size py ltac:(lia)) as Hdm.
  split; [exact H1|]. split; [|nia].
  assert (py <= size) by nia.
  apply Z.div_le_lower_bound; lia.
Qed.

Lemma spacing_Ok (n : Z) :
  n <> 1 -> spacing n = Ok (1 / inject_Z (n - 1))%Q.
Proof.
  intros H. unfold spacing. apply py_div_Ok.
  intros E. unfold Qeq in E. cbn in E. lia.
Qed.

Lemma spacing_one : spacing 1 = Raise ZeroDivisionError.
Proof. reflexivity. Qed.

Lemma spacing_cases (n : Z) :
  spacing n = Raise ZeroDivisionError \/ exists d, spacing n = Ok d.
Proof.
  unfold spacing, py_div. destruct (Qeq_bool (inject_Z (n - 1)) 0); eauto.
Qed.

Lemma local_size_le N P c : 0 <= N -> 0 < P -> local_size N P c <= N + 1.
Proof.
  intros HN HP. unfold local_size. cbv zeta.
  assert (N / P <= N) by (apply Z.div_le_upper_bound; nia).
  destruct (c <? N mod P); lia.
Qed.

Lemma np_full_Ok (a b : Z) (v : cell) :
  0 <= a <= 1027 -> 0 <= b <= 1027 ->
  np_full a b v = Ok (mkArr a b (fun _ _ => v)).
Proof.
  intros Ha Hb. unfold np_full, too_big, NPY_MAX_INTP.
  assert (Hab : 8 * (if a =? 0 then 1 else a) * (if b =? 0 then 1 else b)
                <= 8 * 1027 * 1027).
  { destruct (a =? 0), (b =? 0); nia. }
  replace ((a <? 0) || (b <? 0)
           || (2 ^ 63 - 1 <? 8 * (if a =? 0 then 1 else a) * (if b =? 0 then 1 else b)))
    with false; [reflexivity|].
  symmetry. rewrite !orb_false_iff, !Z.ltb_ge. lia.
Qed.

(** C8 (amended). Construction checks nothing by itself. It raises a
    division by zero when a grid size is 1, from the grid spacing
    [1/(N-1)]; with at least one process it succeeds on every other pair
    of grid sizes from 0 to 1024, the invalid size 0 included, with a
    topology whose dimensions multiply to the process count; and whenever
    it succeeds the sizes are stored as given. Beyond those sizes the two
    buffers have to be allocated, which the size of the arrays of numpy
    and the memory of the machine limit. *)
Theorem construction_outcome (size rank nx ny : Z) :
  (nx = 1 -> init size rank nx ny = Raise ZeroDivisionError) /\
  (0 <= nx <= 1024 -> ny = 1 -> init size rank nx ny = Raise ZeroDivisionError) /\
  (1 <= size -> 0 <= nx <= 1024 -> 0 <= ny <= 1024 -> nx <> 1 -> ny <> 1 ->
   exists s,
     init size rank nx ny = Ok s /\
     nx_global (config s) = nx /\ ny_global (config s) = ny /\
     dims (config s) = Compute_dims size /\
     fst (dims (config s)) * snd (dims (config s)) = size) /\
  (forall s, init size rank nx ny = Ok s ->
     nx_global (config s) = nx /\ ny_global (config s) = ny).
Proof.
  split; [|split; [|split]].
  - intros ->. unfold init, setup_topology. cbv zeta.
    rewrite spacing_one. reflexivity.
  - intros _ ->. unfold init, setup_topology. cbv zeta.
    rewrite spacing_one.
    destruct (spacing_cases nx) as [-> | (d & ->)]; reflexivity.
  - intros Hs Hnx Hny Hx1 Hy1.
    destruct (Compute_dims_spec size Hs) as (Hpy & Hpx & Hmul).
    unfold init, setup_topology. cbv zeta.
    rewrite (spacing_Ok nx Hx1), (spacing_Ok ny Hy1). cbn [bind].
    unfold time_step. rewrite py_div_Ok by discriminate. cbn [bind fst snd].
    unfold initialize_grid. cbn [nx_local ny_local].
    pose proof (local_size_nonneg nx (fst (Compute_dims size))
                  (fst (Get_coords (Compute_dims size) rank))
                  ltac:(lia) ltac:(lia)) as L0.
    pose proof (local_size_nonneg ny (snd (Compute_dims size))
                  (snd (Get_coords (Compute_dims size) rank))
                  ltac:(lia) ltac:(lia)) as L1.
    pose proof (local_size_le nx (fst (Compute_dims size))
                  (fst (Get_coords (Compute_dims size) rank))
                  ltac:(lia) ltac:(lia)) as U0.
    pose proof (local_size_le ny (snd (Compute_dims size))
                  (snd (Get_coords (Compute_dims size) rank))
                  ltac:(lia) ltac:(lia)) as U1.
    rewrite np_full_Ok by lia.
    cbn [bind].
    match goal with |- context [apply_boundary_conditions ?t] =>
      destruct (enforcement_cells t) as (s & Hr & _ & _ & _ & Hc & _);
        [cbn [u u_new shape0 shape1]; lia ..|]
    end.
    exists s. split; [exact Hr|]. rewrite Hc. cbn [config nx_global ny_global dims].
    repeat split; try reflexivity. exact Hmul.
  - intros s H. unfold init in H. inv_bind H.
    destruct x as (nb, cfg). apply setup_topology_config in E.
    destruct E as (Enx & Eny & _).
    cbn [fst snd] in H. unfold initialize_grid in H.
    inv_bind H. inv_bind H.
    assert (Hc : forall t t', apply_boundary_conditions t = Ok t' ->
              config t' = config t).
    { clear. intros t t' H. unfold apply_boundary_conditions in H.
      inv_bind H. inv_bind H. inv_bind H.
      repeat match goal with
      | H : (if ?c then _ else _) = Ok _ |- _ => destruct c
      | H : bind _ _ = Ok _ |- _ => inv_bind H
      | H : Ok _ = Ok _ |- _ => injection H as <-
      end; reflexivity. }
    apply Hc in H. rewrite H. cbn [config]. split; assumption.
Qed.

Lemma construction_outcome_witness :
  exists s, init 4 3 0 8 = Ok s /\ nx_global (config s) = 0 /\
            fst (dims (config s)) * snd (dims (config s)) = 4.
Proof.
  destruct (construction_outcome 4 3 0 8) as (_ & _ & H & _).
  destruct H as (s & Hs & Hx & _ & _ & Hd); try lia.
  exists s. repeat split; assumption.
Defined.

(** C8, as stated, fails: a grid of 0 x 4 points is not a valid grid, yet
    the single process of a run constructs its solver on it, with a local
    field of two halo rows and no interior row. *)
Lemma construction_accepts_zero_size :
  exists s,
    init 1 0 0 4 = Ok s /\ nx_global (config s) = 0 /\
    nx_local (config s) = 0 /\ shape0 (u s) = 2.
Proof.
  eexists. split; [vm_compute; reflexivity|]. repeat split.
Qed.

(** * Further properties of the solver *)

(** ** The partition of an axis, continued *)

(** The partition is balanced: along an axis, every coordinate gets
    [N // P] or [N // P + 1] cells, and a larger coordinate never gets more
    cells than a smaller one. *)
Theorem local_size_balanced :
  forall N P c c' : Z,
    c <= c' ->
    N / P <= local_size N P c' /\
    local_size N P c' <= local_size N P c /\
    local_size N P c <= N / P + 1.
Proof.
  intros N P c c' Hc. unfold local_size. cbv zeta.
  destruct (Z.ltb_spec c (N mod P)), (Z.ltb_spec c' (N mod P)); lia.
Qed.

Lemma local_size_balanced_witness :
  10 / 4 <= local_size 10 4 3 /\
  local_size 10 4 3 <= local_size 10 4 1 /\
  local_size 10 4 1 <= 10 / 4 + 1.
Proof. apply (local_size_balanced 10 4 1 3). lia. Defined.

(** A coordinate of the process grid owns no cell of an axis of [N] cells
    exactly when the coordinate is [N] or more: with more processes than
    cells along an axis, the last [P - N] coordinates get an empty block. *)
Theorem local_size_zero :
  forall N P c : Z,
    0 <= N -> 1 <= P -> 0 <= c < P ->
    (local_size N P c = 0 <-> N <= c) /\ 0 <= local_size N P c.
Proof.
  intros N P c HN HP Hc. unfold local_size. cbv zeta.
  pose proof (Z.div_mod N P ltac:(lia)) as E.
  pose proof (Z.mod_pos_bound N P ltac:(lia)) as Hr.
  pose proof (Z.div_pos N P HN ltac:(lia)) as Hq.
  destruct (Z.ltb_spec c (N mod P));
    (split; [split; intros H' |]); try lia; nia.
Qed.

Lemma local_size_zero_witness :
  (local_size 2 5 3 = 0 <-> 2 <= 3) /\ 0 <= local_size 2 5 3.
Proof. apply (local_size_zero 2 5 3); lia. Defined.

Lemma start_index_0 N P : 1 <= P -> 0 <= N -> start_index N P 0 = 0.
Proof.
  intros HP HN. unfold start_index. cbv zeta.
  pose proof (Z.mod_pos_bound N P ltac:(lia)). lia.
Qed.

Lemma owner_exists N P a :
  0 <= N -> 1 <= P ->
  forall k : nat, 0 <= a < start_index N P (Z.of_nat k) ->
    exists c, 0 <= c < Z.of_nat k /\
      start_index N P c <= a < start_index N P c + local_size N P c.
Proof.
  intros HN HP. induction k as [|k IH]; intros Ha.
  - rewrite start_index_0 in Ha by assumption. lia.
  - destruct (Z.lt_ge_cases a (start_index N P (Z.of_nat k))) as [Hlt | Hge].
    + destruct IH as (c & Hc & Hin); [lia|]. exists c. split; [lia | exact Hin].
    + exists (Z.of_nat k). split; [lia|].
      rewrite start_index_step by lia.
      replace (Z.of_nat k + 1) with (Z.of_nat (S k)) by lia. lia.
Qed.

(** Every cell index of an axis belongs to the block of exactly one
    coordinate: the blocks [start_index .. start_index + local_size - 1] of
    the coordinates [0 .. P-1] cover [0 .. N-1] and do not overlap. *)
Theorem every_index_has_one_owner :
  forall N P a : Z,
    1 <= P -> 0 <= a < N ->
    exists c,
      0 <= c < P /\
      start_index N P c <= a < start_index N P c + local_size N P c /\
      forall c', 0 <= c' < P ->
        start_index N P c' <= a < start_index N P c' + local_size N P c' ->
        c' = c.
Proof.
  intros N P a HP Ha.
  destruct (owner_exists N P a ltac:(lia) HP (Z.to_nat P)) as (c & Hc & Hin).
  { rewrite Z2Nat.id by lia. rewrite start_index_total by lia. lia. }
  exists c. split; [lia|]. split; [exact Hin|].
  intros c' Hc' Hin'.
  destruct (Z.eq_dec c' c) as [E | E]; [exact E|]. exfalso.
  apply (blocks_apart N P c' c (a - start_index N P c') (a - start_index N P c));
    try lia.
Qed.

Lemma every_index_has_one_owner_witness :
  exists c,
    0 <= c < 4 /\
    start_index 10 4 c <= 7 < start_index 10 4 c + local_size 10 4 c /\
    forall c', 0 <= c' < 4 ->
      start_index 10 4 c' <= 7 < start_index 10 4 c' + local_size 10 4 c' ->
      c' = c.
Proof. apply (every_index_has_one_owner 10 4 7); lia. Defined.

(** ** Construction, continued *)

Lemma setup_topology_inv size rank nx ny nb cfg :
  setup_topology size rank nx ny = Ok (nb, cfg) ->
  exists dx dy dt,
    spacing nx = Ok dx /\ spacing ny = Ok dy /\
    time_step ALPHA dx dy = Ok dt /\
    nb = mkNeighbors
           (fst (Shift (Compute_dims size) (Get_coords (Compute_dims size) rank) 0 1))
           (snd (Shift (Compute_dims size) (Get_coords (Compute_dims size) rank) 0 1))
           (fst (Shift (Compute_dims size) (Get_coords (Compute_dims size) rank) 1 (-1)))
           (snd (Shift (Compute_dims size) (Get_coords (Compute_dims size) rank) 1 1)) /\
    cfg = mkGridConfig nx ny
            (local_size nx (fst (Compute_dims size))
                        (fst (Get_coords (Compute_dims size) rank)))
            (local_size ny (snd (Compute_dims size))
                        (snd (Get_coords (Compute_dims size) rank)))
            dx dy dt (Get_coords (Compute_dims size) rank) (Compute_dims size).
Proof.
  unfold setup_topology. cbv zeta. intros H.
  inv_bind H. inv_bind H. inv_bind H. inversion H; subst.
  exists x, x0, x1. repeat split; assumption.
Qed.

Lemma init_inv np rk nx ny s :
  1 <= np -> 0 <= nx -> 0 <= ny ->
  init np rk nx ny = Ok s ->
  exists nb cfg,
    setup_topology np rk nx ny = Ok (nb, cfg) /\
    rank s = rk /\ size s = np /\ neighbors s = nb /\ config s = cfg /\
    0 <= nx_local cfg /\ 0 <= ny_local cfg /\
    shaped s /\
    (forall i j, 0 <= i < shape0 (u s) -> 0 <= j < shape1 (u s) ->
       item (u s) i j
       = enforced nb (shape0 (u s)) (shape1 (u s)) i j T_INITIAL) /\
    (forall i j, 0 <= i < shape0 (u s) -> 0 <= j < shape1 (u s) ->
       item (u_new s) i j
       = enforced nb (shape0 (u s)) (shape1 (u s)) i j T_INITIAL).
Proof.
  intros Hs Hnx Hny H. unfold init in H. inv_bind H.
  destruct x as (nb, cfg). cbn [fst snd] in H.
  exists nb, cfg. split; [exact E|].
  destruct (setup_topology_inv _ _ _ _ _ _ E) as (dx & dy & dt & _ & _ & _ & _ & Hc).
  destruct (Compute_dims_spec np Hs) as (Hpy & Hpx & _).
  assert (L0 : 0 <= nx_local cfg).
  { rewrite Hc. cbn [nx_local]. apply local_size_nonneg; lia. }
  assert (L1 : 0 <= ny_local cfg).
  { rewrite Hc. cbn [ny_local]. apply local_size_nonneg; lia. }
  unfold initialize_grid, np_full in H.
  destruct ((nx_local cfg + 2 <? 0) || (ny_local cfg + 2 <? 0)
            || too_big (nx_local cfg + 2) (ny_local cfg + 2));
    [discriminate H|].
  cbn [bind] in H.
  match type of H with apply_boundary_conditions ?t = _ =>
    destruct (enforcement_cells t) as
      (s' & Hr & Hrk & Hsz & Hnb & Hcf & S0 & S1 & S2 & S3 & Ta & Tb);
      [cbn [u u_new shape0 shape1]; lia ..|]
  end.
  rewrite Hr in H. injection H as <-.
  cbn [rank size neighbors config u u_new shape0 shape1 item] in *.
  do 6 (split; [assumption|]).
  split; [unfold shaped; rewrite Hcf; lia|].
  split; intros i j Hi Hj; rewrite S0, S1 in *; [apply Ta | apply Tb];
    assumption.
Qed.

(** The state of a freshly constructed solver: the two buffers have the
    configured shape and hold the same values; every interior cell holds
    the initial temperature, and every halo cell holds the initial
    temperature unless boundary enforcement wrote it. *)
Theorem construction_state :
  forall (np rk nx ny : Z) (s : HeatSolverMPI),
    1 <= np -> 0 <= nx -> 0 <= ny ->
    init np rk nx ny = Ok s ->
    rank s = rk /\ size s = np /\ shaped s /\
    (forall i j, 0 <= i < shape0 (u s) -> 0 <= j < shape1 (u s) ->
       item (u_new s) i j = item (u s) i j) /\
    (forall i j,
       1 <= i <= nx_local (config s) -> 1 <= j <= ny_local (config s) ->
       item (u s) i j = T_INITIAL) /\
    (forall i j, 0 <= i < shape0 (u s) -> 0 <= j < shape1 (u s) ->
       item (u s) i j
       = enforced (neighbors s) (shape0 (u s)) (shape1 (u s)) i j T_INITIAL).
Proof.
  intros np rk nx ny s Hs Hnx Hny H.
  destruct (init_inv _ _ _ _ _ Hs Hnx Hny H) as
    (nb & cfg & _ & Hrk & Hsz & Hnb & Hcf & L0 & L1 & Hsh & Ta & Tb).
  split; [exact Hrk|]. split; [exact Hsz|]. split; [exact Hsh|].
  destruct Hsh as (S0 & S1 & _). rewrite Hnb, Hcf.
  split; [|split].
  - intros i j Hi Hj. rewrite Ta, Tb by assumption. reflexivity.
  - intros i j Hi Hj. rewrite Hcf in S0, S1.
    rewrite Ta by lia. apply enforced_interior; lia.
  - exact Ta.
Qed.

Lemma construction_state_witness :
  exists s, init 4 1 6 6 = Ok s /\ item (u s) 2 3 = T_INITIAL.
Proof.
  assert (E : exists s, init 4 1 6 6 = Ok s /\
                        nx_local (config s) = 3 /\ ny_local (config s) = 3).
  { eexists. split; [vm_compute; reflexivity|]. split; reflexivity. }
  destruct E as (s & Hs & H0 & H1).
  exists s. split; [exact Hs|].
  destruct (construction_state 4 1 6 6 s) as (_ & _ & _ & _ & Hi & _);
    try lia; try exact Hs.
  apply Hi; lia.
Defined.

Lemma cart_rank_null px py cx cy :
  0 <= cx < px -> 0 <= cy ->
  (proc_null (cart_rank (px, py) (cx, cy)) = true <-> py <= cy).
Proof.
  intros Hx Hy. unfold cart_rank.
  destruct (Z.leb_spec 0 cx), (Z.ltb_spec cx px), (Z.leb_spec 0 cy),
    (Z.ltb_spec cy py); cbn [andb proc_null]; split; intros; try lia;
    try discriminate; reflexivity.
Qed.

(** The ['west'] entry of the neighbour table is the process one column
    up, the same as the ['east'] entry. So a constructed solver has no
    west neighbour in its table exactly when it lies in the last process
    column, and its west halo column holds the cold boundary value exactly
    then; in every other column, the first one included, the west halo
    column still holds the initial temperature. *)
Theorem west_entry_is_east_neighbour :
  forall (np rk nx ny : Z) (s : HeatSolverMPI),
    1 <= np -> 0 <= rk < np -> 0 <= nx -> 0 <= ny ->
    init np rk nx ny = Ok s ->
    west (neighbors s) = east (neighbors s) /\
    (proc_null (west (neighbors s)) = true
     <-> snd (coords (config s)) = snd (dims (config s)) - 1) /\
    forall i, 1 <= i <= nx_local (config s) ->
      item (u s) i 0
      = if snd (coords (config s)) =? snd (dims (config s)) - 1
        then T_COLD else T_INITIAL.
Proof.
  intros np rk nx ny s Hs Hr Hnx Hny H.
  destruct (init_inv _ _ _ _ _ Hs Hnx Hny H) as
    (nb & cfg & E & _ & _ & Hnb & Hcf & L0 & L1 & Hsh & Ta & _).
  destruct (setup_topology_inv _ _ _ _ _ _ E) as
    (dx & dy & dt & _ & _ & _ & En & Ec).
  destruct (Compute_dims_spec np Hs) as (Hpy & Hpx & Hmul).
  destruct (Compute_dims np) as (px, py) eqn:Ed. cbn [fst snd] in *.
  destruct (coords_range px py rk Hpx Hpy ltac:(lia)) as (Rx & Ry).
  destruct (Get_coords (px, py) rk) as (cx, cy) eqn:Eg. cbn [fst snd] in *.
  assert (Ew : west nb = cart_rank (px, py) (cx, cy + 1)).
  { rewrite En. cbn [west]. unfold Shift. change (1 =? 0) with false.
    cbv iota. cbn [fst]. replace (cy - -1) with (cy + 1) by lia. reflexivity. }
  assert (Ee : east nb = cart_rank (px, py) (cx, cy + 1)).
  { rewrite En. cbn [east]. unfold Shift. change (1 =? 0) with false.
    cbv iota. cbn [snd]. reflexivity. }
  assert (Hnull : proc_null (west nb) = true <-> cy = py - 1).
  { rewrite Ew, cart_rank_null by lia. lia. }
  assert (Hco : snd (coords cfg) = cy) by (rewrite Ec; reflexivity).
  assert (Hdi : snd (dims cfg) = py) by (rewrite Ec; reflexivity).
  rewrite Hnb, Hcf, Hco, Hdi.
  split; [congruence|]. split; [exact Hnull|].
  intros i Hi. destruct Hsh as (S0 & S1 & _). rewrite Hcf in S0, S1.
  rewrite Ta by lia. unfold enforced.
  replace (0 =? shape1 (u s) - 1) with false by (symmetry; apply Z.eqb_neq; lia).
  replace (i =? shape0 (u s) - 1) with false by (symmetry; apply Z.eqb_neq; lia).
  replace (i =? 0) with false by (symmetry; apply Z.eqb_neq; lia).
  rewrite !andb_false_r. change (0 =? 0) with true. rewrite andb_true_r.
  destruct (Z.eqb_spec cy (py - 1)) as [Ey | Ey].
  - rewrite (proj2 Hnull Ey). reflexivity.
  - destruct (proc_null (west nb)) eqn:Ez; [|reflexivity].
    exfalso. apply Ey, Hnull. reflexivity.
Qed.

Lemma west_entry_is_east_neighbour_witness :
  exists s, init 4 0 6 6 = Ok s /\
            west (neighbors s) = east (neighbors s) /\
            item (u s) 1 0 = T_INITIAL.
Proof.
  assert (E : exists s, init 4 0 6 6 = Ok s /\
                        nx_local (config s) = 3 /\
                        snd (coords (config s)) = 0 /\
                        snd (dims (config s)) = 2).
  { eexists. split; [vm_compute; reflexivity|]. repeat split. }
  destruct E as (s & Hs & H0 & H1 & H2).
  exists s. split; [exact Hs|].
  destruct (west_entry_is_east_neighbour 4 0 6 6 s) as (Hw & _ & Hi);
    try lia; try exact Hs.
  split; [exact Hw|]. rewrite Hi by lia. rewrite H1, H2. reflexivity.
Defined.

(** ** Boundary enforcement, continued *)

Lemma enforced_twice nb n m i j c :
  enforced nb n m i j (enforced nb n m i j c) = enforced nb n m i j c.
Proof.
  unfold enforced.
  destruct (proc_null (east nb) && (j =? m - 1)); [reflexivity|].
  destruct (proc_null (west nb) && (j =? 0)); [reflexivity|].
  destruct (proc_null (south nb) && (i =? n - 1)); [reflexivity|].
  destruct (proc_null (north nb) && (i =? 0)); reflexivity.
Qed.

(** Boundary enforcement is idempotent: applied to its own result, it
    succeeds again and changes no cell of either buffer. *)
Theorem boundary_conditions_idempotent :
  forall s : HeatSolverMPI,
    1 <= shape0 (u s) -> 1 <= shape1 (u s) ->
    1 <= shape0 (u_new s) -> 1 <= shape1 (u_new s) ->
    exists s' s'',
      apply_boundary_conditions s = Ok s' /\
      apply_boundary_conditions s' = Ok s'' /\
      same_solver s'' s'.
Proof.
  intros s Ha0 Ha1 Hb0 Hb1.
  destruct (enforcement_cells s) as
    (s' & Hr & Hrk & Hsz & Hnb & Hcf & S0 & S1 & S2 & S3 & Ta & Tb);
    try assumption.
  destruct (enforcement_cells s') as
    (s'' & Hr' & Hrk' & Hsz' & Hnb' & Hcf' & S0' & S1' & S2' & S3' & Ta' & Tb');
    try lia.
  exists s', s''. split; [exact Hr|]. split; [exact Hr'|].
  unfold same_solver, same_array.
  repeat split; try assumption.
  - intros i j Hi Hj. rewrite S0', S1' in *.
    rewrite Ta' by assumption. rewrite S0, S1 in *. rewrite Ta by assumption.
    rewrite Hnb. apply enforced_twice.
  - intros i j Hi Hj. rewrite S2', S3' in *.
    rewrite Tb' by assumption. rewrite S2, S3 in *. rewrite Tb by assumption.
    rewrite Hnb. apply enforced_twice.
Qed.

Lemma boundary_conditions_idempotent_witness :
  exists s s' s'',
    init 1 0 2 2 = Ok s /\
    apply_boundary_conditions s = Ok s' /\
    apply_boundary_conditions s' = Ok s'' /\
    same_solver s'' s'.
Proof.
  assert (E : exists s, init 1 0 2 2 = Ok s /\
               shape0 (u s) = 4 /\ shape1 (u s) = 4 /\
               shape0 (u_new s) = 4 /\ shape1 (u_new s) = 4).
  { eexists. split; [vm_compute; reflexivity|]. repeat split. }
  destruct E as (s & Hs & H0 & H1 & H2 & H3).
  destruct (boundary_conditions_idempotent s) as (s' & s'' & A & B & C);
    try lia.
  exists s, s', s''. repeat split; try assumption; apply C.
Defined.

(** ** The halo exchange, continued *)

Lemma nth_cell_map_zseq (f : Z -> cell) n k :
  0 <= k < n -> nth_cell (map f (zseq n)) k = f k.
Proof.
  intros H. unfold nth_cell.
  rewrite nth_indep with (d' := f 0)
    by (rewrite length_map; pose proof (zseq_length n); lia).
  rewrite map_nth. f_equal. apply zseq_nth. exact H.
Qed.

Lemma received_from_nobody w sent dest source p m :
  source p = None -> received w sent dest source p = Ok m -> m = PyNone.
Proof. unfold received. intros ->. congruence. Qed.

Lemma received_from w sent dest source p q m :
  source p = Some q -> received w sent dest source p = Ok m ->
  exists pq,
    proc w q = Some pq /\ dest pq = Some (rank p) /\
    m = Vec (nth (Z.to_nat q) sent []).
Proof.
  unfold received. intros ->.
  destruct (proc w q) as [pq|]; [|discriminate].
  destruct (dest pq) as [d|] eqn:Ed; [|discriminate].
  destruct (Z.eqb_spec d (rank p)); [|discriminate].
  intros H. injection H as <-. exists pq. subst d. repeat split. exact Ed.
Qed.

Lemma sent_nth (sendobj : ndarray -> result (list cell)) (w : world) sent q pq :
  mapM (fun p => sendobj (u p)) w = Ok sent -> proc w q = Some pq ->
  sendobj (u pq) = Ok (nth (Z.to_nat q) sent []).
Proof.
  intros Hs Hq. apply proc_nth_error in Hq. destruct Hq as (_ & Hq).
  destruct (mapM_nth_error _ _ _ Hs _ _ Hq) as (v & Hv & Hsend).
  rewrite Hsend. f_equal. symmetry. apply nth_error_nth. exact Hv.
Qed.

Lemma broadcast1_Vec len l f :
  Z.of_nat (length l) = len -> broadcast1 len (Vec l) = Ok f -> f = nth_cell l.
Proof.
  intros E. unfold broadcast1. rewrite (proj2 (Z.eqb_eq _ _) E). congruence.
Qed.

Section RowPhase.

Variables ksend kstore : Z.
Variables dest source : HeatSolverMPI -> option Z.

Lemma row_phase (w w1 : world) (r : nat) (p : HeatSolverMPI) :
  exchange_phase w (fun u => get_row u ksend inner) dest source
    (fun u m => set_row u kstore inner m) = Ok w1 ->
  nth_error w r = Some p ->
  exists p1 rs i0,
    nth_error w1 r = Some p1 /\
    py_index (shape0 (u p)) kstore = Ok rs /\
    py_index (shape0 (u p)) ksend = Ok i0 /\
    (source p = None ->
     forall j, 1 <= j <= shape1 (u p) - 2 -> item (u p1) rs j = NaN) /\
    (forall q, source p = Some q ->
       exists pq i1,
         proc w q = Some pq /\ dest pq = Some (rank p) /\
         py_index (shape0 (u pq)) ksend = Ok i1 /\
         (shape1 (u pq) = shape1 (u p) ->
          forall j, 1 <= j <= shape1 (u p) - 2 ->
            item (u p1) rs j = item (u pq) i1 j)).
Proof.
  intros H Hp.
  destruct (phase_nth _ _ _ _ _ _ H) as (sent & Hsent & Hl & Hall).
  destruct (Hall r p Hp) as (m & a & Hm & Ha & Hp1).
  apply set_row_inv in Ha. destruct Ha as (rs & f & Hrs & Hf & ->).
  destruct (mapM_nth_error _ _ _ Hsent _ _ Hp) as (v0 & _ & Hv0).
  unfold get_row in Hv0. inv_bind Hv0.
  exists (set_u p (mkArr (shape0 (u p)) (shape1 (u p))
            (fun i j => if (i =? rs) && in_slice (shape1 (u p)) inner j
                        then f (j - slice_lo (shape1 (u p)) inner)
                        else item (u p) i j))), rs, x.
  split; [exact Hp1|]. split; [exact Hrs|]. split; [exact E|].
  cbn [set_u set_bufs u item]. split.
  - intros Hnone j Hj.
    apply (received_from_nobody _ _ _ _ _ _ Hnone) in Hm. subst m.
    cbn [broadcast1] in Hf. injection Hf as <-.
    rewrite Z.eqb_refl, in_slice_inner by lia.
    replace ((1 <=? j) && (j <? shape1 (u p) - 1)) with true by zcases.
    reflexivity.
  - intros q Hq.
    destruct (received_from _ _ _ _ _ _ _ Hq Hm) as (pq & Hpq & Hd & ->).
    pose proof (sent_nth (fun u => get_row u ksend inner) _ _ _ _ Hsent Hpq)
      as Hv. cbv beta in Hv.
    unfold get_row in Hv. inv_bind Hv. injection Hv as Hv.
    exists pq, x0. split; [exact Hpq|]. split; [exact Hd|]. split; [exact E0|].
    intros Hshape j Hj.
    rewrite Z.eqb_refl, in_slice_inner by lia.
    replace ((1 <=? j) && (j <? shape1 (u p) - 1)) with true by zcases.
    cbn [andb].
    apply broadcast1_Vec in Hf.
    + rewrite Hf, <- Hv, Hshape. rewrite nth_cell_map_zseq.
      * f_equal. lia.
      * rewrite slice_lo_inner, slice_len_inner by lia. lia.
    + rewrite <- Hv, length_map, zseq_length, Hshape.
      rewrite slice_len_inner by lia. unfold slice_len. lia.
Qed.

Lemma col_phase (w w1 : world) (r : nat) (p : HeatSolverMPI) :
  exchange_phase w (fun u => get_col u inner ksend) dest source
    (fun u m => set_col u inner kstore m) = Ok w1 ->
  nth_error w r = Some p ->
  exists p1 cs j0,
    nth_error w1 r = Some p1 /\
    py_index (shape1 (u p)) kstore = Ok cs /\
    py_index (shape1 (u p)) ksend = Ok j0 /\
    (source p = None ->
     forall i, 1 <= i <= shape0 (u p) - 2 -> item (u p1) i cs = NaN) /\
    (forall q, source p = Some q ->
       exists pq j1,
         proc w q = Some pq /\ dest pq = Some (rank p) /\
         py_index (shape1 (u pq)) ksend = Ok j1 /\
         (shape0 (u pq) = shape0 (u p) ->
          forall i, 1 <= i <= shape0 (u p) - 2 ->
            item (u p1) i cs = item (u pq) i j1)).
Proof.
  intros H Hp.
  destruct (phase_nth _ _ _ _ _ _ H) as (sent & Hsent & Hl & Hall).
  destruct (Hall r p Hp) as (m & a & Hm & Ha & Hp1).
  apply set_col_inv in Ha. destruct Ha as (cs & f & Hcs & Hf & ->).
  destruct (mapM_nth_error _ _ _ Hsent _ _ Hp) as (v0 & _ & Hv0).
  unfold get_col in Hv0. inv_bind Hv0.
  exists (set_u p (mkArr (shape0 (u p)) (shape1 (u p))
            (fun i j => if (j =? cs) && in_slice (shape0 (u p)) inner i
                        then f (i - slice_lo (shape0 (u p)) inner)
                        else item (u p) i j))), cs, x.
  split; [exact Hp1|]. split; [exact Hcs|]. split; [exact E|].
  cbn [set_u set_bufs u item]. split.
  - intros Hnone i Hi.
    apply (received_from_nobody _ _ _ _ _ _ Hnone) in Hm. subst m.
    cbn [broadcast1] in Hf. injection Hf as <-.
    rewrite Z.eqb_refl, in_slice_inner by lia.
    replace ((1 <=? i) && (i <? shape0 (u p) - 1)) with true by zcases.
    reflexivity.
  - intros q Hq.
    destruct (received_from _ _ _ _ _ _ _ Hq Hm) as (pq & Hpq & Hd & ->).
    pose proof (sent_nth (fun u => get_col u inner ksend) _ _ _ _ Hsent Hpq)
      as Hv. cbv beta in Hv.
    unfold get_col in Hv. inv_bind Hv. injection Hv as Hv.
    exists pq, x0. split; [exact Hpq|]. split; [exact Hd|]. split; [exact E0|].
    intros Hshape i Hi.
    rewrite Z.eqb_refl, in_slice_inner by lia.
    replace ((1 <=? i) && (i <? shape0 (u p) - 1)) with true by zcases.
    cbn [andb].
    apply broadcast1_Vec in Hf.
    + rewrite Hf, <- Hv, Hshape. rewrite nth_cell_map_zseq.
      * f_equal. lia.
      * rewrite slice_lo_inner, slice_len_inner by lia. lia.
    + rewrite <- Hv, length_map, zseq_length, Hshape.
      rewrite slice_len_inner by lia. unfold slice_len. lia.
Qed.

End RowPhase.

Lemma py_index_range n k r : py_index n k = Ok r -> 0 <= r < n.
Proof.
  unfold py_index. cbv zeta.
  generalize (if k <? 0 then k + n else k). intros z.
  destruct (Z.leb_spec 0 z), (Z.ltb_spec z n); cbn [andb]; intros E;
    try discriminate. injection E as <-. lia.
Qed.

Lemma py_index_1 n r : py_index n 1 = Ok r -> r = 1.
Proof.
  intros H. apply py_index_val in H. change (1 <? 0) with false in H.
  cbv iota in H. exact H.
Qed.

Lemma py_index_m2 n r : py_index n (-2) = Ok r -> r = n - 2.
Proof.
  intros H. apply py_index_val in H. change (-2 <? 0) with true in H.
  cbv iota in H. lia.
Qed.

Lemma kept_w_back sel (w wk : world) q pqk :
  kept_w sel w wk -> proc wk q = Some pqk ->
  exists pq, proc w q = Some pq /\ kept sel pq pqk.
Proof.
  intros (Hl & K) Hq. apply proc_nth_error in Hq. destruct Hq as (Hq0 & Hq).
  destruct (nth_error_same_length wk w (Z.to_nat q) pqk Hl Hq) as (pq & Hpq).
  destruct (K _ _ Hpq) as (pqk' & Hk' & Kp).
  assert (pqk' = pqk) by congruence. subst pqk'.
  exists pq. split; [apply proc_nth_error; auto | exact Kp].
Qed.

Lemma kept_w_at sel (w wk : world) r p pk :
  kept_w sel w wk -> nth_error w r = Some p -> nth_error wk r = Some pk ->
  kept sel p pk.
Proof.
  intros (_ & K) Hp Hk. destruct (K _ _ Hp) as (pk' & Hk' & Kp).
  assert (pk' = pk) by congruence. subst pk'. exact Kp.
Qed.

Lemma kept_cell sel p p' i j :
  kept sel p p' ->
  0 <= i < shape0 (u p) -> 0 <= j < shape1 (u p) ->
  sel (shape0 (u p)) (shape1 (u p)) i j = false ->
  item (u p') i j = item (u p) i j.
Proof. intros (_ & _ & _ & _ & _ & _ & _ & K). apply K. Qed.

Lemma kept_facts sel p p' :
  kept sel p p' ->
  rank p' = rank p /\ neighbors p' = neighbors p /\
  shape0 (u p') = shape0 (u p) /\ shape1 (u p') = shape1 (u p).
Proof. intros (A & _ & B & _ & _ & C & D & _). auto. Qed.

Ltac seg_false :=
  cbv beta;
  unfold seg1234, seg234, seg34, seg4,
    south_halo, north_halo, east_halo, west_halo;
  zcases.

(** What a completed exchange leaves in the four halo segments of a
    process, side by side. *)
Lemma exchange_sides (w w' : world) (r : nat) (p : HeatSolverMPI) :
  exchange_ghost_cells w = Ok w' -> nth_error w r = Some p ->
  exists p',
    nth_error w' r = Some p' /\
    (south (neighbors p) = None ->
     forall j, 1 <= j <= shape1 (u p) - 2 ->
       item (u p') (shape0 (u p) - 1) j = NaN) /\
    (forall q, south (neighbors p) = Some q ->
       exists pq,
         proc w q = Some pq /\ north (neighbors pq) = Some (rank p) /\
         (shape1 (u pq) = shape1 (u p) ->
          forall j, 1 <= j <= shape1 (u p) - 2 ->
            item (u p') (shape0 (u p) - 1) j = item (u pq) 1 j)) /\
    (north (neighbors p) = None ->
     forall j, 1 <= j <= shape1 (u p) - 2 -> item (u p') 0 j = NaN) /\
    (forall q, north (neighbors p) = Some q ->
       exists pq,
         proc w q = Some pq /\ south (neighbors pq) = Some (rank p) /\
         (shape1 (u pq) = shape1 (u p) ->
          forall j, 1 <= j <= shape1 (u p) - 2 ->
            item (u p') 0 j = item (u pq) (shape0 (u pq) - 2) j)) /\
    (east (neighbors p) = None ->
     forall i, 1 <= i <= shape0 (u p) - 2 ->
       item (u p') i (shape1 (u p) - 1) = NaN) /\
    (forall q, east (neighbors p) = Some q ->
       exists pq,
         proc w q = Some pq /\ west (neighbors pq) = Some (rank p) /\
         (shape0 (u pq) = shape0 (u p) ->
          forall i, 1 <= i <= shape0 (u p) - 2 ->
            item (u p') i (shape1 (u p) - 1) = item (u pq) i 1)) /\
    (west (neighbors p) = None ->
     forall i, 1 <= i <= shape0 (u p) - 2 -> item (u p') i 0 = NaN) /\
    (forall q, west (neighbors p) = Some q ->
       exists pq,
         proc w q = Some pq /\ east (neighbors pq) = Some (rank p) /\
         (shape0 (u pq) = shape0 (u p) ->
          forall i, 1 <= i <= shape0 (u p) - 2 ->
            item (u p') i 0 = item (u pq) i (shape1 (u pq) - 2))).
Proof.
  intros H Hp.
  destruct (exchange_phases _ _ H) as
    (w1 & w2 & w3 & E1 & E2 & E3 & E4 & _ & K234 & K34 & K4).
  pose proof (phase_kept _ _ _ _ _ _ _ store_south E1) as K1.
  pose proof (phase_kept _ _ _ _ _ _ _ store_north E2) as K2.
  pose proof (phase_kept _ _ _ _ _ _ _ store_east E3) as K3.
  pose proof (kept_w_trans _ _ _ _ _ K1 K2) as K12.
  pose proof (kept_w_trans _ _ _ _ _ K12 K3) as K123.
  destruct (row_phase _ _ _ _ _ _ _ _ E1 Hp) as
    (p1 & rs1 & i1 & Hp1 & Hrs1 & Hi1 & N1 & S1).
  destruct (row_phase _ _ _ _ _ _ _ _ E2 Hp1) as
    (p2 & rs2 & i2 & Hp2 & Hrs2 & Hi2 & N2 & S2).
  destruct (col_phase _ _ _ _ _ _ _ _ E3 Hp2) as
    (p3 & cs3 & j3 & Hp3 & Hcs3 & Hj3 & N3 & S3).
  destruct (col_phase _ _ _ _ _ _ _ _ E4 Hp3) as
    (p4 & cs4 & j4 & Hp4 & Hcs4 & Hj4 & N4 & S4).
  pose proof (kept_w_at _ _ _ _ _ _ K1 Hp Hp1) as Q1.
  pose proof (kept_w_at _ _ _ _ _ _ K12 Hp Hp2) as Q2.
  pose proof (kept_w_at _ _ _ _ _ _ K123 Hp Hp3) as Q3.
  pose proof (kept_w_at _ _ _ _ _ _ K234 Hp1 Hp4) as L1.
  pose proof (kept_w_at _ _ _ _ _ _ K34 Hp2 Hp4) as L2.
  pose proof (kept_w_at _ _ _ _ _ _ K4 Hp3 Hp4) as L3.
  destruct (kept_facts _ _ _ Q1) as (R1 & B1 & X1 & Y1).
  destruct (kept_facts _ _ _ Q2) as (R2 & B2 & X2 & Y2).
  destruct (kept_facts _ _ _ Q3) as (R3 & B3 & X3 & Y3).
  rewrite ?R1, ?B1, ?X1, ?Y1 in *.
  rewrite ?R2, ?B2, ?X2, ?Y2 in *.
  rewrite ?R3, ?B3, ?X3, ?Y3 in *.
  pose proof (py_index_m1 _ _ Hrs1) as ->.
  pose proof (py_index_0 _ _ Hrs2) as ->.
  pose proof (py_index_m1 _ _ Hcs3) as ->.
  pose proof (py_index_0 _ _ Hcs4) as ->.
  pose proof (py_index_range _ _ _ Hi1) as Gn.
  pose proof (py_index_1 _ _ Hi1) as ->.
  pose proof (py_index_range _ _ _ Hj3) as Gm.
  pose proof (py_index_1 _ _ Hj3) as ->.
  set (n := shape0 (u p)) in *. set (m := shape1 (u p)) in *.
  exists p4. split; [exact Hp4|].
  split; [|split; [|split; [|split; [|split; [|split; [|split]]]]]].
  - intros Hn j Hj.
    rewrite (kept_cell _ _ _ _ _ L1) by (rewrite ?X1, ?Y1; fold n m; seg_false).
    apply N1; assumption.
  - intros q Hq. destruct (S1 q Hq) as (pq & i & Hpq & Hd & Hi & Hc).
    apply py_index_1 in Hi. subst i.
    exists pq. split; [exact Hpq|]. split; [exact Hd|].
    intros Hshape j Hj.
    rewrite (kept_cell _ _ _ _ _ L1) by (rewrite ?X1, ?Y1; fold n m; seg_false).
    apply Hc; assumption.
  - intros Hn j Hj.
    rewrite (kept_cell _ _ _ _ _ L2) by (rewrite ?X2, ?Y2; fold n m; seg_false).
    apply N2; assumption.
  - intros q Hq. destruct (S2 q Hq) as (pq1 & i & Hpq1 & Hd & Hi & Hc).
    destruct (kept_w_back _ _ _ _ _ K1 Hpq1) as (pq & Hpq & Kq).
    destruct (kept_facts _ _ _ Kq) as (Rq & Bq & Xq & Yq).
    pose proof (py_index_range _ _ _ Hi) as Gi.
    apply py_index_m2 in Hi. subst i.
    exists pq. split; [exact Hpq|]. split; [congruence|].
    intros Hshape j Hj.
    rewrite (kept_cell _ _ _ _ _ L2) by (rewrite ?X2, ?Y2; fold n m; seg_false).
    rewrite Hc by (try assumption; congruence).
    rewrite Xq in *.
    apply (kept_cell _ _ _ _ _ Kq); try lia.
    unfold south_halo. zcases.
  - intros Hn i Hi.
    rewrite (kept_cell _ _ _ _ _ L3) by (rewrite ?X3, ?Y3; fold n m; seg_false).
    apply N3; assumption.
  - intros q Hq. destruct (S3 q Hq) as (pq2 & j & Hpq2 & Hd & Hj & Hc).
    destruct (kept_w_back _ _ _ _ _ K12 Hpq2) as (pq & Hpq & Kq).
    destruct (kept_facts _ _ _ Kq) as (Rq & Bq & Xq & Yq).
    pose proof (py_index_range _ _ _ Hj) as Gj.
    apply py_index_1 in Hj. subst j.
    exists pq. split; [exact Hpq|]. split; [congruence|].
    intros Hshape i Hi.
    rewrite (kept_cell _ _ _ _ _ L3) by (rewrite ?X3, ?Y3; fold n m; seg_false).
    rewrite Hc by (try assumption; congruence).
    rewrite Yq in *.
    apply (kept_cell _ _ _ _ _ Kq); try lia.
    cbv beta. unfold south_halo, north_halo. zcases.
  - intros Hn i Hi. apply N4; assumption.
  - intros q Hq. destruct (S4 q Hq) as (pq3 & j & Hpq3 & Hd & Hj & Hc).
    destruct (kept_w_back _ _ _ _ _ K123 Hpq3) as (pq & Hpq & Kq).
    destruct (kept_facts _ _ _ Kq) as (Rq & Bq & Xq & Yq).
    pose proof (py_index_range _ _ _ Hj) as Gj.
    apply py_index_m2 in Hj. subst j.
    exists pq. split; [exact Hpq|]. split; [congruence|].
    intros Hshape i Hi.
    rewrite Hc by (try assumption; congruence).
    rewrite Yq in *.
    apply (kept_cell _ _ _ _ _ Kq); try lia.
    cbv beta. unfold south_halo, north_halo, east_halo. zcases.
Qed.

(** After a completed exchange, every halo segment whose source entry in
    the neighbour table names a process holds the adjacent line of that
    process as it was before the exchange: the south halo row is the first
    row [u[1, 1:-1]] of the south neighbour, the north halo row the last
    row [u[-2, 1:-1]] of the north neighbour, the east halo column the
    first column [u[1:-1, 1]] of the ['east'] entry and the west halo
    column the last column [u[1:-1, -2]] of the ['west'] entry. The
    neighbour addresses the receiver in the opposite direction, and the
    lines are compared where the two buffers have the same length. *)
Theorem exchange_copies_neighbour_lines :
  forall (w w' : world) (r : Z) (p : HeatSolverMPI),
    exchange_ghost_cells w = Ok w' -> proc w r = Some p ->
    exists p',
      proc w' r = Some p' /\
      (forall q, south (neighbors p) = Some q ->
         exists pq,
           proc w q = Some pq /\ north (neighbors pq) = Some (rank p) /\
           (shape1 (u pq) = shape1 (u p) ->
            forall j, 1 <= j <= shape1 (u p) - 2 ->
              item (u p') (shape0 (u p) - 1) j = item (u pq) 1 j)) /\
      (forall q, north (neighbors p) = Some q ->
         exists pq,
           proc w q = Some pq /\ south (neighbors pq) = Some (rank p) /\
           (shape1 (u pq) = shape1 (u p) ->
            forall j, 1 <= j <= shape1 (u p) - 2 ->
              item (u p') 0 j = item (u pq) (shape0 (u pq) - 2) j)) /\
      (forall q, east (neighbors p) = Some q ->
         exists pq,
           proc w q = Some pq /\ west (neighbors pq) = Some (rank p) /\
           (shape0 (u pq) = shape0 (u p) ->
            forall i, 1 <= i <= shape0 (u p) - 2 ->
              item (u p') i (shape1 (u p) - 1) = item (u pq) i 1)) /\
      (forall q, west (neighbors p) = Some q ->
         exists pq,
           proc w q = Some pq /\ east (neighbors pq) = Some (rank p) /\
           (shape0 (u pq) = shape0 (u p) ->
            forall i, 1 <= i <= shape0 (u p) - 2 ->
              item (u p') i 0 = item (u pq) i (shape1 (u pq) - 2))).
Proof.
  intros w w' r p H Hp.
  apply proc_nth_error in Hp. destruct Hp as (Hr & Hp).
  destruct (exchange_sides w w' _ p H Hp) as
    (p' & Hp' & _ & HS & _ & HN & _ & HE & _ & HW).
  exists p'. split; [apply proc_nth_error; split; assumption|].
  split; [exact HS|]. split; [exact HN|]. split; [exact HE | exact HW].
Qed.

Lemma exchange_copies_neighbour_lines_witness :
  exists w w' p' pq,
    init_world 2 4 3 = Ok w /\ exchange_ghost_cells w = Ok w' /\
    proc w' 0 = Some p' /\ proc w 1 = Some pq /\
    item (u p') 3 2 = item (u pq) 1 2.
Proof.
  assert (E : exists w w' p pq,
             init_world 2 4 3 = Ok w /\ exchange_ghost_cells w = Ok w' /\
             proc w 0 = Some p /\ proc w 1 = Some pq /\
             south (neighbors p) = Some 1 /\
             shape0 (u p) = 4 /\ shape1 (u p) = 5 /\ shape1 (u pq) = 5).
  { do 4 eexists. split; [vm_compute; reflexivity|].
    split; [vm_compute; reflexivity|].
    split; [vm_compute; reflexivity|].
    split; [vm_compute; reflexivity|]. repeat split. }
  destruct E as (w & w' & p & pq & Hw & Hx & Hp & Hq & Hs & H0 & H1 & H2).
  destruct (exchange_copies_neighbour_lines w w' 0 p Hx Hp) as
    (p' & Hp' & HS & _).
  destruct (HS 1 Hs) as (pq' & Hpq' & _ & Hc).
  assert (pq' = pq) by congruence. subst pq'.
  exists w, w', p', pq. repeat split; try assumption.
  rewrite <- (Hc ltac:(congruence) 2 ltac:(lia)). rewrite H0. reflexivity.
Defined.

(** After a completed exchange, every halo segment whose source entry in
    the neighbour table is [MPI.PROC_NULL] holds not-a-number in all its
    cells: [sendrecv] returns [None] there, and the assignment stores it.
    The boundary value that boundary enforcement had written on such a
    side is overwritten. *)
Theorem exchange_stores_nan_without_neighbour :
  forall (w w' : world) (r : Z) (p : HeatSolverMPI),
    exchange_ghost_cells w = Ok w' -> proc w r = Some p ->
    exists p',
      proc w' r = Some p' /\
      (south (neighbors p) = None ->
       forall j, 1 <= j <= shape1 (u p) - 2 ->
         item (u p') (shape0 (u p) - 1) j = NaN) /\
      (north (neighbors p) = None ->
       forall j, 1 <= j <= shape1 (u p) - 2 -> item (u p') 0 j = NaN) /\
      (east (neighbors p) = None ->
       forall i, 1 <= i <= shape0 (u p) - 2 ->
         item (u p') i (shape1 (u p) - 1) = NaN) /\
      (west (neighbors p) = None ->
       forall i, 1 <= i <= shape0 (u p) - 2 -> item (u p') i 0 = NaN).
Proof.
  intros w w' r p H Hp.
  apply proc_nth_error in Hp. destruct Hp as (Hr & Hp).
  destruct (exchange_sides w w' _ p H Hp) as
    (p' & Hp' & HS & _ & HN & _ & HE & _ & HW & _).
  exists p'. split; [apply proc_nth_error; split; assumption|].
  split; [exact HS|]. split; [exact HN|]. split; [exact HE | exact HW].
Qed.

Lemma exchange_stores_nan_without_neighbour_witness :
  exists w w' p p',
    init_world 1 3 3 = Ok w /\ exchange_ghost_cells w = Ok w' /\
    proc w 0 = Some p /\ proc w' 0 = Some p' /\
    item (u p) 0 1 = T_HOT /\ item (u p') 0 1 = NaN.
Proof.
  assert (E : exists w w' p,
             init_world 1 3 3 = Ok w /\ exchange_ghost_cells w = Ok w' /\
             proc w 0 = Some p /\ north (neighbors p) = None /\
             shape1 (u p) = 5 /\ item (u p) 0 1 = T_HOT).
  { do 3 eexists. split; [vm_compute; reflexivity|].
    split; [vm_compute; reflexivity|].
    split; [vm_compute; reflexivity|]. repeat split. }
  destruct E as (w & w' & p & Hw & Hx & Hp & Hn & H1 & Hh).
  destruct (exchange_stores_nan_without_neighbour w w' 0 p Hx Hp) as
    (p' & Hp' & _ & HN & _).
  exists w, w', p, p'. repeat split; try assumption.
  apply HN; [exact Hn | lia].
Defined.

(** ** Runs in their process grid *)

Lemma zseq_nth_error n k :
  0 <= k < n -> nth_error (zseq n) (Z.to_nat k) = Some k.
Proof.
  intros H. rewrite (nth_error_nth' _ 0) by (pose proof (zseq_length n); lia).
  f_equal. apply zseq_nth. exact H.
Qed.

Lemma init_world_proc np nx ny w r p :
  init_world np nx ny = Ok w -> proc w r = Some p ->
  0 <= r < np /\ init np r nx ny = Ok p.
Proof.
  unfold init_world. intros Hw Hp.
  apply proc_nth_error in Hp. destruct Hp as (Hr & Hp).
  pose proof (mapM_length _ _ _ Hw) as Hl.
  assert (Hlt : (Z.to_nat r < length w)%nat) by (apply nth_error_Some; congruence).
  pose proof (zseq_length np) as Hz.
  assert (Hrn : 0 <= r < np) by lia.
  split; [exact Hrn|].
  destruct (mapM_nth_error _ _ _ Hw _ _ (zseq_nth_error np r Hrn))
    as (b & Hb & Hf).
  congruence.
Qed.

Lemma laid_out_init np nx ny w :
  1 <= np -> 0 <= nx -> 0 <= ny ->
  init_world np nx ny = Ok w -> laid_out np nx ny w.
Proof.
  intros Hnp Hnx Hny Hw. split.
  - unfold init_world in Hw. apply mapM_length in Hw.
    pose proof (zseq_length np). lia.
  - intros r p Hp.
    destruct (init_world_proc _ _ _ _ _ _ Hw Hp) as (Hr & Hi).
    destruct (init_inv _ _ _ _ _ Hnp Hnx Hny Hi) as
      (nb & cfg & E & Hrk & Hsz & Hnb & Hcf & _ & _ & Hsh & _).
    subst nb cfg. auto.
Qed.

Lemma laid_out_kept sel np nx ny (w w' : world) :
  kept_w sel w w' -> laid_out np nx ny w -> laid_out np nx ny w'.
Proof.
  intros K (Hl & H). split; [destruct K as (Kl & _); lia|].
  intros r p' Hp'.
  destruct (kept_w_back _ _ _ _ _ K Hp') as (p & Hp & Kp).
  destruct (H r p Hp) as (Hrk & Hsz & Hsh & Hst).
  destruct Kp as (A1 & A2 & A3 & A4 & A5 & A6 & A7 & _).
  rewrite A1, A2, A3, A4. repeat split; try assumption;
    unfold shaped in *; rewrite ?A4, ?A5, ?A6, ?A7; apply Hsh.
Qed.

Lemma cart_rank_coords px py cx cy q :
  cart_rank (px, py) (cx, cy) = Some q ->
  0 <= cx < px /\ 0 <= cy < py /\ q = cx * py + cy /\
  Get_coords (px, py) q = (cx, cy) /\ 0 <= q < px * py.
Proof.
  unfold cart_rank.
  destruct (Z.leb_spec 0 cx), (Z.ltb_spec cx px), (Z.leb_spec 0 cy),
    (Z.ltb_spec cy py); cbn [andb]; intros E; try discriminate.
  injection E as <-.
  split; [lia|]. split; [lia|]. split; [reflexivity|]. split.
  - unfold Get_coords. cbn [snd]. f_equal.
    + symmetry. apply Z.div_unique with cy; lia.
    + symmetry. apply Z.mod_unique with cx; lia.
  - nia.
Qed.

Lemma cart_rank_inside px py cx cy :
  0 <= cx < px -> 0 <= cy < py ->
  cart_rank (px, py) (cx, cy) = Some (cx * py + cy).
Proof.
  intros Hx Hy. unfold cart_rank.
  destruct (Z.leb_spec 0 cx), (Z.ltb_spec cx px), (Z.leb_spec 0 cy),
    (Z.ltb_spec cy py); cbn [andb]; try lia. reflexivity.
Qed.

Lemma grid_has np nx ny (w : world) r :
  laid_out np nx ny w -> 0 <= r < np -> exists p, proc w r = Some p.
Proof.
  intros (Hl & _) Hr.
  destruct (nth_error w (Z.to_nat r)) as [p|] eqn:E.
  - exists p. apply proc_nth_error. split; [lia | exact E].
  - apply nth_error_None in E. lia.
Qed.

Lemma grid_In np nx ny (w : world) p :
  laid_out np nx ny w -> In p w ->
  exists r, proc w r = Some p.
Proof.
  intros _ Hin. apply In_nth_error in Hin. destruct Hin as (k & Hk).
  exists (Z.of_nat k). apply proc_nth_error. rewrite Nat2Z.id. split; [lia | exact Hk].
Qed.

Lemma coords_rank px py r :
  1 <= py ->
  r = fst (Get_coords (px, py) r) * py + snd (Get_coords (px, py) r).
Proof.
  intros Hpy. unfold Get_coords. cbn [fst snd].
  pose proof (Z.div_mod r py ltac:(lia)). lia.
Qed.

Section Grid.

Variables np nx ny px py : Z.
Hypothesis Hdims : Compute_dims np = (px, py).
Hypothesis Hpx : 1 <= px.
Hypothesis Hpy : 1 <= py.
Hypothesis Hnp : px * py = np.
Hypothesis Hnx : 0 <= nx.
Hypothesis Hny : 0 <= ny.

Lemma grid_proc (w : world) r p :
  laid_out np nx ny w -> proc w r = Some p ->
  0 <= r < np /\ rank p = r /\
  north (neighbors p)
  = cart_rank (px, py) (fst (Get_coords (px, py) r) - 1,
                        snd (Get_coords (px, py) r)) /\
  south (neighbors p)
  = cart_rank (px, py) (fst (Get_coords (px, py) r) + 1,
                        snd (Get_coords (px, py) r)) /\
  west (neighbors p)
  = cart_rank (px, py) (fst (Get_coords (px, py) r),
                        snd (Get_coords (px, py) r) + 1) /\
  east (neighbors p)
  = cart_rank (px, py) (fst (Get_coords (px, py) r),
                        snd (Get_coords (px, py) r) + 1) /\
  shape0 (u p) = local_size nx px (fst (Get_coords (px, py) r)) + 2 /\
  shape1 (u p) = local_size ny py (snd (Get_coords (px, py) r)) + 2 /\
  2 <= shape0 (u p) /\ 2 <= shape1 (u p).
Proof.
  intros (Hl & H) Hp.
  destruct (H r p Hp) as (Hrk & Hsz & (S0 & S1 & _) & Hst).
  assert (Hr : 0 <= r < np).
  { apply proc_nth_error in Hp. destruct Hp as (Hr & Hp).
    assert ((Z.to_nat r < length w)%nat) by (apply nth_error_Some; congruence).
    lia. }
  destruct (setup_topology_inv _ _ _ _ _ _ Hst) as
    (dx & dy & dt & _ & _ & _ & En & Ec).
  rewrite Hdims in En, Ec.
  destruct (Get_coords (px, py) r) as (cx, cy) eqn:Eg. cbn [fst snd] in *.
  assert (Rg : 0 <= cx < px /\ 0 <= cy < py).
  { pose proof (coords_range px py r Hpx Hpy ltac:(lia)) as Rg.
    rewrite Eg in Rg. exact Rg. }
  split; [exact Hr|]. split; [exact Hrk|].
  rewrite En. cbn [north south west east]. unfold Shift.
  change (0 =? 0) with true. change (1 =? 0) with false. cbv iota.
  cbn [fst snd]. replace (cy - -1) with (cy + 1) by lia.
  do 4 (split; [reflexivity|]).
  rewrite S0, S1, Ec. cbn [nx_local ny_local].
  pose proof (local_size_nonneg nx px cx Hnx ltac:(lia)).
  pose proof (local_size_nonneg ny py cy Hny ltac:(lia)).
  repeat split; lia.
Qed.

Lemma match_south (w : world) p s :
  laid_out np nx ny w -> In p w -> south (neighbors p) = Some s ->
  exists ps,
    proc w s = Some ps /\ north (neighbors ps) = Some (rank p) /\
    shape1 (u ps) = shape1 (u p).
Proof.
  intros HL Hin Hs. destruct (grid_In np nx ny w p HL Hin) as (r & Hp).
  destruct (grid_proc w r p HL Hp) as
    (Hr & Hrk & _ & ES & _ & _ & _ & S1 & _).
  rewrite ES in Hs.
  destruct (cart_rank_coords _ _ _ _ _ Hs) as (Rx & Ry & Es & Eg & Rs).
  destruct (grid_has np nx ny w s HL ltac:(lia)) as (ps & Hps).
  destruct (grid_proc w s ps HL Hps) as
    (_ & _ & EN & _ & _ & _ & _ & S1' & _).
  exists ps. split; [exact Hps|]. rewrite Eg in EN, S1'. cbn [fst snd] in EN, S1'.
  split; [|congruence].
  rewrite EN, Hrk.
  replace (fst (Get_coords (px, py) r) + 1 - 1)
    with (fst (Get_coords (px, py) r)) by lia.
  destruct (coords_range px py r Hpx Hpy ltac:(lia)) as (Cx & Cy).
  rewrite cart_rank_inside by lia. f_equal. symmetry. apply coords_rank. exact Hpy.
Qed.

Lemma match_north (w : world) p s :
  laid_out np nx ny w -> In p w -> north (neighbors p) = Some s ->
  exists ps,
    proc w s = Some ps /\ south (neighbors ps) = Some (rank p) /\
    shape1 (u ps) = shape1 (u p).
Proof.
  intros HL Hin Hs. destruct (grid_In np nx ny w p HL Hin) as (r & Hp).
  destruct (grid_proc w r p HL Hp) as
    (Hr & Hrk & EN & _ & _ & _ & _ & S1 & _).
  rewrite EN in Hs.
  destruct (cart_rank_coords _ _ _ _ _ Hs) as (Rx & Ry & Es & Eg & Rs).
  destruct (grid_has np nx ny w s HL ltac:(lia)) as (ps & Hps).
  destruct (grid_proc w s ps HL Hps) as
    (_ & _ & _ & ES & _ & _ & _ & S1' & _).
  exists ps. split; [exact Hps|]. rewrite Eg in ES, S1'. cbn [fst snd] in ES, S1'.
  split; [|congruence].
  rewrite ES, Hrk.
  replace (fst (Get_coords (px, py) r) - 1 + 1)
    with (fst (Get_coords (px, py) r)) by lia.
  destruct (coords_range px py r Hpx Hpy ltac:(lia)) as (Cx & Cy).
  rewrite cart_rank_inside by lia. f_equal. symmetry. apply coords_rank. exact Hpy.
Qed.

Lemma grid_shapes (w : world) :
  laid_out np nx ny w ->
  forall p, In p w -> 2 <= shape0 (u p) /\ 2 <= shape1 (u p).
Proof.
  intros HL p Hin. destruct (grid_In np nx ny w p HL Hin) as (r & Hp).
  destruct (grid_proc w r p HL Hp) as (_ & _ & _ & _ & _ & _ & _ & _ & A & B).
  split; assumption.
Qed.

End Grid.

(** ** The halo exchange: when it completes *)

Lemma proc_In (w : world) r p : proc w r = Some p -> In p w.
Proof.
  intros H. apply proc_nth_error in H. destruct H as (_ & H).
  eapply nth_error_In; eauto.
Qed.

Lemma mapM_head_raise {A B : Type} (f : A -> result B) l a rest e :
  l = a :: rest -> f a = Raise e -> mapM f l = Raise e.
Proof. intros -> H. cbn [mapM]. rewrite H. reflexivity. Qed.

Section PhaseOk.

Variables ksend kstore : Z.
Variables dest source : HeatSolverMPI -> option Z.
Variable w : world.

Hypothesis Hsend : forall n, 2 <= n -> exists i, py_index n ksend = Ok i.
Hypothesis Hstore : forall n, 2 <= n -> exists i, py_index n kstore = Ok i.
Hypothesis Hshape :
  forall p, In p w -> 2 <= shape0 (u p) /\ 2 <= shape1 (u p).

Lemma row_phase_ok :
  (forall p s, In p w -> source p = Some s ->
     exists ps, proc w s = Some ps /\ dest ps = Some (rank p) /\
                shape1 (u ps) = shape1 (u p)) ->
  exists w1,
    exchange_phase w (fun u => get_row u ksend inner) dest source
      (fun u m => set_row u kstore inner m) = Ok w1.
Proof.
  intros Hmatch.
  destruct (mapM_exists (fun p => get_row (u p) ksend inner) w) as (sent & Hsent).
  { intros p Hin. destruct (Hshape p Hin) as (H0 & _).
    destruct (Hsend _ H0) as (i & Hi). unfold get_row. rewrite Hi. cbn [bind]. eauto. }
  apply (phase_build _ _ _ _ w sent Hsent).
  intros q Hq. destruct (Hshape q Hq) as (H0 & H1).
  destruct (Hstore _ H0) as (rs & Hrs).
  unfold received, set_row. rewrite Hrs. cbn [bind].
  destruct (source q) as [s|] eqn:Es.
  - destruct (Hmatch q s Hq Es) as (ps & Hps & Hd & Hsh).
    rewrite Hps, Hd, Z.eqb_refl.
    pose proof (sent_nth (fun u => get_row u ksend inner) _ _ _ _ Hsent Hps) as Hv.
    cbv beta in Hv. unfold get_row in Hv.
    destruct (Hshape ps (proc_In _ _ _ Hps)) as (G0 & G1).
    destruct (Hsend _ G0) as (i & Hi). rewrite Hi in Hv. cbn [bind] in Hv.
    injection Hv as Hv.
    do 2 eexists. split; [reflexivity|].
    unfold broadcast1.
    replace (Z.of_nat (length (nth (Z.to_nat s) sent []))
             =? slice_len (shape1 (u q)) inner) with true; [reflexivity|].
    symmetry. apply Z.eqb_eq.
    rewrite <- Hv, length_map, zseq_length, Hsh. unfold slice_len. lia.
  - do 2 eexists. split; reflexivity.
Qed.

Lemma col_phase_ok :
  (forall p s, In p w -> source p = Some s ->
     exists ps, proc w s = Some ps /\ dest ps = Some (rank p) /\
                shape0 (u ps) = shape0 (u p)) ->
  exists w1,
    exchange_phase w (fun u => get_col u inner ksend) dest source
      (fun u m => set_col u inner kstore m) = Ok w1.
Proof.
  intros Hmatch.
  destruct (mapM_exists (fun p => get_col (u p) inner ksend) w) as (sent & Hsent).
  { intros p Hin. destruct (Hshape p Hin) as (_ & H1).
    destruct (Hsend _ H1) as (i & Hi). unfold get_col. rewrite Hi. cbn [bind]. eauto. }
  apply (phase_build _ _ _ _ w sent Hsent).
  intros q Hq. destruct (Hshape q Hq) as (H0 & H1).
  destruct (Hstore _ H1) as (cs & Hcs).
  unfold received, set_col. rewrite Hcs. cbn [bind].
  destruct (source q) as [s|] eqn:Es.
  - destruct (Hmatch q s Hq Es) as (ps & Hps & Hd & Hsh).
    rewrite Hps, Hd, Z.eqb_refl.
    pose proof (sent_nth (fun u => get_col u inner ksend) _ _ _ _ Hsent Hps) as Hv.
    cbv beta in Hv. unfold get_col in Hv.
    destruct (Hshape ps (proc_In _ _ _ Hps)) as (G0 & G1).
    destruct (Hsend _ G1) as (i & Hi). rewrite Hi in Hv. cbn [bind] in Hv.
    injection Hv as Hv.
    do 2 eexists. split; [reflexivity|].
    unfold broadcast1.
    replace (Z.of_nat (length (nth (Z.to_nat s) sent []))
             =? slice_len (shape0 (u q)) inner) with true; [reflexivity|].
    symmetry. apply Z.eqb_eq.
    rewrite <- Hv, length_map, zseq_length, Hsh. unfold slice_len. lia.
  - do 2 eexists. split; reflexivity.
Qed.

(** The first process waits for a message from a process that does not
    address it: the phase never completes. *)
Lemma col_phase_blocked p0 rest s :
  w = p0 :: rest ->
  source p0 = Some s ->
  (forall ps, proc w s = Some ps -> dest ps <> Some (rank p0)) ->
  exchange_phase w (fun u => get_col u inner ksend) dest source
    (fun u m => set_col u inner kstore m) = Raise Blocked.
Proof.
  intros Hw Hs Hno.
  destruct (mapM_exists (fun p => get_col (u p) inner ksend) w) as (sent & Hsent).
  { intros p Hin. destruct (Hshape p Hin) as (_ & H1).
    destruct (Hsend _ H1) as (i & Hi). unfold get_col. rewrite Hi. cbn [bind]. eauto. }
  unfold exchange_phase. rewrite Hsent. cbn [bind].
  apply (mapM_head_raise _ w p0 rest Blocked Hw).
  unfold received. rewrite Hs.
  destruct (proc w s) as [ps|] eqn:Eps; [|reflexivity].
  specialize (Hno ps eq_refl).
  destruct (dest ps) as [d|]; [|reflexivity].
  destruct (Z.eqb_spec d (rank p0)); [|reflexivity].
  exfalso. apply Hno. congruence.
Qed.

End PhaseOk.

Lemma index_1_ok n : 2 <= n -> exists i, py_index n 1 = Ok i.
Proof. intros H. exists 1. apply py_index_nonneg. lia. Qed.

Lemma index_m2_ok n : 2 <= n -> exists i, py_index n (-2) = Ok i.
Proof. intros H. exists (-2 + n). apply py_index_neg. lia. Qed.

Lemma index_m1_ok n : 2 <= n -> exists i, py_index n (-1) = Ok i.
Proof. intros H. exists (-1 + n). apply py_index_neg. lia. Qed.

Lemma index_0_ok n : 2 <= n -> exists i, py_index n 0 = Ok i.
Proof. intros H. exists 0. apply py_index_nonneg. lia. Qed.

Section Completion.

Variables np nx ny px py : Z.
Hypothesis Hdims : Compute_dims np = (px, py).
Hypothesis Hpx : 1 <= px.
Hypothesis Hpy : 1 <= py.
Hypothesis Hnp : px * py = np.
Hypothesis Hnx : 0 <= nx.
Hypothesis Hny : 0 <= ny.

(** The north-south half of the exchange always completes. *)
Lemma north_south_ok (w : world) :
  laid_out np nx ny w ->
  exists w1 w2,
    exchange_phase w (fun u => get_row u 1 inner)
      (fun p => north (neighbors p)) (fun p => south (neighbors p))
      (fun u m => set_row u (-1) inner m) = Ok w1 /\
    exchange_phase w1 (fun u => get_row u (-2) inner)
      (fun p => south (neighbors p)) (fun p => north (neighbors p))
      (fun u m => set_row u 0 inner m) = Ok w2 /\
    laid_out np nx ny w2.
Proof.
  intros HL.
  destruct (row_phase_ok 1 (-1)
              (fun p => north (neighbors p)) (fun p => south (neighbors p)) w
              index_1_ok index_m1_ok
              (grid_shapes np nx ny px py Hdims Hpx Hpy Hnp Hnx Hny w HL))
    as (w1 & E1).
  { intros p s Hin Hs.
    apply (match_south np nx ny px py Hdims Hpx Hpy Hnp Hnx Hny w p s HL Hin Hs). }
  pose proof (laid_out_kept _ _ _ _ _ _
                (phase_kept _ _ _ _ _ _ _ store_south E1) HL) as HL1.
  destruct (row_phase_ok (-2) 0
              (fun p => south (neighbors p)) (fun p => north (neighbors p)) w1
              index_m2_ok index_0_ok
              (grid_shapes np nx ny px py Hdims Hpx Hpy Hnp Hnx Hny w1 HL1))
    as (w2 & E2).
  { intros p s Hin Hs.
    apply (match_north np nx ny px py Hdims Hpx Hpy Hnp Hnx Hny w1 p s HL1 Hin Hs). }
  pose proof (laid_out_kept _ _ _ _ _ _
                (phase_kept _ _ _ _ _ _ _ store_north E2) HL1) as HL2.
  exists w1, w2. auto.
Qed.

Lemma one_column_no_east_west (w : world) p :
  py = 1 -> laid_out np nx ny w -> In p w ->
  west (neighbors p) = None /\ east (neighbors p) = None.
Proof.
  intros Hone HL Hin.
  destruct (grid_In np nx ny w p HL Hin) as (r & Hp).
  destruct (grid_proc np nx ny px py Hdims Hpx Hpy Hnp Hnx Hny w r p HL Hp) as
    (Hr & _ & _ & _ & EW & EE & _).
  destruct (coords_range px py r Hpx Hpy ltac:(lia)) as (Cx & Cy).
  assert (N : cart_rank (px, py)
                (fst (Get_coords (px, py) r), snd (Get_coords (px, py) r) + 1)
              = None).
  { pose proof (cart_rank_null px py (fst (Get_coords (px, py) r))
                  (snd (Get_coords (px, py) r) + 1) Cx ltac:(lia)) as Hn.
    destruct (cart_rank _ _); [|reflexivity].
    cbn [proc_null] in Hn. destruct Hn as (_ & Hn).
    discriminate Hn. lia. }
  rewrite EW, EE, N. auto.
Qed.

Lemma exchange_one_column (w : world) :
  py = 1 -> laid_out np nx ny w ->
  exists w', exchange_ghost_cells w = Ok w' /\ laid_out np nx ny w'.
Proof.
  intros Hone HL.
  destruct (north_south_ok w HL) as (w1 & w2 & E1 & E2 & HL2).
  destruct (col_phase_ok 1 (-1)
              (fun p => west (neighbors p)) (fun p => east (neighbors p)) w2
              index_1_ok index_m1_ok
              (grid_shapes np nx ny px py Hdims Hpx Hpy Hnp Hnx Hny w2 HL2))
    as (w3 & E3).
  { intros p s Hin Hs.
    destruct (one_column_no_east_west w2 p Hone HL2 Hin) as (_ & He).
    congruence. }
  pose proof (laid_out_kept _ _ _ _ _ _
                (phase_kept _ _ _ _ _ _ _ store_east E3) HL2) as HL3.
  destruct (col_phase_ok (-2) 0
              (fun p => east (neighbors p)) (fun p => west (neighbors p)) w3
              index_m2_ok index_0_ok
              (grid_shapes np nx ny px py Hdims Hpx Hpy Hnp Hnx Hny w3 HL3))
    as (w4 & E4).
  { intros p s Hin Hs.
    destruct (one_column_no_east_west w3 p Hone HL3 Hin) as (Hw & _).
    congruence. }
  pose proof (laid_out_kept _ _ _ _ _ _
                (phase_kept _ _ _ _ _ _ _ store_west E4) HL3) as HL4.
  exists w4. split; [|exact HL4].
  unfold exchange_ghost_cells. rewrite E1. cbn [bind]. rewrite E2. cbn [bind].
  rewrite E3. cbn [bind]. exact E4.
Qed.

Lemma exchange_two_columns (w : world) :
  2 <= py -> laid_out np nx ny w ->
  exchange_ghost_cells w = Raise Blocked.
Proof.
  intros Htwo HL.
  destruct (north_south_ok w HL) as (w1 & w2 & E1 & E2 & HL2).
  unfold exchange_ghost_cells. rewrite E1. cbn [bind]. rewrite E2. cbn [bind].
  destruct (grid_has np nx ny w2 0 HL2 ltac:(nia)) as (p0 & Hp0).
  destruct (grid_proc np nx ny px py Hdims Hpx Hpy Hnp Hnx Hny w2 0 p0 HL2 Hp0)
    as (_ & Hrk & _ & _ & _ & EE & _).
  assert (G0 : Get_coords (px, py) 0 = (0, 0)).
  { unfold Get_coords. cbn [snd]. rewrite Z.div_0_l, Z.mod_0_l by lia. reflexivity. }
  rewrite G0 in EE. cbn [fst snd] in EE.
  rewrite cart_rank_inside in EE by lia.
  assert (Hw2 : exists rest, w2 = p0 :: rest).
  { apply proc_nth_error in Hp0. destruct Hp0 as (_ & Hp0).
    change (Z.to_nat 0) with O in Hp0.
    destruct w2 as [|a rest]; [discriminate|].
    injection Hp0 as ->. eauto. }
  destruct Hw2 as (rest & Hw2).
  match goal with |- bind ?m _ = _ => assert (E3 : m = Raise Blocked) end.
  { apply (col_phase_blocked 1 (-1)
             (fun p => west (neighbors p)) (fun p => east (neighbors p)) w2
             index_1_ok
             (grid_shapes np nx ny px py Hdims Hpx Hpy Hnp Hnx Hny w2 HL2)
             p0 rest (0 * py + (0 + 1)) Hw2 EE).
    intros ps Hps.
    destruct (grid_proc np nx ny px py Hdims Hpx Hpy Hnp Hnx Hny w2 _ ps HL2 Hps)
      as (_ & _ & _ & _ & EW & _).
    assert (G1 : Get_coords (px, py) (0 * py + (0 + 1)) = (0, 1)).
    { unfold Get_coords. cbn [snd]. f_equal.
      - symmetry. apply Z.div_unique with 1; lia.
      - symmetry. apply Z.mod_unique with 0; lia. }
    rewrite G1 in EW. cbn [fst snd] in EW. rewrite EW, Hrk.
    intros Hc. apply cart_rank_coords in Hc. lia. }
  rewrite E3. reflexivity.
Qed.

End Completion.

(** The halo exchange completes exactly in a process grid of one column.
    In every state of a run on a grid of [Px] x 1 processes the exchange
    returns; with two or more process columns it never returns: rank 0
    sends its column to the rank on its right, which the neighbour table
    lists as both ['west'] and ['east'], and waits for a message from that
    rank, which sends to its own right or to nobody. *)
Theorem exchange_completes_iff_one_column :
  forall (np nx ny : Z) (w : world),
    1 <= np -> 0 <= nx -> 0 <= ny ->
    laid_out np nx ny w ->
    (snd (Compute_dims np) = 1 ->
     exists w', exchange_ghost_cells w = Ok w' /\ laid_out np nx ny w') /\
    (2 <= snd (Compute_dims np) ->
     exchange_ghost_cells w = Raise Blocked).
Proof.
  intros np nx ny w Hnp Hnx Hny HL.
  destruct (Compute_dims_spec np Hnp) as (Hpy & Hpx & Hmul).
  destruct (Compute_dims np) as (px, py) eqn:Ed. cbn [fst snd] in *.
  split; intros Hc.
  - apply (exchange_one_column np nx ny px py); assumption.
  - apply (exchange_two_columns np nx ny px py); assumption.
Qed.

Lemma exchange_completes_iff_one_column_witness :
  exists w,
    init_world 4 6 6 = Ok w /\ exchange_ghost_cells w = Raise Blocked.
Proof.
  assert (E : exists w, init_world 4 6 6 = Ok w).
  { eexists. vm_compute. reflexivity. }
  destruct E as (w & Hw). exists w. split; [exact Hw|].
  destruct (exchange_completes_iff_one_column 4 6 6 w) as (_ & H);
    try lia.
  - apply laid_out_init; try lia. exact Hw.
  - apply H. vm_compute. discriminate.
Defined.

(** ** The stencil, continued *)

(** The outcome of one stencil update: the coefficients, the new solver
    object and its interior cells. *)
Lemma stencil_step (s : HeatSolverMPI) :
  shaped s -> 0 <= nx_local (config s) -> 0 <= ny_local (config s) ->
  ~ (dx (config s) == 0)%Q -> ~ (dy (config s) == 0)%Q ->
  exists s',
    apply_stencil s = Ok s' /\
    rank s' = rank s /\ size s' = size s /\
    neighbors s' = neighbors s /\ config s' = config s /\ shaped s' /\
    forall i j,
      1 <= i <= nx_local (config s) -> 1 <= j <= ny_local (config s) ->
      item (u s') i j
      = stencil_value
          (ALPHA * dt (config s) / sq (dx (config s)))
          (ALPHA * dt (config s) / sq (dy (config s))) (u s) i j.
Proof.
  intros (Hu0 & Hu1 & Hn0 & Hn1) Hx Hy Hdx Hdy.
  unfold apply_stencil, stencil_coeff.
  rewrite !py_div_Ok by (apply sq_nonzero; assumption).
  cbn [bind]. unfold arr_add, arr_sub.
  repeat (rewrite arr_map2_Ok by shape_tac; cbn [bind]).
  rewrite set_block_Ok by shape_tac. cbn [bind].
  match goal with |- context [apply_boundary_conditions ?t] =>
    destruct (enforcement_cells t) as
      (s' & Hr & Hrk & Hsz & Hnb & Hcf & Hs0 & Hs1 & Hs2 & Hs3 & Hcu & Hcn);
      [cbn; lia | cbn; lia | cbn; lia | cbn; lia |]
  end.
  cbn [set_bufs rank size neighbors config u u_new shape0 shape1] in *.
  exists s'. split; [exact Hr|].
  do 4 (split; [assumption|]).
  split; [unfold shaped; rewrite Hcf; lia|].
  intros i j Hi Hj. rewrite Hcu by lia.
  rewrite enforced_interior by lia.
  cbn [item]. rewrite !in_slice_inner by lia.
  replace ((1 <=? i) && (i <? shape0 (u_new s) - 1)) with true by zcases.
  replace ((1 <=? j) && (j <? shape1 (u_new s) - 1)) with true by zcases.
  cbn [andb get_block arr_scale item shape0 shape1].
  slices. unfold stencil_value.
  cell_eq.
Qed.

Lemma spacing_nonzero (n : Z) (d : Q) : spacing n = Ok d -> ~ (d == 0)%Q.
Proof.
  unfold spacing, py_div.
  destruct (Qeq_bool (inject_Z (n - 1)) 0) eqn:E; [discriminate|].
  intros H. injection H as <-.
  apply Qeq_bool_neq in E. intros H0. apply E.
  assert (H1 : (1 == 1 / inject_Z (n - 1) * inject_Z (n - 1))%Q)
    by (field; exact E).
  rewrite H0 in H1. lra.
Qed.

Lemma coeff_nonneg (alpha a m : Q) :
  (0 < alpha)%Q -> (0 < a)%Q -> (0 <= m)%Q ->
  (0 <= alpha * ((1 # 4) * m / alpha) / a)%Q.
Proof.
  intros Hal Ha Hm.
  assert (E : (alpha * ((1 # 4) * m / alpha) / a == (1 # 4) * (m / a))%Q).
  { field. split; intros E; [rewrite E in Ha | rewrite E in Hal]; discriminate. }
  rewrite E.
  assert (Hd : (0 <= m / a)%Q) by (apply Qle_shift_div_l; [assumption | lra]).
  lra.
Qed.

(** The stencil coefficients of a configuration made by [setup_topology]
    for a grid of at least two points per axis. *)
Lemma setup_coefficients np rk nx ny nb cfg :
  2 <= nx -> 2 <= ny ->
  setup_topology np rk nx ny = Ok (nb, cfg) ->
  ~ (dx cfg == 0)%Q /\ ~ (dy cfg == 0)%Q /\
  (0 <= ALPHA * dt cfg / sq (dx cfg) <= 1 # 4)%Q /\
  (0 <= ALPHA * dt cfg / sq (dy cfg) <= 1 # 4)%Q.
Proof.
  intros Hx Hy H.
  destruct (setup_topology_inv _ _ _ _ _ _ H) as
    (d1 & d2 & t0 & Ex & Ey & Et & _ & ->).
  cbn [dx dy dt].
  destruct (spacing_pos nx Hx) as (d1' & Ex' & Hdx).
  destruct (spacing_pos ny Hy) as (d2' & Ey' & Hdy).
  assert (d1' = d1) by congruence. assert (d2' = d2) by congruence.
  subst d1' d2'.
  pose proof (sq_pos d1 Hdx) as Ha. pose proof (sq_pos d2 Hdy) as Hb.
  unfold time_step in Et. rewrite py_div_Ok in Et by discriminate.
  injection Et as <-.
  pose proof (Q.le_min_l (sq d1) (sq d2)) as Hl.
  pose proof (Q.le_min_r (sq d1) (sq d2)) as Hr.
  assert (Hm : (0 <= Qmin (sq d1) (sq d2))%Q) by (apply Q.min_glb; lra).
  assert (Hal : (0 < ALPHA)%Q) by reflexivity.
  split; [intros E; rewrite E in Hdx; discriminate|].
  split; [intros E; rewrite E in Hdy; discriminate|].
  split; split.
  - apply coeff_nonneg; assumption.
  - apply coeff_bound; assumption.
  - apply coeff_nonneg; assumption.
  - apply coeff_bound; assumption.
Qed.

Lemma convex_step (rx ry c n s w e lo hi : Q) :
  (0 <= rx)%Q -> (0 <= ry)%Q -> (rx + ry <= 1 # 2)%Q ->
  (lo <= c <= hi)%Q -> (lo <= n <= hi)%Q -> (lo <= s <= hi)%Q ->
  (lo <= w <= hi)%Q -> (lo <= e <= hi)%Q ->
  (lo <= c + rx * (n - 2 * c + s) + ry * (w - 2 * c + e) <= hi)%Q.
Proof.
  intros Hrx Hry Hr Hc Hn Hs Hw He. split; nra.
Qed.

(** The discrete maximum principle. With the time step chosen at
    construction for a grid of at least two points per axis, the stencil
    update of an interior cell is a weighted mean of the cell and its four
    neighbours: when these five cells hold numbers between [lo] and [hi],
    so does the cell after the update. No new extremum appears inside the
    field. *)
Theorem stencil_maximum_principle :
  forall (np rk nx ny : Z) (nb : Neighbors) (s : HeatSolverMPI)
         (i j : Z) (c n so w e lo hi : Q),
    2 <= nx -> 2 <= ny ->
    setup_topology np rk nx ny = Ok (nb, config s) ->
    shaped s ->
    1 <= i <= nx_local (config s) -> 1 <= j <= ny_local (config s) ->
    item (u s) i j = Num c ->
    item (u s) (i - 1) j = Num n -> item (u s) (i + 1) j = Num so ->
    item (u s) i (j - 1) = Num w -> item (u s) i (j + 1) = Num e ->
    (lo <= c <= hi)%Q -> (lo <= n <= hi)%Q -> (lo <= so <= hi)%Q ->
    (lo <= w <= hi)%Q -> (lo <= e <= hi)%Q ->
    exists s' x,
      apply_stencil s = Ok s' /\
      item (u s') i j = Num x /\ (lo <= x <= hi)%Q.
Proof.
  intros np rk nx ny nb s i j c n so w e lo hi Hx Hy Hst Hsh Hi Hj
    Ec En Es Ew Ee Bc Bn Bs Bw Be.
  destruct (setup_coefficients _ _ _ _ _ _ Hx Hy Hst) as
    (Hdx & Hdy & (Rx0 & Rx1) & (Ry0 & Ry1)).
  destruct (stencil_step s Hsh ltac:(lia) ltac:(lia) Hdx Hdy) as
    (s' & Hr & _ & _ & _ & _ & _ & Hcell).
  exists s'. eexists. split; [exact Hr|].
  rewrite Hcell by assumption. unfold stencil_value.
  rewrite Ec, En, Es, Ew, Ee. cbn [cadd csub cmul lift2].
  split; [reflexivity|].
  apply convex_step; try assumption. lra.
Qed.

Lemma stencil_maximum_principle_witness :
  exists s s' x,
    init 1 0 3 3 = Ok s /\ apply_stencil s = Ok s' /\
    item (u s') 1 1 = Num x /\ (0 <= x <= 100)%Q.
Proof.
  assert (E : exists s nb,
             init 1 0 3 3 = Ok s /\
             setup_topology 1 0 3 3 = Ok (nb, config s) /\ shaped s /\
             nx_local (config s) = 3 /\ ny_local (config s) = 3 /\
             item (u s) 1 1 = Num 20 /\ item (u s) 0 1 = Num 100 /\
             item (u s) 2 1 = Num 20 /\ item (u s) 1 0 = Num 0 /\
             item (u s) 1 2 = Num 20).
  { do 2 eexists. split; [vm_compute; reflexivity|].
    split; [vm_compute; reflexivity|]. cbn. repeat split. }
  destruct E as (s & nb & Hs & Hst & Hsh & H0 & H1 & Ec & En & Es & Ew & Ee).
  destruct (stencil_maximum_principle 1 0 3 3 nb s 1 1 20 100 20 0 20 0 100)
    as (s' & x & Hr & Hx & Hb);
    try assumption; try lia; try (split; discriminate).
  exists s, s', x. repeat split; try assumption; apply Hb.
Defined.

Lemma stencil_value_nan rx ry a i j :
  item a (i - 1) j = NaN \/ item a (i + 1) j = NaN \/
  item a i (j - 1) = NaN \/ item a i (j + 1) = NaN ->
  stencil_value rx ry a i j = NaN.
Proof.
  unfold stencil_value. intros H.
  destruct (item a i j), (item a (i - 1) j), (item a (i + 1) j),
    (item a i (j - 1)), (item a i (j + 1));
    cbn [cadd csub cmul lift2]; try reflexivity;
    destruct H as [H | [H | [H | H]]]; discriminate.
Qed.

(** What the layout of a run says about one of its processes. *)
Lemma laid_out_proc np nx ny (w : world) r p :
  1 <= np -> 0 <= nx -> 0 <= ny ->
  laid_out np nx ny w -> proc w r = Some p ->
  rank p = r /\ size p = np /\ shaped p /\
  nx_global (config p) = nx /\ ny_global (config p) = ny /\
  dims (config p) = Compute_dims np /\
  0 <= nx_local (config p) /\ 0 <= ny_local (config p) /\
  ~ (dx (config p) == 0)%Q /\ ~ (dy (config p) == 0)%Q.
Proof.
  intros Hnp Hnx Hny (_ & H) Hp.
  destruct (H r p Hp) as (Hrk & Hsz & Hsh & Hst).
  destruct (setup_topology_inv _ _ _ _ _ _ Hst) as
    (d1 & d2 & t0 & Ex & Ey & _ & _ & Ec).
  destruct (Compute_dims_spec np Hnp) as (Hpy & Hpx & _).
  rewrite Ec. cbn [nx_global ny_global dims nx_local ny_local dx dy].
  split; [exact Hrk|]. split; [exact Hsz|]. split; [exact Hsh|].
  do 3 (split; [reflexivity|]).
  split; [apply local_size_nonneg; lia|].
  split; [apply local_size_nonneg; lia|].
  split; eapply spacing_nonzero; eassumption.
Qed.

(** The stencil update of every process of a run succeeds and keeps the
    layout. *)
Lemma laid_out_stencil np nx ny (w : world) :
  1 <= np -> 0 <= nx -> 0 <= ny ->
  laid_out np nx ny w ->
  exists w2, mapM apply_stencil w = Ok w2 /\ laid_out np nx ny w2.
Proof.
  intros Hnp Hnx Hny HL.
  destruct (mapM_exists apply_stencil w) as (w2 & Hw2).
  { intros p Hin. apply In_nth_error in Hin. destruct Hin as (k & Hk).
    assert (Hp : proc w (Z.of_nat k) = Some p)
      by (apply proc_nth_error; rewrite Nat2Z.id; split; [lia | exact Hk]).
    destruct (laid_out_proc _ _ _ _ _ _ Hnp Hnx Hny HL Hp) as
      (_ & _ & Hsh & _ & _ & _ & L0 & L1 & D0 & D1).
    destruct (stencil_step p Hsh L0 L1 D0 D1) as (s' & Hs' & _). eauto. }
  exists w2. split; [exact Hw2|].
  destruct HL as (Hl & H). split.
  - apply mapM_length in Hw2. lia.
  - intros r p2 Hp2. apply proc_nth_error in Hp2. destruct Hp2 as (Hr & Hp2).
    destruct (nth_error_same_length w2 w _ p2 (mapM_length _ _ _ Hw2) Hp2)
      as (p & Hp).
    destruct (mapM_nth_error _ _ _ Hw2 _ _ Hp) as (p2' & Hp2' & Hs).
    assert (p2' = p2) by congruence. subst p2'.
    assert (Hpp : proc w r = Some p) by (apply proc_nth_error; auto).
    destruct (laid_out_proc _ _ _ _ _ _ Hnp Hnx Hny (conj Hl H) Hpp) as
      (_ & _ & Hsh & _ & _ & _ & L0 & L1 & D0 & D1).
    destruct (stencil_step p Hsh L0 L1 D0 D1) as
      (s' & Hs' & A1 & A2 & A3 & A4 & A5 & _).
    assert (s' = p2) by congruence. subst s'.
    destruct (H r p Hpp) as (Hrk & Hsz & _ & Hst).
    rewrite A1, A2, A3, A4. auto.
Qed.

(** One time step of [run], the exchange followed by the stencil update,
    leaves not-a-number in every interior cell that lies next to a side
    without neighbour entry: the exchange has overwritten the boundary
    value in the halo of such a side with not-a-number, and the stencil
    reads it. In a run, the Dirichlet boundary values therefore never
    enter the interior. *)
Theorem time_step_poisons_edge_cells :
  forall (np nx ny : Z) (w w1 w2 : world) (r : Z) (p : HeatSolverMPI),
    1 <= np -> 0 <= nx -> 0 <= ny ->
    laid_out np nx ny w ->
    exchange_ghost_cells w = Ok w1 ->
    mapM apply_stencil w1 = Ok w2 ->
    proc w r = Some p ->
    exists p2,
      proc w2 r = Some p2 /\
      forall i j,
        1 <= i <= nx_local (config p) -> 1 <= j <= ny_local (config p) ->
        (north (neighbors p) = None /\ i = 1) \/
        (south (neighbors p) = None /\ i = nx_local (config p)) \/
        (west (neighbors p) = None /\ j = 1) \/
        (east (neighbors p) = None /\ j = ny_local (config p)) ->
        item (u p2) i j = NaN.
Proof.
  intros np nx ny w w1 w2 r p Hnp Hnx Hny HL Hx Hst Hp.
  pose proof (laid_out_kept _ _ _ _ _ _ (exchange_halo_only _ _ Hx) HL) as HL1.
  pose proof Hp as Hpn. apply proc_nth_error in Hpn. destruct Hpn as (Hr & Hpn).
  destruct (exchange_sides w w1 _ p Hx Hpn) as
    (p1 & Hp1 & NS & _ & NN & _ & NE & _ & NW & _).
  pose proof (kept_w_at _ _ _ _ _ _ (exchange_halo_only _ _ Hx) Hpn Hp1) as K.
  destruct K as (_ & _ & Knb & Kcf & _ & K0 & K1 & _).
  assert (Hpp1 : proc w1 r = Some p1) by (apply proc_nth_error; auto).
  destruct (laid_out_proc _ _ _ _ _ _ Hnp Hnx Hny HL Hp) as
    (_ & _ & (S0 & S1 & _) & _).
  destruct (laid_out_proc _ _ _ _ _ _ Hnp Hnx Hny HL1 Hpp1) as
    (_ & _ & Hsh & _ & _ & _ & L0 & L1 & D0 & D1).
  destruct (mapM_nth_error _ _ _ Hst _ _ Hp1) as (p2 & Hp2 & Hs).
  destruct (stencil_step p1 Hsh L0 L1 D0 D1) as
    (s' & Hs' & _ & _ & _ & _ & _ & Hcell).
  assert (s' = p2) by congruence. subst s'.
  exists p2. split; [apply proc_nth_error; auto|].
  intros i j Hi Hj Hside.
  rewrite Hcell by (rewrite Kcf; assumption).
  apply stencil_value_nan.
  destruct Hside as [(Hn & ->) | [(Hn & ->) | [(Hn & ->) | (Hn & ->)]]].
  - left. change (1 - 1) with 0. apply NN; [exact Hn | lia].
  - right. left. replace (nx_local (config p) + 1) with (shape0 (u p) - 1) by lia.
    apply NS; [exact Hn | lia].
  - right. right. left. change (1 - 1) with 0. apply NW; [exact Hn | lia].
  - right. right. right.
    replace (ny_local (config p) + 1) with (shape1 (u p) - 1) by lia.
    apply NE; [exact Hn | lia].
Qed.

Lemma time_step_poisons_edge_cells_witness :
  exists w w1 w2 p2,
    init_world 1 3 3 = Ok w /\ exchange_ghost_cells w = Ok w1 /\
    mapM apply_stencil w1 = Ok w2 /\ proc w2 0 = Some p2 /\
    item (u p2) 1 2 = NaN.
Proof.
  assert (E : exists w w1 w2 p,
             init_world 1 3 3 = Ok w /\ exchange_ghost_cells w = Ok w1 /\
             mapM apply_stencil w1 = Ok w2 /\ proc w 0 = Some p /\
             north (neighbors p) = None /\
             nx_local (config p) = 3 /\ ny_local (config p) = 3).
  { do 4 eexists. split; [vm_compute; reflexivity|].
    split; [vm_compute; reflexivity|].
    split; [vm_compute; reflexivity|].
    split; [vm_compute; reflexivity|]. repeat split. }
  destruct E as (w & w1 & w2 & p & Hw & Hx & Hs & Hp & Hn & H0 & H1).
  destruct (time_step_poisons_edge_cells 1 3 3 w w1 w2 0 p) as (p2 & Hp2 & Hc);
    try assumption; try lia.
  { apply laid_out_init; try lia. exact Hw. }
  exists w, w1, w2, p2. repeat split; try assumption.
  apply Hc; try lia. left. split; [exact Hn | reflexivity].
Defined.

(** ** The gather, continued *)

Lemma laid_out_gather_ready np nx ny px py (w : world) :
  1 <= np -> 0 <= nx -> 0 <= ny -> Compute_dims np = (px, py) ->
  laid_out np nx ny w -> gather_ready nx ny px py w.
Proof.
  intros Hnp Hnx Hny Hd (Hl & H).
  destruct (Compute_dims_spec np Hnp) as (Hpy & Hpx & Hmul).
  rewrite Hd in Hpy, Hpx, Hmul. cbn [fst snd] in Hpy, Hpx, Hmul.
  unfold gather_ready. do 4 (split; [assumption|]).
  split; [lia|].
  intros r p Hp.
  destruct (H r p Hp) as (Hrk & Hsz & (S0 & S1 & _) & Hst).
  destruct (setup_topology_inv _ _ _ _ _ _ Hst) as
    (d1 & d2 & t0 & _ & _ & _ & _ & Ec).
  rewrite Hd in Ec. rewrite S0, S1, Ec.
  cbn [nx_global ny_global nx_local ny_local dims fst snd].
  repeat split; try assumption; lia.
Qed.

(** Every cell of an array assembled from the blocks of the processes
    comes from an interior cell of one of them. *)
Lemma blocks_cover nx ny px py (w : world) (g : ndarray) :
  gather_ready nx ny px py w ->
  (forall r p, proc w r = Some p ->
     forall i j,
       0 <= i < local_size nx px (fst (Get_coords (px, py) r)) ->
       0 <= j < local_size ny py (snd (Get_coords (px, py) r)) ->
       item g (start_index nx px (fst (Get_coords (px, py) r)) + i)
              (start_index ny py (snd (Get_coords (px, py) r)) + j)
       = item (u p) (i + 1) (j + 1)) ->
  forall a b, 0 <= a < nx -> 0 <= b < ny ->
    exists r p i j,
      proc w r = Some p /\
      1 <= i <= shape0 (u p) - 2 /\ 1 <= j <= shape1 (u p) - 2 /\
      item g a b = item (u p) i j.
Proof.
  intros (Hnx & Hny & Hpx & Hpy & Hl & H) Hg a b Ha Hb.
  destruct (owner_exists nx px a Hnx Hpx (Z.to_nat px)) as (cx & Hcx & Ox).
  { rewrite Z2Nat.id by lia. rewrite start_index_total by lia. lia. }
  destruct (owner_exists ny py b Hny Hpy (Z.to_nat py)) as (cy & Hcy & Oy).
  { rewrite Z2Nat.id by lia. rewrite start_index_total by lia. lia. }
  rewrite Z2Nat.id in Hcx, Hcy by lia.
  pose proof (cart_rank_inside px py cx cy Hcx Hcy) as Hr.
  destruct (cart_rank_coords _ _ _ _ _ Hr) as (_ & _ & _ & Eg & Rr).
  set (r := cx * py + cy) in *.
  destruct (nth_error w (Z.to_nat r)) as [p|] eqn:Ep;
    [|apply nth_error_None in Ep; lia].
  assert (Hp : proc w r = Some p) by (apply proc_nth_error; split; [lia | exact Ep]).
  destruct (H r p Hp) as (_ & _ & _ & _ & _ & S0 & S1).
  rewrite Eg in S0, S1. cbn [fst snd] in S0, S1.
  exists r, p, (a - start_index nx px cx + 1), (b - start_index ny py cy + 1).
  split; [exact Hp|]. split; [lia|]. split; [lia|].
  specialize (Hg r p Hp (a - start_index nx px cx) (b - start_index ny py cy)).
  rewrite Eg in Hg. cbn [fst snd] in Hg.
  rewrite <- Hg by lia. f_equal; lia.
Qed.

(** The gather on rank 0 in any state of a run, with one process or more:
    the array returned and where the block of each process lies in it. *)
Lemma gather_blocks np nx ny px py (w : world) (me : HeatSolverMPI) :
  1 <= np -> 0 <= nx -> 0 <= ny -> Compute_dims np = (px, py) ->
  laid_out np nx ny w -> proc w 0 = Some me ->
  exists g calls,
    gather_global_solution w me = Ok (Some g, calls) /\
    shape0 g = nx /\ shape1 g = ny /\
    forall r p, proc w r = Some p ->
      forall i j,
        0 <= i < local_size nx px (fst (Get_coords (px, py) r)) ->
        0 <= j < local_size ny py (snd (Get_coords (px, py) r)) ->
        item g (start_index nx px (fst (Get_coords (px, py) r)) + i)
               (start_index ny py (snd (Get_coords (px, py) r)) + j)
        = item (u p) (i + 1) (j + 1).
Proof.
  intros Hnp Hnx Hny Hd HL Hme.
  pose proof (laid_out_gather_ready _ _ _ _ _ _ Hnp Hnx Hny Hd HL) as HR.
  destruct (Compute_dims_spec np Hnp) as (Hpy & Hpx & Hmul).
  rewrite Hd in Hpy, Hpx, Hmul. cbn [fst snd] in Hpy, Hpx, Hmul.
  destruct (Z.eq_dec np 1) as [E1 | E1].
  - assert (px = 1 /\ py = 1) as (-> & ->) by nia.
    destruct HR as (_ & _ & _ & _ & Hl & H).
    destruct (H 0 me Hme) as (_ & Hsz & _ & _ & _ & S0 & S1).
    unfold gather_global_solution. rewrite Hsz. change (1 * 1 =? 1) with true.
    cbv iota. do 2 eexists. split; [reflexivity|].
    assert (G0 : Get_coords (1, 1) 0 = (0, 0)) by reflexivity.
    rewrite G0 in S0, S1. cbn [fst snd] in S0, S1.
    assert (L0 : local_size nx 1 0 = nx).
    { unfold local_size. cbv zeta. rewrite Z.div_1_r, Z.mod_1_r.
      change (0 <? 0) with false. reflexivity. }
    assert (L1 : local_size ny 1 0 = ny).
    { unfold local_size. cbv zeta. rewrite Z.div_1_r, Z.mod_1_r.
      change (0 <? 0) with false. reflexivity. }
    cbn [get_block shape0 shape1 item].
    rewrite !slice_len_inner by lia.
    split; [lia|]. split; [lia|].
    intros r p Hp i j Hi Hj.
    assert (r = 0).
    { apply proc_nth_error in Hp. destruct Hp as (Hr & Hp).
      assert ((Z.to_nat r < length w)%nat) by (apply nth_error_Some; congruence).
      lia. }
    subst r. assert (p = me) by congruence. subst p.
    rewrite G0. cbn [fst snd].
    rewrite !start_index_0 by lia. rewrite !slice_lo_inner.
    f_equal; lia.
  - destruct (gather_on_root nx ny px py w HR me Hme ltac:(lia)) as
      (g & Hg & G0 & G1 & Hb).
    exists g. eexists. split; [exact Hg|]. auto.
Qed.

(** The gathered array has no cell of its own: in any state of a run,
    every cell of the array that rank 0 obtains is an interior cell of the
    current buffer of some process, so that nothing of the zero-filled
    array allocated for the result remains. *)
Theorem gather_covers_every_cell :
  forall (np nx ny : Z) (w : world) (me : HeatSolverMPI),
    1 <= np -> 0 <= nx -> 0 <= ny ->
    laid_out np nx ny w -> proc w 0 = Some me ->
    exists g calls,
      gather_global_solution w me = Ok (Some g, calls) /\
      shape0 g = nx /\ shape1 g = ny /\
      forall a b, 0 <= a < nx -> 0 <= b < ny ->
        exists r p i j,
          proc w r = Some p /\
          1 <= i <= nx_local (config p) /\ 1 <= j <= ny_local (config p) /\
          item g a b = item (u p) i j.
Proof.
  intros np nx ny w me Hnp Hnx Hny HL Hme.
  destruct (Compute_dims np) as (px, py) eqn:Hd.
  destruct (gather_blocks _ _ _ _ _ _ _ Hnp Hnx Hny Hd HL Hme) as
    (g & calls & Hg & G0 & G1 & Hb).
  exists g, calls. split; [exact Hg|]. split; [exact G0|]. split; [exact G1|].
  intros a b Ha Hb'.
  pose proof (laid_out_gather_ready _ _ _ _ _ _ Hnp Hnx Hny Hd HL) as HR.
  destruct (blocks_cover _ _ _ _ _ _ HR Hb a b Ha Hb') as
    (r & p & i & j & Hp & Hi & Hj & Hc).
  destruct (laid_out_proc _ _ _ _ _ _ Hnp Hnx Hny HL Hp) as
    (_ & _ & (S0 & S1 & _) & _).
  exists r, p, i, j. split; [exact Hp|]. split; [lia|]. split; [lia | exact Hc].
Qed.

Lemma gather_covers_every_cell_witness :
  exists w me g calls r p i j,
    init_world 3 5 4 = Ok w /\ proc w 0 = Some me /\
    gather_global_solution w me = Ok (Some g, calls) /\
    proc w r = Some p /\ item g 4 2 = item (u p) i j.
Proof.
  assert (E : exists w me, init_world 3 5 4 = Ok w /\ proc w 0 = Some me).
  { do 2 eexists. split; vm_compute; reflexivity. }
  destruct E as (w & me & Hw & Hme).
  destruct (gather_covers_every_cell 3 5 4 w me) as
    (g & calls & Hg & _ & _ & Hc); try lia; try assumption.
  { apply laid_out_init; try lia. exact Hw. }
  destruct (Hc 4 2) as (r & p & i & j & Hp & _ & _ & Hitem); try lia.
  exists w, me, g, calls, r, p, i, j. repeat split; assumption.
Defined.

(** The field gathered right after construction is uniform: every cell
    of the array rank 0 obtains holds the initial temperature, whatever
    the number of processes. The Dirichlet boundary values live in halo
    cells only and are not part of the gathered field, nor of the snapshot
    written from it. *)
Theorem initial_field_is_uniform :
  forall (np nx ny : Z) (w : world) (me : HeatSolverMPI),
    1 <= np -> 0 <= nx -> 0 <= ny ->
    init_world np nx ny = Ok w -> proc w 0 = Some me ->
    exists g calls,
      gather_global_solution w me = Ok (Some g, calls) /\
      shape0 g = nx /\ shape1 g = ny /\
      forall a b, 0 <= a < nx -> 0 <= b < ny -> item g a b = T_INITIAL.
Proof.
  intros np nx ny w me Hnp Hnx Hny Hw Hme.
  pose proof (laid_out_init _ _ _ _ Hnp Hnx Hny Hw) as HL.
  destruct (Compute_dims np) as (px, py) eqn:Hd.
  destruct (gather_blocks _ _ _ _ _ _ _ Hnp Hnx Hny Hd HL Hme) as
    (g & calls & Hg & G0 & G1 & Hb).
  exists g, calls. split; [exact Hg|]. split; [exact G0|]. split; [exact G1|].
  intros a b Ha Hb'.
  pose proof (laid_out_gather_ready _ _ _ _ _ _ Hnp Hnx Hny Hd HL) as HR.
  destruct (blocks_cover _ _ _ _ _ _ HR Hb a b Ha Hb') as
    (r & p & i & j & Hp & Hi & Hj & ->).
  destruct (init_world_proc _ _ _ _ _ _ Hw Hp) as (_ & Hinit).
  destruct (init_inv _ _ _ _ _ Hnp Hnx Hny Hinit) as
    (nb & cfg & _ & _ & _ & _ & _ & _ & _ & _ & Ta & _).
  rewrite Ta by lia. apply enforced_interior; lia.
Qed.

Lemma initial_field_is_uniform_witness :
  exists w me g calls,
    init_world 4 6 6 = Ok w /\ proc w 0 = Some me /\
    gather_global_solution w me = Ok (Some g, calls) /\
    item g 0 0 = T_INITIAL /\ item g 5 5 = T_INITIAL.
Proof.
  assert (E : exists w me, init_world 4 6 6 = Ok w /\ proc w 0 = Some me).
  { do 2 eexists. split; vm_compute; reflexivity. }
  destruct E as (w & me & Hw & Hme).
  destruct (initial_field_is_uniform 4 6 6 w me) as
    (g & calls & Hg & _ & _ & Hc); try lia; try assumption.
  exists w, me, g, calls. repeat split; try assumption; apply Hc; lia.
Defined.

(** ** The time loop *)

Lemma save_rank0 np nx ny (w : world) (me : HeatSolverMPI) t dir :
  1 <= np -> 0 <= nx -> 0 <= ny ->
  laid_out np nx ny w -> proc w 0 = Some me ->
  exists text,
    save_solution w me t dir
    = Ok (Some ((dir ++ "/heat_solution_" ++ format_05d t ++ ".dat")%string,
                text)).
Proof.
  intros Hnp Hnx Hny HL Hme.
  destruct (Compute_dims np) as (px, py) eqn:Hd.
  destruct (gather_blocks _ _ _ _ _ _ _ Hnp Hnx Hny Hd HL Hme) as
    (g & calls & Hg & G0 & G1 & _).
  destruct (laid_out_proc _ _ _ _ _ _ Hnp Hnx Hny HL Hme) as
    (Hrk & _ & _ & Cx & Cy & _).
  destruct (snapshot_lines (config me) t g ltac:(congruence) ltac:(congruence))
    as (text & rows & Ht & _).
  exists text. unfold save_solution. rewrite Hg. cbn [bind fst].
  rewrite Hrk. change (0 =? 0) with true. cbv iota.
  rewrite Ht. reflexivity.
Qed.

Lemma save_other np nx ny (w : world) (p : HeatSolverMPI) r t dir :
  1 <= np -> 0 <= nx -> 0 <= ny ->
  laid_out np nx ny w -> proc w r = Some p -> r <> 0 ->
  save_solution w p t dir = Ok None.
Proof.
  intros Hnp Hnx Hny HL Hp Hr.
  destruct (laid_out_proc _ _ _ _ _ _ Hnp Hnx Hny HL Hp) as (Hrk & Hsz & _).
  assert (Hr' : 0 <= r < np).
  { destruct HL as (Hl & _).
    apply proc_nth_error in Hp. destruct Hp as (Hr0 & Hp).
    assert ((Z.to_nat r < length w)%nat) by (apply nth_error_Some; congruence).
    lia. }
  unfold save_solution, gather_global_solution. rewrite Hsz, Hrk.
  replace (np =? 1) with false by (symmetry; apply Z.eqb_neq; lia).
  replace (r =? 0) with false by (symmetry; apply Z.eqb_neq; lia).
  reflexivity.
Qed.

Lemma somes_none {A B : Type} (l : list B) :
  somes (map (fun _ => @None A) l) = [].
Proof. induction l as [|b l IH]; [reflexivity | exact IH]. Qed.

Lemma world_head (w : world) p0 :
  proc w 0 = Some p0 -> exists rest, w = p0 :: rest.
Proof.
  intros H. apply proc_nth_error in H. destruct H as (_ & H).
  change (Z.to_nat 0) with O in H.
  destruct w as [|a rest]; [discriminate|]. injection H as ->. eauto.
Qed.

Lemma world_tail p0 (rest : world) p :
  In p rest -> exists r, proc (p0 :: rest) r = Some p /\ r <> 0.
Proof.
  intros Hin. apply In_nth_error in Hin. destruct Hin as (k & Hk).
  exists (Z.of_nat (S k)). split; [|lia].
  apply proc_nth_error. rewrite Nat2Z.id. split; [lia | exact Hk].
Qed.

Lemma mapM_unfold {A B : Type} (f : A -> result B) l a rest :
  l = a :: rest ->
  mapM f l = (b <- f a ;; bs <- mapM f rest ;; Ok (b :: bs)).
Proof. intros ->. reflexivity. Qed.

(** In any state of a run, a save writes exactly one file, the snapshot
    of rank 0. *)
Lemma save_all_one_file np nx ny (w : world) t :
  1 <= np -> 0 <= nx -> 0 <= ny ->
  laid_out np nx ny w ->
  exists text, save_all w t = Ok [(snapshot_name t, text)].
Proof.
  intros Hnp Hnx Hny HL.
  destruct (grid_has np nx ny w 0 HL ltac:(lia)) as (p0 & Hp0).
  destruct (world_head w p0 Hp0) as (rest & Hw).
  destruct (save_rank0 np nx ny w p0 t default_output_dir Hnp Hnx Hny HL Hp0)
    as (text & Ht).
  exists text. unfold save_all.
  rewrite (mapM_unfold _ w p0 rest Hw), Ht. cbn [bind].
  rewrite (mapM_Ok _ (fun _ => None) rest).
  - cbn [bind somes]. rewrite somes_none. reflexivity.
  - intros p Hin. destruct (world_tail p0 rest p Hin) as (r & Hp & Hr).
    rewrite <- Hw in Hp.
    apply (save_other np nx ny w p r t _ Hnp Hnx Hny HL Hp Hr).
Qed.

Lemma py_mod_Ok a b : b <> 0 -> py_mod a b = Ok (a mod b).
Proof.
  intros H. unfold py_mod.
  replace (b =? 0) with false by (symmetry; apply Z.eqb_neq; exact H).
  reflexivity.
Qed.

Lemma steps_cons n :
  1 <= n -> exists rest, map (Z.add 1) (zseq n) = 1 :: rest.
Proof.
  intros H. unfold zseq.
  destruct (Z.to_nat n) as [|m] eqn:E; [lia|].
  cbn [seq map]. eexists. reflexivity.
Qed.

Section Loop.

Variables np nx ny : Z.
Hypothesis Hnp : 1 <= np.
Hypothesis Hnx : 0 <= nx.
Hypothesis Hny : 0 <= ny.

Lemma run_step_ok (w : world) (files : list file) (k step : Z) :
  snd (Compute_dims np) = 1 -> k <> 0 ->
  laid_out np nx ny w ->
  exists w' saved,
    run_step k (w, files) step = Ok (w', files ++ saved) /\
    laid_out np nx ny w' /\
    map fst saved = (if step mod k =? 0 then [snapshot_name step] else []).
Proof.
  intros Hone Hk HL.
  destruct (Compute_dims_spec np Hnp) as (Hpy & Hpx & Hmul).
  destruct (Compute_dims np) as (px, py) eqn:Hd. cbn [fst snd] in *.
  destruct (exchange_one_column np nx ny px py Hd Hpx Hpy Hmul Hnx Hny w Hone HL)
    as (w1 & E1 & HL1).
  destruct (laid_out_stencil np nx ny w1 Hnp Hnx Hny HL1) as (w2 & E2 & HL2).
  unfold run_step. rewrite E1. cbn [bind]. rewrite E2. cbn [bind].
  rewrite (py_mod_Ok step k Hk). cbn [bind].
  destruct (step mod k =? 0).
  - destruct (save_all_one_file np nx ny w2 step Hnp Hnx Hny HL2) as (text & Ht).
    rewrite Ht. cbn [bind]. do 2 eexists. split; [reflexivity|].
    split; [exact HL2 | reflexivity].
  - exists w2, []. rewrite app_nil_r. split; [reflexivity|].
    split; [exact HL2 | reflexivity].
Qed.

Lemma run_loop_ok (k : Z) (steps : list Z) :
  snd (Compute_dims np) = 1 -> k <> 0 ->
  forall (w : world) (files : list file),
    laid_out np nx ny w ->
    exists w' files',
      foldM (run_step k) steps (w, files) = Ok (w', files') /\
      laid_out np nx ny w' /\
      map fst files'
      = map fst files
        ++ map snapshot_name (filter (fun step => step mod k =? 0) steps).
Proof.
  intros Hone Hk. induction steps as [|step steps IH]; intros w files HL.
  - exists w, files. cbn [foldM filter map]. rewrite app_nil_r. auto.
  - destruct (run_step_ok w files k step Hone Hk HL) as (w1 & saved & E1 & HL1 & Hs).
    destruct (IH w1 (files ++ saved) HL1) as (w' & files' & E & HL' & Hf).
    exists w', files'. cbn [foldM]. rewrite E1. cbn [bind].
    split; [exact E|]. split; [exact HL'|].
    rewrite Hf, map_app, <- app_assoc. apply f_equal.
    transitivity ((if step mod k =? 0 then [snapshot_name step] else [])
                  ++ map snapshot_name
                       (filter (fun step => step mod k =? 0) steps)).
    { apply (f_equal (fun l => l ++ _)). exact Hs. }
    cbn [filter]. destruct (step mod k =? 0); reflexivity.
Qed.

Lemma summary_ok (w : world) (n : Z) (elapsed : Q) :
  n <> 0 -> ~ (elapsed == 0)%Q ->
  exists summary,
    mapM (fun p => if rank p =? 0
                   then s <- performance (config p) n elapsed ;; Ok (Some s)
                   else Ok None) w = Ok summary.
Proof.
  intros Hn He. apply mapM_exists. intros p _.
  destruct (rank p =? 0); [|eauto].
  unfold performance. cbv zeta.
  rewrite (py_div_Ok _ elapsed He). cbn [bind].
  rewrite py_div_Ok.
  - cbn [bind]. eauto.
  - intros E. unfold Qeq in E. cbn in E. lia.
Qed.

End Loop.

Lemma count_saved_steps (k : Z) (n : nat) :
  1 <= k ->
  Z.of_nat (length (saved_steps (Z.of_nat n) k)) = Z.of_nat n / k.
Proof.
  intros Hk. unfold saved_steps. induction n as [|n IH].
  - change (Z.of_nat 0) with 0. rewrite Z.div_0_l by lia. reflexivity.
  - replace (Z.of_nat (S n)) with (Z.of_nat n + 1) by lia.
    rewrite zseq_succ, map_app, filter_app, length_app by lia.
    rewrite Nat2Z.inj_add, IH. cbn [map filter].
    pose proof (Z.div_mod (Z.of_nat n) k ltac:(lia)) as E.
    pose proof (Z.mod_pos_bound (Z.of_nat n) k ltac:(lia)) as B.
    set (q := Z.of_nat n / k) in *. set (r := Z.of_nat n mod k) in *.
    destruct (Z.eq_dec r (k - 1)) as [Er | Er].
    + replace ((1 + Z.of_nat n) mod k) with 0
        by (apply Z.mod_unique with (q + 1); lia).
      change (0 =? 0) with true. cbn [length].
      replace ((Z.of_nat n + 1) / k) with (q + 1)
        by (apply Z.div_unique with 0; lia).
      lia.
    + replace ((1 + Z.of_nat n) mod k) with (r + 1)
        by (apply Z.mod_unique with q; lia).
      replace (r + 1 =? 0) with false by (symmetry; apply Z.eqb_neq; lia).
      cbn [length].
      replace ((Z.of_nat n + 1) / k) with q
        by (apply Z.div_unique with (r + 1); lia).
      lia.
Qed.

(** A run on a process grid of one column goes through. In any state of
    such a run, for a number of steps other than 0, a save interval other
    than 0 and a non-zero elapsed time, [run] returns; the processes keep
    their layout; and the files written are, in this order, the snapshot
    of time step 0 and the snapshots of the time steps [1 .. n_steps]
    that are multiples of the save interval, one file each: in all
    [1 + n_steps // save_interval] files for a positive interval. *)
Theorem run_single_column :
  forall (np nx ny : Z) (w : world) (n_steps save_interval : Z) (elapsed : Q),
    1 <= np -> 0 <= nx -> 0 <= ny ->
    snd (Compute_dims np) = 1 ->
    laid_out np nx ny w ->
    n_steps <> 0 -> save_interval <> 0 -> ~ (elapsed == 0)%Q ->
    exists w' files summary,
      run w n_steps save_interval elapsed = Ok (w', files, summary) /\
      laid_out np nx ny w' /\
      map fst files
      = snapshot_name 0
        :: map snapshot_name (saved_steps n_steps save_interval) /\
      (1 <= save_interval -> 0 <= n_steps ->
       Z.of_nat (length files) = 1 + n_steps / save_interval).
Proof.
  intros np nx ny w n k elapsed Hnp Hnx Hny Hone HL Hn Hk He.
  destruct (save_all_one_file np nx ny w 0 Hnp Hnx Hny HL) as (text & Hs).
  destruct (run_loop_ok np nx ny Hnp Hnx Hny k (map (Z.add 1) (zseq n)) Hone Hk
              w [(snapshot_name 0, text)] HL) as (w' & files & Hf & HL' & Hnames).
  destruct (summary_ok w' n elapsed Hn He) as (summary & Hsum).
  exists w', files, summary.
  unfold run. rewrite Hs. cbn [bind]. rewrite Hf. cbn [bind fst snd].
  rewrite Hsum. cbn [bind].
  split; [reflexivity|]. split; [exact HL'|]. split; [exact Hnames|].
  intros Hk1 Hn0.
  assert (Hlen : length files
                 = length (snapshot_name 0
                           :: map snapshot_name (saved_steps n k))).
  { transitivity (length (map fst files));
      [symmetry; apply length_map | exact (f_equal (@length string) Hnames)]. }
  rewrite Hlen. cbn [length].
  rewrite length_map. rewrite Nat2Z.inj_succ.
  rewrite <- (Z2Nat.id n) at 1 2 by lia.
  rewrite count_saved_steps by lia. rewrite Z2Nat.id by lia. lia.
Qed.

Lemma run_single_column_witness :
  exists w w' files summary,
    init_world 1 2 2 = Ok w /\ run w 4 2 1 = Ok (w', files, summary) /\
    Z.of_nat (length files) = 1 + 4 / 2.
Proof.
  assert (E : exists w, init_world 1 2 2 = Ok w).
  { eexists. vm_compute. reflexivity. }
  destruct E as (w & Hw).
  destruct (run_single_column 1 2 2 w 4 2 1) as
    (w' & files & summary & Hr & _ & _ & Hl); try lia.
  - reflexivity.
  - apply laid_out_init; try lia. exact Hw.
  - discriminate.
  - exists w, w', files, summary. split; [exact Hw|]. split; [exact Hr|].
    apply Hl; lia.
Defined.

(** A run of zero time steps fails. In any state of a run, [run(0)]
    writes the snapshot of time step 0 and then raises
    [ZeroDivisionError] on rank 0, where the performance summary divides
    the elapsed time by the number of steps. *)
Theorem run_zero_steps :
  forall (np nx ny : Z) (w : world) (save_interval : Z) (elapsed : Q),
    1 <= np -> 0 <= nx -> 0 <= ny ->
    laid_out np nx ny w ->
    (exists text, save_all w 0 = Ok [(snapshot_name 0, text)]) /\
    run w 0 save_interval elapsed = Raise ZeroDivisionError.
Proof.
  intros np nx ny w k elapsed Hnp Hnx Hny HL.
  destruct (save_all_one_file np nx ny w 0 Hnp Hnx Hny HL) as (text & Hs).
  split; [eauto|].
  unfold run. rewrite Hs. cbn [bind].
  change (zseq 0) with (@nil Z). cbn [map foldM bind fst snd].
  destruct (grid_has np nx ny w 0 HL ltac:(lia)) as (p0 & Hp0).
  destruct (world_head w p0 Hp0) as (rest & Hw).
  destruct (laid_out_proc _ _ _ _ _ _ Hnp Hnx Hny HL Hp0) as (Hrk & _).
  match goal with |- bind ?m _ = _ =>
    assert (E : m = Raise ZeroDivisionError)
  end.
  { apply (mapM_head_raise _ w p0 rest _ Hw).
    rewrite Hrk. change (0 =? 0) with true. cbv iota.
    unfold performance. cbv zeta.
    unfold py_div at 1. destruct (Qeq_bool elapsed 0); reflexivity. }
  rewrite E. reflexivity.
Qed.

Lemma run_zero_steps_witness :
  exists w,
    init_world 2 4 4 = Ok w /\ run w 0 100 1 = Raise ZeroDivisionError.
Proof.
  assert (E : exists w, init_world 2 4 4 = Ok w).
  { eexists. vm_compute. reflexivity. }
  destruct E as (w & Hw). exists w. split; [exact Hw|].
  apply (run_zero_steps 2 4 4 w 100 1); try lia.
  apply laid_out_init; try lia. exact Hw.
Defined.



(** With two or more process columns a run never gets past its first
    time step: in any state of a run of one step or more, [run] writes
    the snapshot of time step 0 and then waits for ever in the first
    halo exchange. *)
Theorem run_blocks_with_two_columns :
  forall (np nx ny : Z) (w : world) (n_steps save_interval : Z) (elapsed : Q),
    1 <= np -> 0 <= nx -> 0 <= ny ->
    2 <= snd (Compute_dims np) ->
    laid_out np nx ny w -> 1 <= n_steps ->
    (exists text, save_all w 0 = Ok [(snapshot_name 0, text)]) /\
    run w n_steps save_interval elapsed = Raise Blocked.
Proof.
  intros np nx ny w n k elapsed Hnp Hnx Hny Htwo HL Hn.
  destruct (save_all_one_file np nx ny w 0 Hnp Hnx Hny HL) as (text & Hs).
  split; [eauto|].
  destruct (steps_cons n Hn) as (rest & Hsteps).
  destruct (Compute_dims_spec np Hnp) as (Hpy & Hpx & Hmul).
  destruct (Compute_dims np) as (px, py) eqn:Hd. cbn [fst snd] in *.
  pose proof (exchange_two_columns np nx ny px py Hd Hpx Hpy Hmul Hnx Hny w
                Htwo HL) as E1.
  unfold run. rewrite Hs. cbn [bind]. rewrite Hsteps. cbn [foldM].
  unfold run_step at 1. rewrite E1. reflexivity.
Qed.

Lemma run_blocks_with_two_columns_witness :
  exists w,
    init_world 4 8 8 = Ok w /\ run w 1000 100 1 = Raise Blocked.
Proof.
  assert (E : exists w, init_world 4 8 8 = Ok w).
  { eexists. vm_compute. reflexivity. }
  destruct E as (w & Hw). exists w. split; [exact Hw|].
  apply (run_blocks_with_two_columns 4 8 8 w 1000 100 1); try lia.
  - vm_compute. discriminate.
  - apply laid_out_init; try lia. exact Hw.
Defined.

(** ** The gathered field after a time step *)

Lemma local_size_first N P : 1 <= N -> 1 <= P -> 1 <= local_size N P 0.
Proof.
  intros HN HP. unfold local_size. cbv zeta.
  pose proof (Z.div_mod N P ltac:(lia)) as E.
  pose proof (Z.mod_pos_bound N P ltac:(lia)) as Hr.
  pose proof (Z.div_pos N P ltac:(lia) ltac:(lia)) as Hq.
  destruct (Z.ltb_spec 0 (N mod P)); nia.
Qed.

Lemma local_size_one_process N : local_size N 1 0 = N.
Proof.
  unfold local_size. cbv zeta. rewrite Z.div_1_r, Z.mod_1_r.
  change (0 <? 0) with false. reflexivity.
Qed.

Lemma coords_one_column px r : Get_coords (px, 1) r = (r, 0).
Proof.
  unfold Get_coords. cbn [snd]. rewrite Z.div_1_r, Z.mod_1_r. reflexivity.
Qed.

(** One process through one time step: its interior cells afterwards. *)
Lemma step_cells np nx ny (w w1 w2 : world) r p :
  1 <= np -> 0 <= nx -> 0 <= ny ->
  laid_out np nx ny w ->
  exchange_ghost_cells w = Ok w1 ->
  mapM apply_stencil w1 = Ok w2 ->
  proc w r = Some p ->
  exists p1 p2,
    proc w1 r = Some p1 /\ proc w2 r = Some p2 /\
    neighbors p1 = neighbors p /\ config p1 = config p /\
    shape0 (u p1) = shape0 (u p) /\ shape1 (u p1) = shape1 (u p) /\
    config p2 = config p /\ shaped p2 /\
    forall i j,
      1 <= i <= nx_local (config p) -> 1 <= j <= ny_local (config p) ->
      item (u p2) i j
      = stencil_value
          (ALPHA * dt (config p) / sq (dx (config p)))
          (ALPHA * dt (config p) / sq (dy (config p))) (u p1) i j.
Proof.
  intros Hnp Hnx Hny HL Hx Hst Hp.
  pose proof (laid_out_kept _ _ _ _ _ _ (exchange_halo_only _ _ Hx) HL) as HL1.
  pose proof Hp as Hpn. apply proc_nth_error in Hpn. destruct Hpn as (Hr & Hpn).
  destruct (exchange_halo_only _ _ Hx) as (_ & K).
  destruct (K _ _ Hpn) as (p1 & Hp1 & _ & _ & Knb & Kcf & _ & K0 & K1 & _).
  assert (Hpp1 : proc w1 r = Some p1) by (apply proc_nth_error; auto).
  destruct (laid_out_proc _ _ _ _ _ _ Hnp Hnx Hny HL1 Hpp1) as
    (_ & _ & Hsh & _ & _ & _ & L0 & L1 & D0 & D1).
  destruct (mapM_nth_error _ _ _ Hst _ _ Hp1) as (p2 & Hp2 & Hs).
  destruct (stencil_step p1 Hsh L0 L1 D0 D1) as
    (s' & Hs' & _ & _ & _ & Hcf & Hsh' & Hcell).
  assert (s' = p2) by congruence. subst s'.
  exists p1, p2. split; [exact Hpp1|].
  split; [apply proc_nth_error; auto|].
  do 4 (split; [assumption|]).
  split; [congruence|]. split; [exact Hsh'|].
  intros i j Hi Hj. rewrite <- Kcf. apply Hcell; rewrite Kcf; assumption.
Qed.

(** After one time step of a run, the gathered field has lost its rim:
    the first row and the first and last columns of the array that rank 0
    obtains hold not-a-number, which is what the snapshot of that time
    step then records there. (The step completes on a process grid of
    one column only.) *)
Theorem gathered_rim_is_nan_after_step :
  forall (np nx ny : Z) (w w1 w2 : world) (me : HeatSolverMPI),
    1 <= np -> 1 <= nx -> 1 <= ny ->
    laid_out np nx ny w ->
    exchange_ghost_cells w = Ok w1 ->
    mapM apply_stencil w1 = Ok w2 ->
    proc w2 0 = Some me ->
    exists g calls,
      gather_global_solution w2 me = Ok (Some g, calls) /\
      shape0 g = nx /\ shape1 g = ny /\
      forall a b, 0 <= a < nx -> 0 <= b < ny ->
        a = 0 \/ b = 0 \/ b = ny - 1 ->
        item g a b = NaN.
Proof.
  intros np nx ny w w1 w2 me Hnp Hnx Hny HL Hx Hst Hme.
  assert (Hnx0 : 0 <= nx) by lia. assert (Hny0 : 0 <= ny) by lia.
  destruct (Compute_dims_spec np Hnp) as (Hpy & Hpx & Hmul).
  destruct (Compute_dims np) as (px, py) eqn:Hd. cbn [fst snd] in *.
  assert (Hone : py = 1).
  { destruct (Z.eq_dec py 1) as [E | E]; [exact E|]. exfalso.
    pose proof (exchange_two_columns np nx ny px py Hd Hpx Hpy Hmul Hnx0 Hny0 w
                  ltac:(lia) HL) as Hb.
    congruence. }
  subst py.
  pose proof (laid_out_kept _ _ _ _ _ _ (exchange_halo_only _ _ Hx) HL) as HL1.
  destruct (laid_out_stencil np nx ny w1 Hnp Hnx0 Hny0 HL1) as (w2' & Hst' & HL2).
  assert (w2' = w2) by congruence. subst w2'.
  destruct (gather_blocks _ _ _ _ _ _ _ Hnp Hnx0 Hny0 Hd HL2 Hme) as
    (g & calls & Hg & G0 & G1 & Hb).
  exists g, calls. split; [exact Hg|]. split; [exact G0|]. split; [exact G1|].
  intros a b Ha Hb' Hrim.
  (* the process that owns row [a] *)
  assert (Hown : exists cx, 0 <= cx < px /\
            start_index nx px cx <= a
            < start_index nx px cx + local_size nx px cx /\
            (a = 0 -> cx = 0)).
  { destruct (Z.eq_dec a 0) as [-> | Ea].
    - exists 0. rewrite start_index_0 by lia.
      pose proof (local_size_first nx px Hnx Hpx). split; [lia|]. split; [lia | auto].
    - destruct (owner_exists nx px a Hnx0 Hpx (Z.to_nat px)) as (cx & Hcx & Ox).
      { rewrite Z2Nat.id by lia. rewrite start_index_total by lia. lia. }
      exists cx. split; [lia|]. split; [exact Ox | intros; lia]. }
  destruct Hown as (cx & Hcx & Ox & Hfirst).
  destruct (grid_has np nx ny w cx HL ltac:(lia)) as (p & Hp).
  destruct (step_cells np nx ny w w1 w2 cx p Hnp Hnx0 Hny0 HL Hx Hst Hp) as
    (p1 & p2 & Hp1 & Hp2 & Knb & Kcf & K0 & K1 & Kcf2 & Hsh2 & Hcell).
  destruct (grid_proc np nx ny px 1 Hd Hpx Hpy Hmul Hnx0 Hny0 w cx p HL Hp) as
    (_ & _ & EN & _ & EW & EE & S0 & S1 & _).
  rewrite coords_one_column in EN, EW, EE, S0, S1. cbn [fst snd] in *.
  rewrite local_size_one_process in S1.
  destruct (laid_out_proc _ _ _ _ _ _ Hnp Hnx0 Hny0 HL Hp) as
    (_ & _ & (Sh0 & Sh1 & _) & _).
  pose proof Hp as Hpn. apply proc_nth_error in Hpn. destruct Hpn as (_ & Hpn).
  destruct (exchange_sides w w1 _ p Hx Hpn) as
    (p1' & Hp1' & _ & _ & NN & _ & NE & _ & NW & _).
  assert (p1' = p1).
  { apply proc_nth_error in Hp1. destruct Hp1 as (_ & Hp1). congruence. }
  subst p1'.
  specialize (Hb cx p2 Hp2 (a - start_index nx px cx) b).
  rewrite coords_one_column in Hb. cbn [fst snd] in Hb.
  rewrite local_size_one_process, start_index_0 in Hb by lia.
  replace (start_index nx px cx + (a - start_index nx px cx)) with a in Hb by lia.
  change (0 + b) with b in Hb.
  rewrite Hb by lia.
  rewrite Hcell by lia.
  apply stencil_value_nan.
  assert (Wnone : west (neighbors p) = None).
  { rewrite EW. unfold cart_rank.
    destruct ((0 <=? cx) && (cx <? px) && (0 <=? 0 + 1)); reflexivity. }
  assert (Enone : east (neighbors p) = None).
  { rewrite EE. unfold cart_rank.
    destruct ((0 <=? cx) && (cx <? px) && (0 <=? 0 + 1)); reflexivity. }
  destruct Hrim as [Ea | [Eb | Eb]].
  - left. specialize (Hfirst Ea). subst a cx.
    rewrite start_index_0 by lia.
    replace (0 - 0 + 1 - 1) with 0 by lia.
    apply NN; [|lia].
    rewrite EN. reflexivity.
  - right. right. left. subst b. replace (0 + 1 - 1) with 0 by lia.
    apply NW; [exact Wnone | lia].
  - right. right. right. subst b.
    replace (ny - 1 + 1 + 1) with (shape1 (u p) - 1) by lia.
    apply NE; [exact Enone | lia].
Qed.

Lemma gathered_rim_is_nan_after_step_witness :
  exists w w1 w2 me g calls,
    init_world 2 4 3 = Ok w /\ exchange_ghost_cells w = Ok w1 /\
    mapM apply_stencil w1 = Ok w2 /\ proc w2 0 = Some me /\
    gather_global_solution w2 me = Ok (Some g, calls) /\
    item g 0 1 = NaN /\ item g 3 2 = NaN.
Proof.
  assert (E : exists w w1 w2 me,
             init_world 2 4 3 = Ok w /\ exchange_ghost_cells w = Ok w1 /\
             mapM apply_stencil w1 = Ok w2 /\ proc w2 0 = Some me).
  { do 4 eexists. split; [vm_compute; reflexivity|].
    split; [vm_compute; reflexivity|].
    split; vm_compute; reflexivity. }
  destruct E as (w & w1 & w2 & me & Hw & Hx & Hs & Hme).
  destruct (gathered_rim_is_nan_after_step 2 4 3 w w1 w2 me) as
    (g & calls & Hg & _ & _ & Hc); try lia; try assumption.
  { apply laid_out_init; try lia. exact Hw. }
  exists w, w1, w2, me, g, calls. repeat split; try assumption.
  - apply Hc; lia.
  - apply Hc; lia.
Defined.

(** ** The max-reduction, continued *)

(** The value [compute_max_error] returns on numeric fields. *)
Lemma max_error_spec :
  forall w : world,
    w <> [] ->
    (forall r p, proc w r = Some p ->
       shape0 (u_new p) = shape0 (u p) /\ shape1 (u_new p) = shape1 (u p) /\
       3 <= shape0 (u p) /\ 3 <= shape1 (u p) /\
       forall i j, interior (shape0 (u p)) (shape1 (u p)) i j ->
         is_num (item (u p) i j) /\ is_num (item (u_new p) i j)) ->
    exists M,
      (forall r me, proc w r = Some me -> compute_max_error w me = Ok (Num M)) /\
      (forall r p, proc w r = Some p ->
         exists lm,
           local_max p = Ok (Num lm) /\ (lm <= M)%Q /\
           (forall i j, interior (shape0 (u p)) (shape1 (u p)) i j ->
              exists x, abs_diff p i j = Num x /\ (x <= lm)%Q) /\
           (exists i j, interior (shape0 (u p)) (shape1 (u p)) i j /\
              abs_diff p i j = Num lm)) /\
      (exists r p, proc w r = Some p /\ local_max p = Ok (Num M)).
Proof.
  intros w Hne Hw.
  assert (Hp : forall k p, nth_error w k = Some p ->
            exists lm,
              local_max p = Ok (Num lm) /\
              (forall i j, interior (shape0 (u p)) (shape1 (u p)) i j ->
                 exists x, abs_diff p i j = Num x /\ (x <= lm)%Q) /\
              (exists i j, interior (shape0 (u p)) (shape1 (u p)) i j /\
                 abs_diff p i j = Num lm)).
  { intros k p Hk.
    destruct (Hw (Z.of_nat k) p) as (H0 & H1 & Hn & Hm & Hnum).
    { apply proc_nth_error. rewrite Nat2Z.id. split; [lia | exact Hk]. }
    apply local_max_spec; assumption. }
  destruct (mapM_exists contribution w) as (vals & Hvals).
  { intros p Hin. apply In_nth_error in Hin. destruct Hin as (k & Hk).
    destruct (Hp k p Hk) as (lm & Hlm & _).
    exists (Num lm). apply contribution_Ok, Hlm. }
  assert (Hv : forall v, In v vals ->
            exists k p lm, nth_error w k = Some p /\ v = Num lm /\
                           local_max p = Ok (Num lm)).
  { intros v Hin. apply In_nth_error in Hin. destruct Hin as (k & Hk).
    destruct (nth_error_same_length vals w k v (mapM_length _ _ _ Hvals) Hk)
      as (p & Hpk).
    destruct (mapM_nth_error _ _ _ Hvals k p Hpk) as (v' & Hv' & Hl).
    assert (v' = v) by congruence. subst v'.
    destruct (Hp k p Hpk) as (lm & Hlm & _).
    rewrite (contribution_Ok _ _ Hlm) in Hl.
    exists k, p, lm. repeat split; congruence. }
  assert (Hvne : vals <> []).
  { intros ->. apply mapM_length in Hvals. destruct w; [congruence | discriminate]. }
  destruct (allreduce_larger op_MAX vals op_MAX_larger Hvne) as (M & HM & Hin & Hub).
  { intros x Hx. destruct (Hv x Hx) as (k & p & lm & _ & -> & _).
    eexists; reflexivity. }
  exists M. split; [|split].
  - intros r me Hme. apply proc_nth_error in Hme. destruct Hme as (_ & Hme).
    destruct (Hp _ me Hme) as (lm & Hlm & _).
    unfold compute_max_error. rewrite Hlm. cbn [bind]. rewrite Hvals. cbn [bind].
    exact HM.
  - intros r p Hr. apply proc_nth_error in Hr. destruct Hr as (_ & Hr).
    destruct (Hp _ p Hr) as (lm & Hlm & Hub' & Hat).
    exists lm. split; [exact Hlm|]. split; [|split; assumption].
    apply Hub.
    destruct (mapM_nth_error _ _ _ Hvals _ p Hr) as (v & Hv' & Hl).
    rewrite (contribution_Ok _ _ Hlm) in Hl.
    assert (v = Num lm) by congruence. subst v.
    eapply nth_error_In; eauto.
  - destruct (Hv (Num M) Hin) as (k & p & lm & Hk & E & Hl).
    injection E as <-. exists (Z.of_nat k), p. split; [|exact Hl].
    apply proc_nth_error. rewrite Nat2Z.id. split; [lia | exact Hk].
Qed.

Lemma Qabs_zero (x : Q) : (Qabs x == 0)%Q -> (x == 0)%Q.
Proof.
  intros H. pose proof (Qle_Qabs x) as H1. pose proof (Qle_Qabs (- x)) as H2.
  rewrite Qabs_opp in H2. lra.
Qed.

(** The convergence monitor on numeric fields: the value returned by
    [compute_max_error] is never negative, and it is zero exactly when no
    interior cell of any process differs between the two buffers. *)
Theorem max_error_zero_iff_unchanged :
  forall w : world,
    w <> [] ->
    (forall r p, proc w r = Some p ->
       shape0 (u_new p) = shape0 (u p) /\ shape1 (u_new p) = shape1 (u p) /\
       3 <= shape0 (u p) /\ 3 <= shape1 (u p) /\
       forall i j, interior (shape0 (u p)) (shape1 (u p)) i j ->
         is_num (item (u p) i j) /\ is_num (item (u_new p) i j)) ->
    exists M,
      (forall r me, proc w r = Some me -> compute_max_error w me = Ok (Num M)) /\
      (0 <= M)%Q /\
      ((M == 0)%Q <->
       forall r p i j,
         proc w r = Some p -> interior (shape0 (u p)) (shape1 (u p)) i j ->
         exists x y,
           item (u p) i j = Num x /\ item (u_new p) i j = Num y /\
           (y == x)%Q).
Proof.
  intros w Hne Hw.
  destruct (max_error_spec w Hne Hw) as (M & HM & Hall & (r0 & p0 & Hp0 & Hl0)).
  exists M. split; [exact HM|].
  assert (Hdiff : forall r p i j,
            proc w r = Some p -> interior (shape0 (u p)) (shape1 (u p)) i j ->
            exists x y,
              item (u p) i j = Num x /\ item (u_new p) i j = Num y /\
              abs_diff p i j = Num (Qabs (y - x))).
  { intros r p i j Hp Hi.
    destruct (Hw r p Hp) as (_ & _ & _ & _ & Hn).
    destruct (Hn i j Hi) as ((x & Ex) & (y & Ey)).
    exists x, y. unfold abs_diff. rewrite Ex, Ey. auto. }
  assert (Hatt : exists x y, (M == Qabs (y - x))%Q /\
            exists r p i j,
              proc w r = Some p /\ interior (shape0 (u p)) (shape1 (u p)) i j /\
              item (u p) i j = Num x /\ item (u_new p) i j = Num y).
  { destruct (Hall r0 p0 Hp0) as (lm & Hlm & _ & _ & (i & j & Hi & Ha)).
    assert (lm = M) by congruence. subst lm.
    destruct (Hdiff r0 p0 i j Hp0 Hi) as (x & y & Ex & Ey & Ed).
    exists x, y. split.
    - rewrite Ed in Ha. injection Ha as Ha. rewrite <- Ha. reflexivity.
    - exists r0, p0, i, j. auto. }
  destruct Hatt as (x0 & y0 & EM & (r1 & p1 & i1 & j1 & Hp1 & Hi1 & Ex1 & Ey1)).
  split; [rewrite EM; apply Qabs_nonneg|].
  split.
  - intros HM0 r p i j Hp Hi.
    destruct (Hdiff r p i j Hp Hi) as (x & y & Ex & Ey & Ed).
    exists x, y. split; [exact Ex|]. split; [exact Ey|].
    destruct (Hall r p Hp) as (lm & _ & Hle & Hub & _).
    destruct (Hub i j Hi) as (d & Ed' & Hd).
    assert (Ed2 : d = Qabs (y - x)) by congruence. subst d.
    assert (Hz : (Qabs (y - x) == 0)%Q).
    { pose proof (Qabs_nonneg (y - x)) as Hnn.
      apply Qle_antisym; [|exact Hnn].
      apply Qle_trans with lm; [exact Hd|].
      apply Qle_trans with M; [exact Hle|]. rewrite HM0. apply Qle_refl. }
    apply Qabs_zero in Hz. lra.
  - intros Hsame.
    destruct (Hsame r1 p1 i1 j1 Hp1 Hi1) as (x & y & Ex & Ey & Exy).
    assert (x = x0) by congruence. assert (y = y0) by congruence. subst x y.
    rewrite EM.
    assert (E : (y0 - x0 == 0)%Q) by lra.
    rewrite E. reflexivity.
Qed.

Lemma max_error_zero_iff_unchanged_witness :
  exists w M,
    init_world 2 3 3 = Ok w /\
    (forall r me, proc w r = Some me -> compute_max_error w me = Ok (Num M)) /\ (M == 0)%Q.
Proof.
  assert (E : exists w,
             init_world 2 3 3 = Ok w /\ w <> [] /\
             forallb numeric_ready w = true).
  { eexists. split; [vm_compute; reflexivity|].
    split; [discriminate | vm_compute; reflexivity]. }
  destruct E as (w & Hw & Hne & Hrd).
  assert (Hn : forall r p, proc w r = Some p ->
            shape0 (u_new p) = shape0 (u p) /\ shape1 (u_new p) = shape1 (u p) /\
            3 <= shape0 (u p) /\ 3 <= shape1 (u p) /\
            forall i j, interior (shape0 (u p)) (shape1 (u p)) i j ->
              is_num (item (u p) i j) /\ is_num (item (u_new p) i j)).
  { intros r p Hp. apply proc_nth_error in Hp. destruct Hp as (_ & Hp).
    apply numeric_ready_sound.
    rewrite forallb_forall in Hrd. apply Hrd.
    eapply nth_error_In; eauto. }
  destruct (max_error_zero_iff_unchanged w Hne Hn) as (M & HM & _ & Hz).
  exists w, M. split; [exact Hw|]. split; [exact HM|].
  apply Hz. intros r p i j Hp Hi.
  destruct (init_world_proc _ _ _ _ _ _ Hw Hp) as (_ & Hinit).
  destruct (init_inv 2 r 3 3 p ltac:(lia) ltac:(lia) ltac:(lia) Hinit) as
    (nb & cfg & _ & _ & _ & _ & _ & _ & _ & (S0 & S1 & _) & Ta & Tb).
  unfold interior in Hi.
  exists 20%Q, 20%Q.
  rewrite Ta, Tb by lia. rewrite !enforced_interior by lia.
  repeat split; reflexivity.
Defined.

(** ** Snapshot file names *)

Lemma string_app_cancel_l (p a b : string) :
  (p ++ a = p ++ b)%string -> a = b.
Proof.
  induction p as [|c p IH]; cbn; intros H; [exact H|].
  injection H as H. auto.
Qed.

Lemma string_app_cancel_r (s a b : string) :
  (a ++ s = b ++ s)%string -> a = b.
Proof.
  revert b. induction a as [|c a IH]; intros [|c' b] H.
  - reflexivity.
  - exfalso. apply (f_equal String.length) in H.
    cbn in H. rewrite string_length_app in H. lia.
  - exfalso. apply (f_equal String.length) in H.
    cbn in H. rewrite string_length_app in H. lia.
  - cbn in H. injection H as -> H. f_equal. auto.
Qed.

Lemma digits_value_zeros (k : nat) (s : string) :
  digits_value (zeros k ++ s) = digits_value s.
Proof.
  induction k as [|k IH]; [reflexivity|].
  rewrite <- IH. unfold digits_value. cbn [zeros append].
  cbn [NilEmpty.uint_of_string].
  destruct (NilEmpty.uint_of_string (zeros k ++ s)); reflexivity.
Qed.

(** The time step can be read back from the name of its snapshot: the
    digits that [save_solution] puts in the file name stand for the time
    step, for every time step from 0 on and however many digits it takes.
    So the snapshots of two different time steps never go to the same
    file, in whatever directory they are written. *)
Theorem snapshot_names_distinct :
  (forall t, 0 <= t -> digits_value (format_05d t) = Some t) /\
  (forall (output_dir : string) (t t' : Z),
     0 <= t -> 0 <= t' ->
     (output_dir ++ "/heat_solution_" ++ format_05d t ++ ".dat"
      = output_dir ++ "/heat_solution_" ++ format_05d t' ++ ".dat")%string ->
     t = t').
Proof.
  assert (R : forall t, 0 <= t -> digits_value (format_05d t) = Some t).
  { intros t Ht. unfold format_05d. cbv zeta.
    replace (t <? 0) with false by (symmetry; apply Z.ltb_ge; exact Ht).
    rewrite digits_value_zeros, Z.abs_eq by exact Ht.
    apply digits_value_str. exact Ht. }
  split; [exact R|].
  intros dir t t' Ht Ht' H.
  apply string_app_cancel_l in H. apply string_app_cancel_l in H.
  apply string_app_cancel_r in H.
  pose proof (R t Ht) as E. pose proof (R t' Ht') as E'.
  rewrite H in E. congruence.
Qed.

Lemma snapshot_names_distinct_witness :
  digits_value (format_05d 100) = Some 100 /\
  digits_value (format_05d 123456) = Some 123456.
Proof.
  split; apply (proj1 snapshot_names_distinct); lia.
Defined.
